(** * The 40bpp animated blitter (src/blitter/40bpp_anim.cpp)

    A shallow embedding of [Blitter_40bppAnim]: the pixel writers
    ([SetPixel], [DrawRect]), the sprite compositor ([Draw]), the region
    capture and restore ([CopyToBuffer], [CopyFromBuffer]), the region scroll
    ([ScrollBuffer]) and the capability queries ([BufferSize], ...).
    [DrawLine], [DrawColourMappingRect] and [CopyImageToBuffer] follow
    after the sprite format.  [Encode] is left out: it hands its arguments
    to a function of the parent class.

    Conventions of the embedding.
    - A C++ pointer into a buffer is the index of the cell it points at, a
      [Z]; a buffer is a map from cell indices to cell values ([mem]).
      The colour buffer is indexed in 32-bit cells from [_screen.dst_ptr],
      the animation buffer in bytes from [GetAnimBuffer()], so that the
      source's [(uint32_t * )video - (uint32_t * )_screen.dst_ptr] is the
      number that stands for [video].  Where a buffer ends is the caller's
      business, as it is in the source; what is proved says which cells an
      operation writes.
    - A pointer that only moves forward over immutable sprite data is the
      list of the cells that remain in front of it.
    - [int] arithmetic is exact (overflow is outside the language);
      [uint] and [size_t] arithmetic wraps, and the wrap is written out.
    - An operation that asserts, aborts or leaves the language returns
      [Err]. *)

From Stdlib Require Import ZArith List Lia Bool.
Import ListNotations.
Local Open Scope Z_scope.

(** ** Results of fallible operations *)

Inductive failure : Type :=
| NotReached      (* NOT_REACHED() *)
| AssertFailed    (* a failed assert() *)
| NullPointer     (* a null animation buffer dereferenced *)
| OutOfStream     (* a read past the end of the sprite data *)
| Misaligned      (* a scanline length that is no whole number of cells *)
| NoReturn.       (* a loop that does not come to an end *)

Inductive result (A : Type) : Type :=
| Ok (a : A)
| Err (f : failure).
Arguments Ok {A} a.
Arguments Err {A} f.

Definition bind {A B : Type} (r : result A) (k : A -> result B) : result B :=
  match r with
  | Ok a => k a
  | Err f => Err f
  end.

Notation "x <- e ;; k" := (bind e (fun x => k))
  (at level 61, e at next level, right associativity).
Notation "' p <- e ;; k" := (bind e (fun p => k))
  (at level 61, p pattern, e at next level, right associativity).

Definition assert (b : bool) : result unit :=
  if b then Ok tt else Err AssertFailed.

(** ** Machine integers *)

(** uint has 32 bits; size_t is taken at the 64 bits of the targets the
    game is built for today. *)
Definition uint (x : Z) : Z := x mod 2 ^ 32.
Definition size_t (x : Z) : Z := x mod 2 ^ 64.

(** GB(x, s, n) of core/bitmath_func.hpp: [n] bits of [x] from bit [s]. *)
Definition GB (x s n : Z) : Z := Z.land (Z.shiftr x s) (2 ^ n - 1).

(** ** Memory *)

Definition mem : Type := Z -> Z.

Definition store (m : mem) (p v : Z) : mem :=
  fun q => if q =? p then v else m q.

(** ** Colours

    Modelled from the spec: the [Colour] union of gfx_type.h is not part of
    the sources at hand.  The spec has "4 independent 8-bit channels
    (r, g, b, a) packed into one 32-bit word"; the word is [data], and the
    channels sit in it as on a little-endian target (b, g, r, a from the low
    byte up).  The constructor of three arguments makes a solid colour:
    its alpha is 255, which the spec has as "fully opaque direct color". *)

Definition MakeColour (r g b a : Z) : Z :=
  Z.lor (Z.lor (Z.lor (Z.shiftl (a mod 256) 24) (Z.shiftl (r mod 256) 16))
               (Z.shiftl (g mod 256) 8)) (b mod 256).

Definition Colour_b (c : Z) : Z := GB c 0 8.
Definition Colour_g (c : Z) : Z := GB c 8 8.
Definition Colour_r (c : Z) : Z := GB c 16 8.
Definition Colour_a (c : Z) : Z := GB c 24 8.

Definition Colour3 (r g b : Z) : Z := MakeColour r g b 255.

(** static const Colour _black_colour(0, 0, 0); *)
Definition _black_colour : Z := Colour3 0 0 0.

(** PixelColour: only its palette index [p] is used here. *)
Record PixelColour : Type := { p : Z }.

(** ** The render target

    [_screen_disable_anim], the fields of [_screen] that the blitter reads,
    the colour buffer behind [_screen.dst_ptr] and the animation buffer of
    the video driver ([None] when [GetAnimBuffer()] is null). *)

Record Target : Type := {
  screen_disable_anim : bool;
  screen_pitch : Z;
  screen_width : Z;
  screen_height : Z;
  screen_mem : mem;
  anim_buffer : option mem
}.

Definition with_buffers (t : Target) (cm : mem) (am : option mem) : Target :=
  {| screen_disable_anim := screen_disable_anim t;
     screen_pitch := screen_pitch t;
     screen_width := screen_width t;
     screen_height := screen_height t;
     screen_mem := cm;
     anim_buffer := am |}.

(** video >= _screen.dst_ptr &&
    video <= (uint32_t * )_screen.dst_ptr + _screen.width + _screen.height * _screen.pitch *)
Definition video_in_screen (t : Target) (video : Z) : bool :=
  (0 <=? video) && (video <=? screen_width t + screen_height t * screen_pitch t).

(** ** Collaborators that are not part of the sources at hand

    The colour arithmetic of the 32bpp base class.  Only their types matter
    to what is proved below; they read the current palette, which is why
    they are an interface rather than fixed functions. *)

Class ColourOps : Type := {
  LookupColourInPalette : Z -> Z;
  RealizeBlendedColour : Z -> Z -> Z;
  ComposeColourRGBANoCheck : Z -> Z -> Z -> Z -> Z -> Z;
  ComposeColourPANoCheck : Z -> Z -> Z -> Z;
  MakeDark : Z -> Z;
  MakeTransparent : Z -> Z -> Z -> Z;
  GetColourBrightness : Z -> Z;
  GetNearestColourIndex : Z -> Z
}.

(** BlitterMode of blitter/base.hpp: the six enumerators that the source
    names, and any other value the underlying integer can hold. *)
Inductive BlitterMode : Type :=
| Normal
| ColourRemap
| Transparent
| TransparentRemap
| CrashRemap
| BlackRemap
| OtherMode (raw : Z).

Definition ZoomLevel : Type := nat.

(** Blitter::BlitterParams.  [bp_sprite_px zoom] is the pixel stream
    [src->data + src->offset[0][zoom]] in 32-bit cells, [bp_sprite_n zoom]
    the stream [src->data + src->offset[1][zoom]] in 16-bit cells;
    [bp_dst] stands for the pointer [bp->dst] as [video] does above. *)
Record BlitterParams : Type := {
  bp_sprite_px : ZoomLevel -> list Z;
  bp_sprite_n : ZoomLevel -> list Z;
  bp_remap : mem;
  bp_skip_left : Z;
  bp_skip_top : Z;
  bp_width : Z;
  bp_height : Z;
  bp_left : Z;
  bp_top : Z;
  bp_dst : Z;
  bp_pitch : Z
}.

(** Modelled from the spec: the parent class Blitter_32bppOptimized is not
    part of the sources at hand.  The spec has it as "a non-animated blitter
    using the same sprite format but writing only the colour buffer", so
    each of its methods is a function that yields the new colour buffer. *)
Class ParentBlitter : Type := {
  Blitter_32bppOptimized_SetPixel : Z -> Z -> Z -> PixelColour -> Target -> mem;
  Blitter_32bppOptimized_DrawRect : Z -> Z -> Z -> PixelColour -> Target -> mem;
  Blitter_32bppOptimized_Draw : BlitterParams -> BlitterMode -> ZoomLevel -> Target -> mem
}.

(** ** SetPixel and DrawRect *)

Section Pixels.
Context {parent : ParentBlitter}.

Definition SetPixel (video x y : Z) (colour : PixelColour) (t : Target) : result Target :=
  if screen_disable_anim t then
    Ok (with_buffers t (Blitter_32bppOptimized_SetPixel video x y colour t) (anim_buffer t))
  else
    let y_offset := size_t (size_t y * size_t (screen_pitch t)) in
    let cm := store (screen_mem t) (video + x + y_offset) _black_colour in
    match anim_buffer t with
    | None => Err NullPointer
    | Some am => Ok (with_buffers t cm (Some (store am (video + x + y_offset) (p colour))))
    end.

(** for (int i = width; i > 0; i--) { *dst = _black_colour; *anim = colour.p; dst++; anim++; } *)
Fixpoint DrawRect_row (i : nat) (dst anim : Z) (colour : PixelColour) (cm am : mem)
    : mem * mem :=
  match i with
  | O => (cm, am)
  | S i' => DrawRect_row i' (dst + 1) (anim + 1) colour
              (store cm dst _black_colour) (store am anim (p colour))
  end.

(** do { ...; video += _screen.pitch; anim_line += _screen.pitch; } while (--height);
    [rows] is one less than the number of turns the loop takes. *)
Fixpoint DrawRect_rows (rows : nat) (pitch video anim_line width : Z) (colour : PixelColour)
    (cm am : mem) : mem * mem :=
  let '(cm1, am1) := DrawRect_row (Z.to_nat width) video anim_line colour cm am in
  match rows with
  | O => (cm1, am1)
  | S rows' => DrawRect_rows rows' pitch (video + pitch) (anim_line + pitch) width colour cm1 am1
  end.

Definition DrawRect (video width height : Z) (colour : PixelColour) (t : Target) : result Target :=
  if screen_disable_anim t then
    Ok (with_buffers t (Blitter_32bppOptimized_DrawRect video width height colour t)
                     (anim_buffer t))
  else
    match anim_buffer t with
    | None => Err AssertFailed
    | Some am =>
        (* --height reaches 0 only from a height of at least 1 *)
        if height <=? 0 then Err NoReturn
        else
          let '(cm1, am1) :=
            DrawRect_rows (Z.to_nat (height - 1)) (screen_pitch t) video video width colour
                          (screen_mem t) am in
          Ok (with_buffers t cm1 (Some am1))
    end.

End Pixels.

(** ** BufferSize and the capability queries *)

(** return (sizeof(uint32_t) + sizeof(uint8_t)) * width * height;
    [width] and [height] are uint, the product is a size_t (of 64 bits). *)
Definition BufferSize (width height : Z) : Z :=
  size_t (size_t ((4 + 1) * uint width) * uint height).

Inductive PaletteAnimation : Type :=
| PaletteAnimation_None
| PaletteAnimation_VideoBackend
| PaletteAnimation_Blitter.

Definition UsePaletteAnimation : PaletteAnimation := PaletteAnimation_VideoBackend.

Definition NeedsAnimationBuffer : bool := true.

(** ** CopyToBuffer and CopyFromBuffer

    The buffer of the caller is a byte memory indexed from the pointer the
    caller passes ([dst], [src]); a 32-bit cell takes four bytes in it, low
    byte first. *)

Definition store32 (m : mem) (q w : Z) : mem :=
  store (store (store (store m q (w mod 256)) (q + 1) ((w / 2 ^ 8) mod 256))
               (q + 2) ((w / 2 ^ 16) mod 256)) (q + 3) ((w / 2 ^ 24) mod 256).

Definition load32 (m : mem) (q : Z) : Z :=
  m q + 2 ^ 8 * m (q + 1) + 2 ^ 16 * m (q + 2) + 2 ^ 24 * m (q + 3).

(** std::copy_n(src, n, dst) from 32-bit cells to the byte buffer *)
Fixpoint copy_n_cells_out (n : nat) (from : mem) (src : Z) (to : mem) (dst : Z) : mem :=
  match n with
  | O => to
  | S n' => copy_n_cells_out n' from (src + 1) (store32 to dst (from src)) (dst + 4)
  end.

(** std::copy_n(src, n, dst) from the byte buffer to 32-bit cells *)
Fixpoint copy_n_cells_in (n : nat) (from : mem) (src : Z) (to : mem) (dst : Z) : mem :=
  match n with
  | O => to
  | S n' => copy_n_cells_in n' from (src + 4) (store to dst (load32 from src)) (dst + 1)
  end.

(** std::copy_n(src, n, dst) from bytes to bytes *)
Fixpoint copy_n_bytes (n : nat) (from : mem) (src : Z) (to : mem) (dst : Z) : mem :=
  match n with
  | O => to
  | S n' => copy_n_bytes n' from (src + 1) (store to dst (from src)) (dst + 1)
  end.

(** for (; height > 0; height--) of CopyFromBuffer; [usrc] is counted in bytes *)
Fixpoint CopyFromBuffer_rows (height : nat) (pitch width : Z) (src : mem) (usrc : Z)
    (dst anim_line : Z) (cm am : mem) : mem * mem :=
  match height with
  | O => (cm, am)
  | S height' =>
      let cm1 := copy_n_cells_in (Z.to_nat width) src usrc cm dst in
      let usrc1 := usrc + 4 * width in
      let am1 := copy_n_bytes (Z.to_nat width) src usrc1 am anim_line in
      CopyFromBuffer_rows height' pitch width src (usrc1 + width)
                          (dst + pitch) (anim_line + pitch) cm1 am1
  end.

Definition CopyFromBuffer (video : Z) (src : mem) (width height : Z) (t : Target) : result Target :=
  _ <- assert (negb (screen_disable_anim t)) ;;
  _ <- assert (video_in_screen t video) ;;
  match anim_buffer t with
  | None => Ok t
  | Some am =>
      let '(cm1, am1) :=
        CopyFromBuffer_rows (Z.to_nat height) (screen_pitch t) width src 0 video video
                            (screen_mem t) am in
      Ok (with_buffers t cm1 (Some am1))
  end.

(** for (; height > 0; height--) of CopyToBuffer; [udst] is counted in bytes *)
Fixpoint CopyToBuffer_rows (height : nat) (pitch width : Z) (cm am : mem)
    (src anim_line : Z) (dst : mem) (udst : Z) : mem :=
  match height with
  | O => dst
  | S height' =>
      let dst1 := copy_n_cells_out (Z.to_nat width) cm src dst udst in
      let udst1 := udst + 4 * width in
      let dst2 := copy_n_bytes (Z.to_nat width) am anim_line dst1 udst1 in
      CopyToBuffer_rows height' pitch width cm am (src + pitch) (anim_line + pitch)
                        dst2 (udst1 + width)
  end.

Definition CopyToBuffer (video : Z) (dst : mem) (width height : Z) (t : Target) : result mem :=
  _ <- assert (negb (screen_disable_anim t)) ;;
  _ <- assert (video_in_screen t video) ;;
  match anim_buffer t with
  | None => Ok dst
  | Some am =>
      Ok (CopyToBuffer_rows (Z.to_nat height) (screen_pitch t) width (screen_mem t) am
                            video video dst 0)
  end.

(** ** ScrollBuffer *)

(** Modelled from the spec: Blitter::MovePixels of blitter/base.hpp is not
    part of the sources at hand.  The spec has the scroll "shift pixel
    content within the same buffer": [height] rows of [width] cells each go
    from [src] to [dst], both pointers stepping by [pitch] from row to row,
    and a row is moved as a whole, so a row that overlaps its own source
    arrives intact. *)
Definition move_row (m : mem) (src dst width : Z) : mem :=
  fun q => if (dst <=? q) && (q <? dst + width) then m (q - dst + src) else m q.

Fixpoint MovePixels_rows (height : nat) (m : mem) (src dst width pitch : Z) : mem :=
  match height with
  | O => m
  | S height' =>
      MovePixels_rows height' (move_row m src dst width) (src + pitch) (dst + pitch) width pitch
  end.

Definition MovePixels (m : mem) (src dst width height pitch : Z) : mem :=
  MovePixels_rows (Z.to_nat height) m src dst width pitch.

(** The window that the source computes for the animation buffer, from the
    pointer [base]: the pair of the first source and destination cells, the
    extent [tw] x [th] and the step from row to row. *)
Definition scroll_window (base pitch left top width height scroll_x scroll_y : Z)
    : Z * Z * Z * Z * Z :=
  if scroll_y >? 0 then
    let dst := base + left + (top + height - 1) * pitch in
    let src := dst - scroll_y * pitch in
    let dst1 := if scroll_x >=? 0 then dst + scroll_x else dst in
    let src1 := if scroll_x >=? 0 then src else src - scroll_x in
    let tw := uint (width + (if scroll_x >=? 0 then - scroll_x else scroll_x)) in
    let th := uint (height - scroll_y) in
    (src1, dst1, tw, th, - pitch)
  else
    let dst := base + left + top * pitch in
    let src := dst - scroll_y * pitch in
    let dst1 := if scroll_x >=? 0 then dst + scroll_x else dst in
    let src1 := if scroll_x >=? 0 then src else src - scroll_x in
    let tw := uint (width + (if scroll_x >=? 0 then - scroll_x else scroll_x)) in
    let th := uint (height + scroll_y) in
    (src1, dst1, tw, th, pitch).

(** Modelled from the spec: Blitter_32bppBase::ScrollBuffer is not part of
    the sources at hand.  The spec has the animation buffer's window moved
    "with the identical geometry" as the colour buffer's, so the colour move
    is the move of the same window, counted from [video].  What the base
    class writes back through the references [left], [top], [width] and
    [height] is not modelled. *)
Definition Blitter_32bppBase_ScrollBuffer (video left top width height scroll_x scroll_y : Z)
    (pitch : Z) (cm : mem) : mem :=
  let '(src, dst, tw, th, step) :=
    scroll_window video pitch left top width height scroll_x scroll_y in
  MovePixels cm src dst tw th step.

(** [dst] and [src] of the animation buffer start from [anim_buf], index 0
    of the animation memory: [video] plays no part in them. *)
Definition ScrollBuffer (video left top width height scroll_x scroll_y : Z) (t : Target)
    : result Target :=
  _ <- assert (negb (screen_disable_anim t)) ;;
  _ <- assert (video_in_screen t video) ;;
  match anim_buffer t with
  | None => Err NullPointer
  | Some am =>
      let '(src, dst, tw, th, step) :=
        scroll_window 0 (screen_pitch t) left top width height scroll_x scroll_y in
      let am1 := MovePixels am src dst tw th step in
      Ok (with_buffers t
            (Blitter_32bppBase_ScrollBuffer video left top width height scroll_x scroll_y
                                            (screen_pitch t) (screen_mem t))
            (Some am1))
  end.

(** ** Draw

    The cursors of the template [Draw<mode>]: [dst] and [anim] are indices
    into the colour and the animation buffer, [src_px] and [src_n] are what
    remains of the two sprite streams. *)

Record Blit : Type := {
  dst : Z;
  anim : Z;
  src_px : list Z;
  src_n : list Z;
  cmem : mem;
  amem : mem
}.

(** reading through a stream pointer *)
Definition deref (l : list Z) : result Z :=
  match l with
  | x :: _ => Ok x
  | [] => Err OutOfStream
  end.

(** ptr += k on a stream pointer *)
Definition advance (k : Z) (l : list Z) : list Z := skipn (Z.to_nat k) l.

(** (const Colour * )((const uint8_t * )src_px + *(const uint32_t * )src_px) *)
Definition next_px_line (src_px : list Z) : result (list Z) :=
  len <- deref src_px ;;
  if len mod 4 =? 0 then Ok (advance (len / 4) src_px) else Err Misaligned.

(** (const uint16_t * )((const uint8_t * )src_n + *(const uint32_t * )src_n):
    the 32-bit length is read from two 16-bit cells, low half first. *)
Definition next_n_line (src_n : list Z) : result (list Z) :=
  lo <- deref src_n ;;
  hi <- deref (advance 1 src_n) ;;
  let len := lo + 2 ^ 16 * hi in
  if len mod 2 =? 0 then Ok (advance (len / 2) src_n) else Err Misaligned.

(** *dst = c; and *anim = a; *)
Definition put_dst (s : Blit) (c : Z) : Blit :=
  {| dst := dst s; anim := anim s; src_px := src_px s; src_n := src_n s;
     cmem := store (cmem s) (dst s) c; amem := amem s |}.

Definition put_anim (s : Blit) (a : Z) : Blit :=
  {| dst := dst s; anim := anim s; src_px := src_px s; src_n := src_n s;
     cmem := cmem s; amem := store (amem s) (anim s) a |}.

(** dst = d; *)
Definition set_dst (s : Blit) (d : Z) : Blit :=
  {| dst := d; anim := anim s; src_px := src_px s; src_n := src_n s;
     cmem := cmem s; amem := amem s |}.

(** the four cursors, each moved by its own amount *)
Definition move (s : Blit) (d_dst d_anim d_px d_n : Z) : Blit :=
  {| dst := dst s + d_dst; anim := anim s + d_anim;
     src_px := advance d_px (src_px s); src_n := advance d_n (src_n s);
     cmem := cmem s; amem := amem s |}.

Fixpoint do_times (k : nat) (body : Blit -> result Blit) (s : Blit) : result Blit :=
  match k with
  | O => Ok s
  | S k' => s1 <- body s ;; do_times k' body s1
  end.

(** do { body } while (--n != 0); with [n] a uint: from 0 it wraps. *)
Definition do_while (n : Z) (body : Blit -> result Blit) (s : Blit) : result Blit :=
  do_times (Z.to_nat (if n =? 0 then 2 ^ 32 else n)) body s.

Section Draw.
Context {ops : ColourOps}.

Definition is_crash (mode : BlitterMode) : bool :=
  match mode with CrashRemap => true | _ => false end.

(** ColourRemap and CrashRemap, src_px->a == 255 *)
Definition remap_opaque (mode : BlitterMode) (remap : mem) (s : Blit) : result Blit :=
  sn <- deref (src_n s) ;;
  let m := GB sn 0 8 in
  s1 <- (if m =? 0 then
           px <- deref (src_px s) ;;
           Ok (put_anim (put_dst s (if is_crash mode then MakeDark px else px)) 0)
         else
           let r := remap m in
           if r =? 0 then Ok s
           else px <- deref (src_px s) ;; Ok (put_anim (put_dst s px) r)) ;;
  Ok (move s1 1 1 1 1).

(** ColourRemap and CrashRemap, src_px->a != 255 *)
Definition remap_blend (mode : BlitterMode) (remap : mem) (s : Blit) : result Blit :=
  sn <- deref (src_n s) ;;
  let m := GB sn 0 8 in
  let b := RealizeBlendedColour (amem s (anim s)) (cmem s (dst s)) in
  s1 <- (if m =? 0 then
           px <- deref (src_px s) ;;
           let c := if is_crash mode then MakeDark px else px in
           Ok (put_anim (put_dst s (ComposeColourRGBANoCheck (Colour_r c) (Colour_g c)
                                       (Colour_b c) (Colour_a px) b)) 0)
         else
           let r := remap m in
           if r =? 0 then Ok s
           else
             px <- deref (src_px s) ;;
             Ok (put_anim (put_dst s (ComposeColourPANoCheck (LookupColourInPalette r)
                                         (Colour_a px) b)) 0)) ;;
  Ok (move s1 1 1 1 1).

(** BlackRemap *)
Definition black_body (s : Blit) : result Blit :=
  Ok (move (put_dst (move (put_anim s 0) 0 1 0 0) _black_colour) 1 0 1 1).

(** Transparent, src_px->a == 255 *)
Definition transparent_opaque (s : Blit) : result Blit :=
  let d := cmem s (dst s) in
  let b := if amem s (anim s) =? 0 then d else Colour3 (GetColourBrightness d) 0 0 in
  Ok (move (put_dst s (MakeTransparent b 3 4)) 1 1 0 0).

(** Transparent, src_px->a != 255 *)
Definition transparent_blend (s : Blit) : result Blit :=
  let b := RealizeBlendedColour (amem s (anim s)) (cmem s (dst s)) in
  px <- deref (src_px s) ;;
  Ok (move (put_anim (put_dst s (MakeTransparent b (256 * 4 - Colour_a px) (256 * 4))) 0)
           1 1 1 0).

(** TransparentRemap, src_px->a != 0 *)
Definition transparent_remap_body (remap : mem) (s : Blit) : result Blit :=
  let a := amem s (anim s) in
  let s1 := if a =? 0 then
              put_anim (put_dst s (LookupColourInPalette
                                     (remap (GetNearestColourIndex (cmem s (dst s)))))) 0
            else put_anim s (remap a) in
  Ok (move s1 1 1 0 0).

(** default (Normal), src_px->a == 255 *)
Definition normal_opaque (s : Blit) : result Blit :=
  sn <- deref (src_n s) ;;
  let s1 := move (put_anim s (GB sn 0 8)) 0 1 0 0 in
  px <- deref (src_px s1) ;;
  Ok (move (put_dst s1 px) 1 0 1 1).

(** default (Normal), src_px->a != 255 *)
Definition normal_blend (s : Blit) : result Blit :=
  sn <- deref (src_n s) ;;
  let m := GB sn 0 8 in
  let b := RealizeBlendedColour (amem s (anim s)) (cmem s (dst s)) in
  px <- deref (src_px s) ;;
  let s1 := if m =? 0 then
              put_anim (put_dst s (ComposeColourRGBANoCheck (Colour_r px) (Colour_g px)
                                     (Colour_b px) (Colour_a px) b)) 0
            else
              put_anim (put_dst s (ComposeColourPANoCheck (LookupColourInPalette m)
                                     (Colour_a px) b)) m in
  Ok (move s1 1 1 1 1).

(** The statement under the label [draw]: switch (mode) { ... } on a run of
    [n] pixels. *)
Definition draw_run (mode : BlitterMode) (remap : mem) (n : Z) (s : Blit) : result Blit :=
  match mode with
  | ColourRemap | CrashRemap =>
      px <- deref (src_px s) ;;
      if Colour_a px =? 255 then do_while n (remap_opaque mode remap) s
      else do_while n (remap_blend mode remap) s
  | BlackRemap => do_while n black_body s
  | Transparent =>
      let s1 := move s 0 0 0 n in
      px <- deref (src_px s1) ;;
      if Colour_a px =? 255 then do_while n transparent_opaque (move s1 0 0 n 0)
      else do_while n transparent_blend s1
  | TransparentRemap =>
      let s1 := move s 0 0 0 n in
      px <- deref (src_px s1) ;;
      if negb (Colour_a px =? 0) then do_while n (transparent_remap_body remap) (move s1 0 0 n 0)
      else Ok (move s1 n n n 0)
  | _ =>
      px <- deref (src_px s) ;;
      if Colour_a px =? 255 then do_while n normal_opaque s
      else do_while n normal_blend s
  end.

(** while (dst < dst_end) { n = std::min<uint>( *src_n++, (uint)(dst_end - dst)); ... }
    Every turn reads at least one cell of [src_n], and [fuel] starts at the
    number of cells that are left: at 0 the read is past the end. *)
Fixpoint draw_loop (fuel : nat) (mode : BlitterMode) (remap : mem) (dst_end : Z) (s : Blit)
    : result Blit :=
  if dst s <? dst_end then
    match fuel with
    | O => Err OutOfStream
    | S fuel' =>
        sn <- deref (src_n s) ;;
        let n := Z.min (uint sn) (uint (dst_end - dst s)) in
        let s1 := move s 0 0 0 1 in
        px <- deref (src_px s1) ;;
        if Colour_a px =? 0 then
          draw_loop fuel' mode remap dst_end (move s1 n n 1 1)
        else
          s2 <- draw_run mode remap n s1 ;;
          draw_loop fuel' mode remap dst_end s2
    end
  else Ok s.

(** How the loop that skips [skip_left] pixels ends: it runs out
    ([Fallthrough]), or it leaves by [goto draw] with a run of [n] pixels
    already cut at the left edge. *)
Inductive skip_exit : Type :=
| Fallthrough (dst_end : Z) (s : Blit)
| GotoDraw (dst_end n : Z) (s : Blit).

(** while (dst < dst_end) { n = *src_n++; ... }, with [fuel] as above *)
Fixpoint skip_loop (fuel : nat) (bp : BlitterParams) (dst_end : Z) (s : Blit)
    : result skip_exit :=
  if dst s <? dst_end then
    match fuel with
    | O => Err OutOfStream
    | S fuel' =>
        sn <- deref (src_n s) ;;
        let n := uint sn in
        let s1 := move s 0 0 0 1 in
        px <- deref (src_px s1) ;;
        if Colour_a px =? 0 then
          let s2 := move s1 n 0 1 1 in
          let s3 := if dst s2 >? dst_end then move s2 0 (dst s2 - dst_end) 0 0 else s2 in
          skip_loop fuel' bp dst_end s3
        else if dst s1 + n >? dst_end then
          let d := uint (dst_end - dst s1) in
          let s2 := move s1 0 0 d d in
          let s3 := set_dst s2 (dst_end - bp_skip_left bp) in
          Ok (GotoDraw (dst s3 + bp_width bp) (Z.min (uint (n - d)) (uint (bp_width bp))) s3)
        else
          skip_loop fuel' bp dst_end (move s1 n 0 n n)
    end
  else Ok (Fallthrough dst_end s).

(** What follows the loop that skips: either
    dst -= bp->skip_left; dst_end -= bp->skip_left; dst_end += bp->width;
    and the loop that draws from its head, or the loop that draws entered at
    the label [draw]. *)
Definition after_skip (fuel : nat) (mode : BlitterMode) (bp : BlitterParams) (e : skip_exit)
    : result Blit :=
  match e with
  | Fallthrough dst_end s =>
      draw_loop fuel mode (bp_remap bp) (dst_end - bp_skip_left bp + bp_width bp)
                (move s (- bp_skip_left bp) 0 0 0)
  | GotoDraw dst_end n s =>
      s1 <- draw_run mode (bp_remap bp) n s ;;
      draw_loop fuel mode (bp_remap bp) dst_end s1
  end.

(** The body of for (int y = 0; y < bp->height; y++), up to the point where
    the cursors are set to the next line. *)
Definition draw_line (mode : BlitterMode) (bp : BlitterParams) (s : Blit) : result Blit :=
  let dst_ln := dst s + bp_pitch bp in
  let anim_ln := anim s + bp_pitch bp in
  src_px_ln <- next_px_line (src_px s) ;;
  let s1 := move s 0 0 1 0 in
  src_n_ln <- next_n_line (src_n s1) ;;
  let s2 := move s1 0 0 0 2 in
  let dst_end := dst s2 + bp_skip_left bp in
  let fuel := length (src_n s2) in
  e <- skip_loop fuel bp dst_end s2 ;;
  s4 <- after_skip fuel mode bp e ;;
  Ok {| dst := dst_ln; anim := anim_ln; src_px := src_px_ln; src_n := src_n_ln;
        cmem := cmem s4; amem := amem s4 |}.

Fixpoint draw_lines (height : nat) (mode : BlitterMode) (bp : BlitterParams) (s : Blit)
    : result Blit :=
  match height with
  | O => Ok s
  | S height' => s1 <- draw_line mode bp s ;; draw_lines height' mode bp s1
  end.

(** for (uint i = bp->skip_top; i != 0; i--) *)
Fixpoint skip_lines (i : nat) (src_px src_n : list Z) : result (list Z * list Z) :=
  match i with
  | O => Ok (src_px, src_n)
  | S i' =>
      src_px1 <- next_px_line src_px ;;
      src_n1 <- next_n_line src_n ;;
      skip_lines i' src_px1 src_n1
  end.

(** template <BlitterMode mode> Blitter_40bppAnim::Draw(bp, zoom), on the
    colour buffer [cm] and the animation buffer [am], which the caller has
    found to be there. *)
Definition Draw_mode (mode : BlitterMode) (bp : BlitterParams) (zoom : ZoomLevel)
    (cm am : mem) : result (mem * mem) :=
  '(px, n) <- skip_lines (Z.to_nat (uint (bp_skip_top bp)))
                         (bp_sprite_px bp zoom) (bp_sprite_n bp zoom) ;;
  let start := bp_dst bp + bp_top bp * bp_pitch bp + bp_left bp in
  s <- draw_lines (Z.to_nat (bp_height bp)) mode bp
         {| dst := start; anim := start; src_px := px; src_n := n; cmem := cm; amem := am |} ;;
  Ok (cmem s, amem s).

Context {parent : ParentBlitter}.

(** Blitter_40bppAnim::Draw(bp, mode, zoom).  The colour buffer is counted
    from [_screen.dst_ptr], so the assert that this pointer is not null is
    a premise of the embedding. *)
Definition Draw (bp : BlitterParams) (mode : BlitterMode) (zoom : ZoomLevel) (t : Target)
    : result Target :=
  match screen_disable_anim t, anim_buffer t with
  | false, Some am =>
      match mode with
      | OtherMode _ => Err NotReached
      | _ =>
          '(cm1, am1) <- Draw_mode mode bp zoom (screen_mem t) am ;;
          Ok (with_buffers t cm1 (Some am1))
      end
  | _, _ => Ok (with_buffers t (Blitter_32bppOptimized_Draw bp mode zoom t) (anim_buffer t))
  end.

End Draw.

(** ** The fallback of Draw *)

(** The target of the "hypothetical animated draw with all animation bytes
    forced to 0" of the spec: the same screen with animation enabled and
    an animation buffer that holds 0 everywhere. *)
Definition bytes_forced_to_0 (t : Target) : Target :=
  {| screen_disable_anim := false;
     screen_pitch := screen_pitch t;
     screen_width := screen_width t;
     screen_height := screen_height t;
     screen_mem := screen_mem t;
     anim_buffer := Some (fun _ => 0) |}.

(** Modelled from the spec: Blitter_32bppOptimized::Draw, which [Draw] hands
    the call to when there is no animation, is not part of the sources at
    hand.  The spec has it as "a non-animated blitter using the same sprite
    format but writing only the colour buffer", whose "behavior must be
    pixel-identical to a hypothetical animated draw with all animation bytes
    forced to 0 and viewed as static color".  A byte of 0 says that the
    colour of the pixel is final, so the picture is the colour buffer: the
    one that the template [Draw<mode>] leaves over an animation buffer that
    holds 0 everywhere.  Where the template does not return, the model
    leaves the colour buffer as it is. *)
Definition spec_32bppOptimized_Draw {ops : ColourOps} (bp : BlitterParams)
    (mode : BlitterMode) (zoom : ZoomLevel) (t : Target) : mem :=
  match Draw_mode mode bp zoom (screen_mem t) (fun _ => 0) with
  | Ok (cm1, _) => cm1
  | Err _ => screen_mem t
  end.

(** A parent blitter whose [Draw] is the one of the spec; the spec says
    nothing about its [SetPixel] and [DrawRect], which stay those of
    [base]. *)
Definition spec_parent {ops : ColourOps} (base : ParentBlitter) : ParentBlitter :=
  {| Blitter_32bppOptimized_SetPixel := Blitter_32bppOptimized_SetPixel (ParentBlitter := base);
     Blitter_32bppOptimized_DrawRect := Blitter_32bppOptimized_DrawRect (ParentBlitter := base);
     Blitter_32bppOptimized_Draw := spec_32bppOptimized_Draw |}.

(** ** The sprite format

    What the two streams hold, as the comments at the head of [Draw<mode>]
    and the way it walks them have it.  A scanline is a sequence of runs.  A
    run of fully transparent pixels has one placeholder pixel (alpha 0) in
    the pixel stream and, after its length, one record in the other stream;
    a run of [n] visible pixels has [n] pixels and, after its length, [n]
    records.  All pixels of a visible run are in the same alpha class:
    opaque (255) or translucent (1 to 254). *)

Inductive run : Type :=
| Gap (n px m : Z)
| Pixels (l : list (Z * Z)).

Definition run_length (r : run) : Z :=
  match r with
  | Gap n _ _ => n
  | Pixels l => Z.of_nat (length l)
  end.

Definition px_of_run (r : run) : list Z :=
  match r with
  | Gap _ px _ => [px]
  | Pixels l => map fst l
  end.

Definition n_of_run (r : run) : list Z :=
  match r with
  | Gap n _ m => [n; m]
  | Pixels l => Z.of_nat (length l) :: map snd l
  end.

(** the source pixels of a run, column by column; [None] is a column that
    a fully transparent run covers *)
Definition row_of_run (r : run) : list (option (Z * Z)) :=
  match r with
  | Gap n _ _ => repeat None (Z.to_nat n)
  | Pixels l => map Some l
  end.

Definition px_of_runs (rs : list run) : list Z := flat_map px_of_run rs.
Definition n_of_runs (rs : list run) : list Z := flat_map n_of_run rs.
Definition row_of_runs (rs : list run) : list (option (Z * Z)) := flat_map row_of_run rs.

Definition same_class (opaque : bool) (cm : Z * Z) : Prop :=
  Colour_a (fst cm) <> 0 /\ (Colour_a (fst cm) =? 255) = opaque.

Definition valid_run (r : run) : Prop :=
  match r with
  | Gap n px _ => 1 <= n < 2 ^ 16 /\ Colour_a px = 0
  | Pixels l =>
      1 <= Z.of_nat (length l) < 2 ^ 16 /\ exists opaque, Forall (same_class opaque) l
  end.

(** A scanline: its runs, and the cells that pad the second stream up to
    the length its prefix announces. *)
Record scanline : Type := { runs : list run; padding : list Z }.

Definition line_px (ln : scanline) : list Z :=
  4 * (1 + Z.of_nat (length (px_of_runs (runs ln)))) :: px_of_runs (runs ln).

Definition line_n (ln : scanline) : list Z :=
  let len := 2 * (2 + Z.of_nat (length (n_of_runs (runs ln)) + length (padding ln))) in
  len mod 2 ^ 16 :: len / 2 ^ 16 :: n_of_runs (runs ln) ++ padding ln.

Definition encode_px (lines : list scanline) : list Z := flat_map line_px lines.
Definition encode_n (lines : list scanline) : list Z := flat_map line_n lines.

Definition valid_line (sprite_width : Z) (ln : scanline) : Prop :=
  Forall valid_run (runs ln) /\ Z.of_nat (length (row_of_runs (runs ln))) = sprite_width.

(** ** What Draw does to one pixel

    The bodies of the loops of [Draw<mode>], read as functions of the
    source pixel [c], its record [m] in the second stream, and the colour
    [d] and animation byte [a] that the destination holds: the new colour
    and the new animation byte.  [draw_run_spec] below ties the loops to
    them. *)

Section PixelSemantics.
Context {ops : ColourOps}.

Definition blend_pixel (mode : BlitterMode) (remap : mem) (opaque : bool) (c m d a : Z)
    : Z * Z :=
  match mode with
  | ColourRemap | CrashRemap =>
      let c' := if is_crash mode then MakeDark c else c in
      if GB m 0 8 =? 0 then
        if opaque then (c', 0)
        else (ComposeColourRGBANoCheck (Colour_r c') (Colour_g c') (Colour_b c') (Colour_a c)
                (RealizeBlendedColour a d), 0)
      else if remap (GB m 0 8) =? 0 then (d, a)
      else if opaque then (c, remap (GB m 0 8))
      else (ComposeColourPANoCheck (LookupColourInPalette (remap (GB m 0 8))) (Colour_a c)
              (RealizeBlendedColour a d), 0)
  | BlackRemap => (_black_colour, 0)
  | Transparent =>
      if opaque then
        (MakeTransparent (if a =? 0 then d else Colour3 (GetColourBrightness d) 0 0) 3 4, a)
      else (MakeTransparent (RealizeBlendedColour a d) (256 * 4 - Colour_a c) (256 * 4), 0)
  | TransparentRemap =>
      if a =? 0 then (LookupColourInPalette (remap (GetNearestColourIndex d)), 0)
      else (d, remap a)
  | _ =>
      if opaque then (c, GB m 0 8)
      else if GB m 0 8 =? 0 then
        (ComposeColourRGBANoCheck (Colour_r c) (Colour_g c) (Colour_b c) (Colour_a c)
           (RealizeBlendedColour a d), 0)
      else (ComposeColourPANoCheck (LookupColourInPalette (GB m 0 8)) (Colour_a c)
              (RealizeBlendedColour a d), GB m 0 8)
  end.

(** a source pixel of the sprite, or none where a transparent run is *)
Definition blit_pixel (mode : BlitterMode) (remap : mem) (sp : option (Z * Z)) (da : Z * Z)
    : Z * Z :=
  match sp with
  | None => da
  | Some (c, m) => blend_pixel mode remap (Colour_a c =? 255) c m (fst da) (snd da)
  end.

End PixelSemantics.

(** the colour and the animation byte of the pixel at [q] *)
Definition pix (cm am : mem) (q : Z) : Z * Z := (cm q, am q).

Definition row_at (row : list (option (Z * Z))) (i : Z) : option (Z * Z) :=
  if i <? 0 then None else nth (Z.to_nat i) row None.

Definition no_line : scanline := {| runs := []; padding := [] |}.

(** the source pixel in column [x] of line [y] of a sprite *)
Definition sprite_pixel (lines : list scanline) (y x : Z) : option (Z * Z) :=
  row_at (row_of_runs (runs (nth (Z.to_nat y) lines no_line))) x.

(** The pixel at [q] after a draw of the sprite [lines], told without the
    loops: [q] is in line [y], column [x] of the rectangle that starts at
    [bp_dst + bp_top * bp_pitch + bp_left], and gets the pixel in line
    [bp_skip_top + y], column [bp_skip_left + x] of the sprite. *)
Definition drawn_pixel {ops : ColourOps} (mode : BlitterMode) (bp : BlitterParams)
    (lines : list scanline) (cm am : mem) (q : Z) : Z * Z :=
  let start := bp_dst bp + bp_top bp * bp_pitch bp + bp_left bp in
  let y := (q - start) / bp_pitch bp in
  let x := (q - start) mod bp_pitch bp in
  if (0 <=? y) && (y <? bp_height bp) && (x <? bp_width bp) then
    blit_pixel mode (bp_remap bp)
               (sprite_pixel lines (bp_skip_top bp + y) (bp_skip_left bp + x)) (pix cm am q)
  else pix cm am q.

(** A sprite that [bp] can be drawn from at [zoom]: the two streams hold
    the lines of a sprite of [sprite_width] columns, and the rectangle to
    draw lies within the sprite (the invariant of BlitterParams). *)
Record drawable (bp : BlitterParams) (zoom : ZoomLevel) (lines : list scanline)
    (sprite_width : Z) : Prop := {
  drawable_px : exists tail, bp_sprite_px bp zoom = encode_px lines ++ tail;
  drawable_n : exists tail, bp_sprite_n bp zoom = encode_n lines ++ tail;
  drawable_lines : Forall (valid_line sprite_width) lines;
  drawable_top : 0 <= bp_skip_top bp;
  drawable_height : 0 <= bp_height bp;
  drawable_bottom : bp_skip_top bp + bp_height bp <= Z.of_nat (length lines);
  drawable_left : 0 <= bp_skip_left bp;
  drawable_width : 1 <= bp_width bp;
  drawable_right : bp_skip_left bp + bp_width bp <= sprite_width;
  drawable_pitch : bp_width bp <= bp_pitch bp;
  drawable_int : sprite_width < 2 ^ 31 /\ Z.of_nat (length lines) < 2 ^ 31
}.

(** ** Notions that the statements below use *)

(** the modes that the switch of [Draw] knows *)
Definition recognized (mode : BlitterMode) : Prop :=
  match mode with
  | OtherMode _ => False
  | _ => True
  end.

(** where [Draw<mode>] starts in the destination *)
Definition draw_start (bp : BlitterParams) : Z :=
  bp_dst bp + bp_top bp * bp_pitch bp + bp_left bp.

(** The draw of the whole sprite that puts every pixel of the sprite where
    the clipped draw [bp] puts it: nothing is skipped, and the start is
    moved up and left by what [bp] skips. *)
Definition unclipped (bp : BlitterParams) (sprite_width sprite_height : Z) : BlitterParams :=
  {| bp_sprite_px := bp_sprite_px bp; bp_sprite_n := bp_sprite_n bp; bp_remap := bp_remap bp;
     bp_skip_left := 0; bp_skip_top := 0;
     bp_width := sprite_width; bp_height := sprite_height;
     bp_left := bp_left bp - bp_skip_left bp; bp_top := bp_top bp - bp_skip_top bp;
     bp_dst := bp_dst bp; bp_pitch := bp_pitch bp |}.

(** column [x] of the line [rs] is covered by a fully transparent run *)
Definition in_gap (rs : list run) (x : Z) : Prop :=
  exists before n px m after,
    rs = before ++ Gap n px m :: after /\
    Z.of_nat (length (row_of_runs before)) <= x < Z.of_nat (length (row_of_runs before)) + n.

(** [body] draws one pixel: it puts [f c m d a] where the colour was [d]
    and the animation byte [a], and steps on; [cp] and [cn] tell whether it
    takes the pixel [c] and the record [m] off the streams itself. *)
Definition pixel_step (body : Blit -> result Blit) (f : Z -> Z -> Z -> Z -> Z * Z)
    (cp cn : bool) : Prop :=
  forall s c m tpx tn,
    anim s = dst s ->
    (if cp then src_px s = c :: tpx else tpx = src_px s) ->
    (if cn then src_n s = m :: tn else tn = src_n s) ->
    exists s1,
      body s = Ok s1 /\ dst s1 = dst s + 1 /\ anim s1 = dst s1 /\
      src_px s1 = tpx /\ src_n s1 = tn /\
      forall q, pix (cmem s1) (amem s1) q =
                if q =? dst s then f c m (cmem s q) (amem s q) else pix (cmem s) (amem s) q.

Definition nth_px (l : list (Z * Z)) (i : Z) : Z * Z := nth (Z.to_nat i) l (0, 0).

(** [q] lies in one of the [height] rows of [width] cells that start at
    [dst] and follow each other at a distance of [pitch] *)
Definition in_rows (width pitch : Z) (height : nat) (dst q : Z) : Prop :=
  exists k, 0 <= k < Z.of_nat height /\ dst + k * pitch <= q < dst + k * pitch + width.

(** no row of a move reads a cell that a row before it has written *)
Definition reads_clean (width pitch : Z) (height : nat) (src dst : Z) : Prop :=
  forall j k q, 0 <= j < k -> k < Z.of_nat height ->
    dst + k * pitch <= q < dst + k * pitch + width ->
    ~ (dst + j * pitch <= q + (src - dst) < dst + j * pitch + width).

(** ** Sample data

    A palette of greys and a simple colour arithmetic to run the blitter
    on, a parent blitter that draws nothing, and a few small sprites and
    screens.  They serve the examples; no theorem is about them only. *)

Definition sample_ops : ColourOps :=
  {| LookupColourInPalette := fun i => Colour3 i i i;
     RealizeBlendedColour := fun a c => if a =? 0 then c else Colour3 a a a;
     ComposeColourRGBANoCheck := fun r g b a bg =>
       Colour3 ((r * a + Colour_r bg * (256 - a)) / 256)
               ((g * a + Colour_g bg * (256 - a)) / 256)
               ((b * a + Colour_b bg * (256 - a)) / 256);
     ComposeColourPANoCheck := fun c a bg =>
       Colour3 ((Colour_r c * a + Colour_r bg * (256 - a)) / 256)
               ((Colour_g c * a + Colour_g bg * (256 - a)) / 256)
               ((Colour_b c * a + Colour_b bg * (256 - a)) / 256);
     MakeDark := fun c => Colour3 (Colour_r c / 2) (Colour_g c / 2) (Colour_b c / 2);
     MakeTransparent := fun c nom denom =>
       Colour3 (Colour_r c * nom / denom) (Colour_g c * nom / denom)
               (Colour_b c * nom / denom);
     GetColourBrightness := fun c => Z.max (Colour_r c) (Z.max (Colour_g c) (Colour_b c));
     GetNearestColourIndex := fun c => Colour_r c |}.

Definition sample_parent : ParentBlitter :=
  {| Blitter_32bppOptimized_SetPixel := fun _ _ _ _ t => screen_mem t;
     Blitter_32bppOptimized_DrawRect := fun _ _ _ _ t => screen_mem t;
     Blitter_32bppOptimized_Draw := fun _ _ _ t => screen_mem t |}.

(** a screen of 8 x 4 pixels, grey, with no pixel animated *)
Definition sample_screen : Target :=
  {| screen_disable_anim := false; screen_pitch := 8;
     screen_width := 8; screen_height := 4;
     screen_mem := fun _ => Colour3 64 64 64; anim_buffer := Some (fun _ => 0) |}.

(** the same screen when the video driver has no animation buffer *)
Definition sample_screen_no_anim : Target :=
  {| screen_disable_anim := false; screen_pitch := 8;
     screen_width := 8; screen_height := 4;
     screen_mem := fun _ => Colour3 64 64 64; anim_buffer := None |}.

(** the sample screen as a target that is not the screen: animation is
    disabled as a whole *)
Definition sample_screen_disabled : Target :=
  {| screen_disable_anim := true; screen_pitch := 8;
     screen_width := 8; screen_height := 4;
     screen_mem := fun _ => Colour3 64 64 64; anim_buffer := Some (fun _ => 0) |}.

(** a screen of 4 x 4 pixels whose cells all differ *)
Definition scroll_sample : Target :=
  {| screen_disable_anim := false; screen_pitch := 4; screen_width := 4; screen_height := 4;
     screen_mem := fun q => 100 + q; anim_buffer := Some (fun q => q) |}.

Definition red : Z := Colour3 255 0 0.
Definition green : Z := Colour3 0 255 0.
Definition blue : Z := Colour3 0 0 255.
Definition yellow : Z := Colour3 255 255 0.
Definition glass : Z := MakeColour 0 0 255 128.

(** two lines of five pixels: one transparent pixel, then opaque and
    translucent ones, some of them with a class *)
Definition sample_lines : list scanline :=
  [ {| runs := [Gap 1 0 0; Pixels [(red, 0); (green, 5)]; Pixels [(glass, 7); (glass, 0)]];
       padding := [0] |};
    {| runs := [Pixels [(blue, 5); (yellow, 6)]; Gap 2 0 0; Pixels [(glass, 7)]];
       padding := [] |} ].

(** the sample sprite, drawn from its second column on *)
Definition sample_bp : BlitterParams :=
  {| bp_sprite_px := fun _ => encode_px sample_lines;
     bp_sprite_n := fun _ => encode_n sample_lines;
     bp_remap := fun m => if m =? 5 then 0 else m;
     bp_skip_left := 1; bp_skip_top := 0; bp_width := 4; bp_height := 2;
     bp_left := 2; bp_top := 1; bp_dst := 0; bp_pitch := 8 |}.

(** the scenarios of the spec: one line, one opaque run of four pixels,
    all of class [m] *)
Definition four_pixels (m : Z) : list scanline :=
  [ {| runs := [Pixels [(red, m); (green, m); (blue, m); (yellow, m)]]; padding := [] |} ].

Definition four_pixels_bp (m : Z) : BlitterParams :=
  {| bp_sprite_px := fun _ => encode_px (four_pixels m);
     bp_sprite_n := fun _ => encode_n (four_pixels m);
     bp_remap := fun i => if i =? 5 then 0 else i;
     bp_skip_left := 0; bp_skip_top := 0; bp_width := 4; bp_height := 1;
     bp_left := 0; bp_top := 0; bp_dst := 0; bp_pitch := 8 |}.

(** a saved rectangle whose first colour word is 42 *)
Definition sample_saved : mem := fun q => if q =? 0 then 42 else 0.

(** ** DrawLine, DrawColourMappingRect and CopyImageToBuffer

    The three drawing operations of the file that are left.  What they call
    and the sources at hand do not hold is again an interface. *)

(** The methods of the parent class that these three fall back to; as in
    [ParentBlitter], each yields the buffer it writes. *)
Class ParentRest : Type := {
  Blitter_32bppOptimized_DrawLine :
    Z -> Z -> Z -> Z -> Z -> Z -> Z -> PixelColour -> Z -> Z -> Target -> mem;
  Blitter_32bppOptimized_DrawColourMappingRect : Z -> Z -> Z -> Z -> Target -> mem;
  Blitter_32bppOptimized_CopyImageToBuffer : Z -> mem -> Z -> Z -> Z -> Target -> mem
}.

(** Blitter::DrawLineGeneric(x, y, x2, y2, screen_width, screen_height,
    width, dash, set_pixel) of blitter/base.hpp is not part of the sources
    at hand.  It touches the buffers through [set_pixel] only, so it is
    taken as the sequence of the points it calls [set_pixel] with. *)
Class LineRasteriser : Type := {
  DrawLineGeneric : Z -> Z -> Z -> Z -> Z -> Z -> Z -> Z -> list (Z * Z)
}.

(** The two palette ids that [DrawColourMappingRect] tells apart
    (table/sprites.h), the recolour sprite of a palette, byte by byte
    ([GetNonSprite(pal, SpriteType::Recolour)]), and [MakeGrey] of the 32bpp
    base class. *)
Class RecolourTables : Type := {
  PALETTE_TO_TRANSPARENT : Z;
  PALETTE_NEWSPAPER : Z;
  GetNonSprite_Recolour : Z -> mem;
  MakeGrey : Z -> Z
}.

(** the lambda that [DrawLine] hands to [DrawLineGeneric]:
    *((Colour * )video + x + y * _screen.pitch) = _black_colour;
    *(anim + x + y * _screen.pitch) = colour.p;
    the offset is taken where the ints do not overflow *)
Definition DrawLine_set_pixel (pitch video anim : Z) (colour : PixelColour)
    (bufs : mem * mem) (xy : Z * Z) : mem * mem :=
  (store (fst bufs) (video + fst xy + snd xy * pitch) _black_colour,
   store (snd bufs) (anim + fst xy + snd xy * pitch) (p colour)).

Section RestOfTheBlitter.
Context {ops : ColourOps} {rest : ParentRest} {raster : LineRasteriser}
        {tables : RecolourTables}.

Definition DrawLine (video x y x2 y2 screen_width screen_height : Z) (colour : PixelColour)
    (width dash : Z) (t : Target) : result Target :=
  if screen_disable_anim t then
    Ok (with_buffers t
          (Blitter_32bppOptimized_DrawLine video x y x2 y2 screen_width screen_height colour
                                           width dash t)
          (anim_buffer t))
  else
    match anim_buffer t with
    | None => Err AssertFailed
    | Some am =>
        let bufs :=
          fold_left (DrawLine_set_pixel (screen_pitch t) video video colour)
                    (DrawLineGeneric x y x2 y2 screen_width screen_height width dash)
                    (screen_mem t, am) in
        Ok (with_buffers t (fst bufs) (Some (snd bufs)))
    end.

(** The bodies of the three loops of [DrawColourMappingRect], at the
    cursors [udst] and [anim]. *)

(** Colour b = *anim != 0 ? Colour(GetColourBrightness( *udst), 0, 0) : *udst;
    *udst = MakeTransparent(b, 154); *)
Definition mapping_transparent (udst anim : Z) (bufs : mem * mem) : mem * mem :=
  let '(cm, am) := bufs in
  let b := if am anim =? 0 then cm udst else Colour3 (GetColourBrightness (cm udst)) 0 0 in
  (store cm udst (MakeTransparent b 154 256), am).

(** if ( *anim == 0) { *udst = MakeGrey( *udst); } else { *anim = remap[ *anim]; } *)
Definition mapping_newspaper (remap : mem) (udst anim : Z) (bufs : mem * mem) : mem * mem :=
  let '(cm, am) := bufs in
  if am anim =? 0 then (store cm udst (MakeGrey (cm udst)), am)
  else (cm, store am anim (remap (am anim))).

(** if ( *anim != 0) *anim = remap[ *anim]; *)
Definition mapping_recolour (remap : mem) (udst anim : Z) (bufs : mem * mem) : mem * mem :=
  let '(cm, am) := bufs in
  if am anim =? 0 then (cm, am) else (cm, store am anim (remap (am anim))).

(** for (int i = 0; i != width; i++) { body; udst++; anim++; } *)
Fixpoint mapping_row (i : nat) (body : Z -> Z -> mem * mem -> mem * mem) (udst anim : Z)
    (bufs : mem * mem) : mem * mem :=
  match i with
  | O => bufs
  | S i' => mapping_row i' body (udst + 1) (anim + 1) (body udst anim bufs)
  end.

(** do { ...; udst = udst - width + _screen.pitch;
    anim = anim - width + _screen.pitch; } while (--height);
    [rows] is one less than the number of turns; [width] is not negative, so
    that a row leaves the cursors [width] cells on. *)
Fixpoint mapping_rows (rows : nat) (body : Z -> Z -> mem * mem -> mem * mem)
    (pitch width udst anim : Z) (bufs : mem * mem) : mem * mem :=
  let bufs1 := mapping_row (Z.to_nat width) body udst anim bufs in
  match rows with
  | O => bufs1
  | S rows' =>
      mapping_rows rows' body pitch width (udst + width - width + pitch)
                   (anim + width - width + pitch) bufs1
  end.

(** const uint8_t *remap = GetNonSprite(pal, SpriteType::Recolour) + 1; *)
Definition recolour_remap (pal : Z) : mem := fun i => GetNonSprite_Recolour pal (i + 1).

(** In the third loop the source keeps no [udst]; its body does not use
    it.  The source adds the offset of [dst] to the animation buffer before
    anything else, so a null buffer is an error at once. *)
Definition DrawColourMappingRect (dst width height pal : Z) (t : Target) : result Target :=
  if screen_disable_anim t then
    Ok (with_buffers t (Blitter_32bppOptimized_DrawColourMappingRect dst width height pal t)
                     (anim_buffer t))
  else
    match anim_buffer t with
    | None => Err NullPointer
    | Some am =>
        (* i != width is never met from 0 by a negative width, nor
           --height == 0 from a height below 1 *)
        if (width <? 0) || (height <=? 0) then Err NoReturn
        else
          let body :=
            if pal =? PALETTE_TO_TRANSPARENT then mapping_transparent
            else if pal =? PALETTE_NEWSPAPER then mapping_newspaper (recolour_remap pal)
            else mapping_recolour (recolour_remap pal) in
          let bufs :=
            mapping_rows (Z.to_nat (height - 1)) body (screen_pitch t) width dst dst
                         (screen_mem t, am) in
          Ok (with_buffers t (fst bufs) (Some (snd bufs)))
    end.

(** for (int x = 0; x < width; x++)
      udst[x] = this->RealizeBlendedColour(anim_line[x], src[x]).data; *)
Fixpoint CopyImageToBuffer_row (todo : nat) (x : Z) (cm am : mem) (src anim_line : Z)
    (dst : mem) (udst : Z) : mem :=
  match todo with
  | O => dst
  | S todo' =>
      CopyImageToBuffer_row todo' (x + 1) cm am src anim_line
        (store dst (udst + x) (RealizeBlendedColour (am (anim_line + x)) (cm (src + x)))) udst
  end.

(** for (; height > 0; height--) { ...; src += _screen.pitch;
    anim_line += _screen.pitch; udst += dst_pitch; } *)
Fixpoint CopyImageToBuffer_rows (height : nat) (pitch width dst_pitch : Z) (cm am : mem)
    (src anim_line : Z) (dst : mem) (udst : Z) : mem :=
  match height with
  | O => dst
  | S height' =>
      CopyImageToBuffer_rows height' pitch width dst_pitch cm am (src + pitch)
        (anim_line + pitch)
        (CopyImageToBuffer_row (Z.to_nat width) 0 cm am src anim_line dst udst)
        (udst + dst_pitch)
  end.

(** The buffer of the caller is counted in 32-bit cells from [dst]. *)
Definition CopyImageToBuffer (video : Z) (dst : mem) (width height dst_pitch : Z) (t : Target)
    : mem :=
  match anim_buffer t with
  | None => Blitter_32bppOptimized_CopyImageToBuffer video dst width height dst_pitch t
  | Some am =>
      CopyImageToBuffer_rows (Z.to_nat height) (screen_pitch t) width dst_pitch (screen_mem t)
                             am video video dst 0
  end.

End RestOfTheBlitter.

(** a rasteriser for the examples: the line from (x, y) to (x2, y) when
    it lies in one row, and nothing else *)
Definition sample_raster : LineRasteriser :=
  {| DrawLineGeneric := fun x y x2 y2 _ _ _ _ =>
       if y =? y2 then map (fun i => (x + Z.of_nat i, y)) (seq 0 (Z.to_nat (x2 - x + 1)))
       else [] |}.

Definition sample_rest : ParentRest :=
  {| Blitter_32bppOptimized_DrawLine := fun _ _ _ _ _ _ _ _ _ _ t => screen_mem t;
     Blitter_32bppOptimized_DrawColourMappingRect := fun _ _ _ _ t => screen_mem t;
     Blitter_32bppOptimized_CopyImageToBuffer := fun _ dst _ _ _ _ => dst |}.

(** palettes 1 and 2 are the two special ones; every recolour sprite maps
    the index [i] to [i + 1] up to 254 and 255 to 0 *)
Definition sample_tables : RecolourTables :=
  {| PALETTE_TO_TRANSPARENT := 1;
     PALETTE_NEWSPAPER := 2;
     GetNonSprite_Recolour := fun _ i => if i =? 256 then 0 else i;
     MakeGrey := fun c =>
       let v := (Colour_r c + Colour_g c + Colour_b c) / 3 in Colour3 v v v |}.

(** the sample screen with the pixels of its second row animated *)
Definition sample_screen_animated : Target :=
  {| screen_disable_anim := false; screen_pitch := 8;
     screen_width := 8; screen_height := 4;
     screen_mem := fun q => Colour3 q q q;
     anim_buffer := Some (fun q => if (8 <=? q) && (q <? 16) then q else 0) |}.

(** the sample sprite with a recolour table that changes nothing *)
Definition sample_identity_bp : BlitterParams :=
  {| bp_sprite_px := fun _ => encode_px sample_lines;
     bp_sprite_n := fun _ => encode_n sample_lines;
     bp_remap := fun m => m;
     bp_skip_left := 1; bp_skip_top := 0; bp_width := 4; bp_height := 2;
     bp_left := 2; bp_top := 1; bp_dst := 0; bp_pitch := 8 |}.

(** * Properties *)

(** ** Memory and machine integers *)

Lemma store_eq (m : mem) (q v : Z) : store m q v q = v.
Proof. unfold store. now rewrite Z.eqb_refl. Qed.

Lemma store_neq (m : mem) (q v q' : Z) : q' <> q -> store m q v q' = m q'.
Proof. intros H. unfold store. now apply Z.eqb_neq in H as ->. Qed.

Lemma store_same (m : mem) (q q' : Z) : store m q (m q) q' = m q'.
Proof. unfold store. destruct (Z.eqb_spec q' q); congruence. Qed.

Lemma uint_small (x : Z) : 0 <= x < 2 ^ 32 -> uint x = x.
Proof. intros H. unfold uint. now apply Z.mod_small. Qed.

Lemma size_t_small (x : Z) : 0 <= x < 2 ^ 64 -> size_t x = x.
Proof. intros H. unfold size_t. now apply Z.mod_small. Qed.

Lemma black_is_black :
  Colour_r _black_colour = 0 /\ Colour_g _black_colour = 0 /\
  Colour_b _black_colour = 0 /\ Colour_a _black_colour = 255.
Proof. repeat split; reflexivity. Qed.

(** ** SetPixel and DrawRect *)

Section PixelFacts.
Context {parent : ParentBlitter}.

Lemma DrawRect_row_spec (colour : PixelColour) (i : nat) :
  forall dst anim cm am q,
    fst (DrawRect_row i dst anim colour cm am) q =
      (if (dst <=? q) && (q <? dst + Z.of_nat i) then _black_colour else cm q) /\
    snd (DrawRect_row i dst anim colour cm am) q =
      (if (anim <=? q) && (q <? anim + Z.of_nat i) then p colour else am q).
Proof.
  induction i as [|i IH]; intros dst anim cm am q.
  - cbn [DrawRect_row fst snd]. split.
    + destruct (Z.leb_spec dst q), (Z.ltb_spec q (dst + Z.of_nat 0)); cbn; trivial; lia.
    + destruct (Z.leb_spec anim q), (Z.ltb_spec q (anim + Z.of_nat 0)); cbn; trivial; lia.
  - cbn [DrawRect_row]. destruct (IH (dst + 1) (anim + 1)
      (store cm dst _black_colour) (store am anim (p colour)) q) as [-> ->].
    unfold store. split.
    + destruct (Z.leb_spec (dst + 1) q), (Z.ltb_spec q (dst + 1 + Z.of_nat i)),
        (Z.leb_spec dst q), (Z.ltb_spec q (dst + Z.of_nat (S i))), (Z.eqb_spec q dst);
        cbn; trivial; lia.
    + destruct (Z.leb_spec (anim + 1) q), (Z.ltb_spec q (anim + 1 + Z.of_nat i)),
        (Z.leb_spec anim q), (Z.ltb_spec q (anim + Z.of_nat (S i))), (Z.eqb_spec q anim);
        cbn; trivial; lia.
Qed.

Lemma DrawRect_rows_spec (colour : PixelColour) (pitch width : Z) (rows : nat) :
  forall video anim_line cm am,
    let r := DrawRect_rows rows pitch video anim_line width colour cm am in
    (forall q, fst r q = _black_colour \/ fst r q = cm q) /\
    (forall q, snd r q = p colour \/ snd r q = am q) /\
    (forall j i, 0 <= j <= Z.of_nat rows -> 0 <= i < width ->
       fst r (video + i + j * pitch) = _black_colour /\
       snd r (anim_line + i + j * pitch) = p colour).
Proof.
  induction rows as [|rows IH]; intros video anim_line cm am; cbn [DrawRect_rows].
  - destruct (DrawRect_row (Z.to_nat width) video anim_line colour cm am) as [cm1 am1] eqn:E.
    assert (H := fun q => DrawRect_row_spec colour (Z.to_nat width) video anim_line cm am q).
    rewrite E in H. cbn [fst snd] in *. repeat split.
    + intros q. destruct (H q) as [-> _].
      destruct ((video <=? q) && (q <? video + Z.of_nat (Z.to_nat width))); auto.
    + intros q. destruct (H q) as [_ ->].
      destruct ((anim_line <=? q) && (q <? anim_line + Z.of_nat (Z.to_nat width))); auto.
    + destruct (H (video + i + j * pitch)) as [-> _].
      assert (j = 0) as -> by lia.
      destruct (Z.leb_spec video (video + i + 0 * pitch)),
        (Z.ltb_spec (video + i + 0 * pitch) (video + Z.of_nat (Z.to_nat width)));
        cbn; trivial; lia.
    + destruct (H (anim_line + i + j * pitch)) as [_ ->].
      assert (j = 0) as -> by lia.
      destruct (Z.leb_spec anim_line (anim_line + i + 0 * pitch)),
        (Z.ltb_spec (anim_line + i + 0 * pitch) (anim_line + Z.of_nat (Z.to_nat width)));
        cbn; trivial; lia.
  - destruct (DrawRect_row (Z.to_nat width) video anim_line colour cm am) as [cm1 am1] eqn:E.
    assert (H := fun q => DrawRect_row_spec colour (Z.to_nat width) video anim_line cm am q).
    rewrite E in H. cbn [fst snd] in H.
    specialize (IH (video + pitch) (anim_line + pitch) cm1 am1).
    cbv zeta in IH. destruct IH as (IHc & IHa & IHin).
    set (r := DrawRect_rows rows pitch (video + pitch) (anim_line + pitch) width colour cm1 am1)
      in *.
    assert (Hc : forall q, fst r q = _black_colour \/ fst r q = cm q).
    { intros q. destruct (IHc q) as [->| ->]; auto. destruct (H q) as [-> _].
      destruct ((video <=? q) && (q <? video + Z.of_nat (Z.to_nat width))); auto. }
    assert (Ha : forall q, snd r q = p colour \/ snd r q = am q).
    { intros q. destruct (IHa q) as [->| ->]; auto. destruct (H q) as [_ ->].
      destruct ((anim_line <=? q) && (q <? anim_line + Z.of_nat (Z.to_nat width))); auto. }
    repeat split; trivial.
    + destruct (Z.eq_dec j 0) as [->|Hj].
      * destruct (IHc (video + i + 0 * pitch)) as [->| ->]; trivial.
        destruct (H (video + i + 0 * pitch)) as [-> _].
        destruct (Z.leb_spec video (video + i + 0 * pitch)),
          (Z.ltb_spec (video + i + 0 * pitch) (video + Z.of_nat (Z.to_nat width)));
          cbn; trivial; lia.
      * replace (video + i + j * pitch) with (video + pitch + i + (j - 1) * pitch) by lia.
        apply IHin; lia.
    + destruct (Z.eq_dec j 0) as [->|Hj].
      * destruct (IHa (anim_line + i + 0 * pitch)) as [->| ->]; trivial.
        destruct (H (anim_line + i + 0 * pitch)) as [_ ->].
        destruct (Z.leb_spec anim_line (anim_line + i + 0 * pitch)),
          (Z.ltb_spec (anim_line + i + 0 * pitch) (anim_line + Z.of_nat (Z.to_nat width)));
          cbn; trivial; lia.
      * replace (anim_line + i + j * pitch) with (anim_line + pitch + i + (j - 1) * pitch) by lia.
        apply IHin; lia.
Qed.

(** C10.  With animation enabled, [SetPixel] and [DrawRect] do not put the
    colour they are given into the colour buffer: every pixel they cover
    gets the black of [_black_colour] (red, green and blue 0) in the colour
    buffer and the palette index [colour.p] in the animation buffer, at the
    same offset. *)
Theorem SetPixel_DrawRect_black_and_index (t : Target) (am : mem) (colour : PixelColour) :
  screen_disable_anim t = false ->
  anim_buffer t = Some am ->
  0 <= screen_pitch t < 2 ^ 31 ->
  (forall video x y, 0 <= y < 2 ^ 31 ->
     exists t' am',
       SetPixel video x y colour t = Ok t' /\ anim_buffer t' = Some am' /\
       screen_mem t' (video + x + y * screen_pitch t) = _black_colour /\
       am' (video + x + y * screen_pitch t) = p colour) /\
  (forall video width height, 1 <= height ->
     exists t' am',
       DrawRect video width height colour t = Ok t' /\ anim_buffer t' = Some am' /\
       forall i j, 0 <= i < width -> 0 <= j < height ->
         screen_mem t' (video + i + j * screen_pitch t) = _black_colour /\
         am' (video + i + j * screen_pitch t) = p colour) /\
  Colour_r _black_colour = 0 /\ Colour_g _black_colour = 0 /\ Colour_b _black_colour = 0.
Proof.
  intros Hen Ham Hp. split; [|split].
  - intros video x y Hy. unfold SetPixel. rewrite Hen, Ham.
    assert (Hoff : size_t (size_t y * size_t (screen_pitch t)) = y * screen_pitch t).
    { rewrite (size_t_small y), (size_t_small (screen_pitch t)) by lia.
      apply size_t_small. nia. }
    rewrite Hoff. eexists _, _. split; [reflexivity|]. cbn. repeat split.
    + apply store_eq.
    + apply store_eq.
  - intros video width height Hh. unfold DrawRect. rewrite Hen, Ham.
    destruct (Z.leb_spec height 0) as [|_]; [lia|].
    destruct (DrawRect_rows_spec colour (screen_pitch t) width (Z.to_nat (height - 1))
                video video (screen_mem t) am) as (_ & _ & Hin).
    destruct (DrawRect_rows (Z.to_nat (height - 1)) (screen_pitch t) video video width colour
                (screen_mem t) am) as [cm1 am1].
    exists (with_buffers t cm1 (Some am1)), am1. split; [reflexivity|]. split; [reflexivity|].
    intros i j Hi Hj. cbn [with_buffers screen_mem]. apply (Hin j i); lia.
  - repeat split; reflexivity.
Qed.

End PixelFacts.

(** ** The mode switch of Draw *)

Section DrawFacts.
Context {ops : ColourOps} {parent : ParentBlitter}.

(** C8.  With animation enabled, [Draw] runs the template of the mode it is
    given when that mode is one of Normal, ColourRemap, Transparent,
    TransparentRemap, CrashRemap and BlackRemap, and for every other value
    of the mode it ends in NOT_REACHED: no other mode is drawn as if it
    were one of the six. *)
Theorem Draw_dispatch (bp : BlitterParams) (mode : BlitterMode) (zoom : ZoomLevel)
    (t : Target) (am : mem) :
  screen_disable_anim t = false ->
  anim_buffer t = Some am ->
  match mode with
  | OtherMode _ => Draw bp mode zoom t = Err NotReached
  | _ =>
      Draw bp mode zoom t =
        ('(cm1, am1) <- Draw_mode mode bp zoom (screen_mem t) am ;;
         Ok (with_buffers t cm1 (Some am1)))
  end.
Proof.
  intros Hen Ham. unfold Draw. rewrite Hen, Ham. destruct mode; reflexivity.
Qed.

(** Without animation [Draw] is the parent's [Draw]. *)
Lemma Draw_delegates (bp : BlitterParams) (mode : BlitterMode) (zoom : ZoomLevel) (t : Target) :
  screen_disable_anim t = true \/ anim_buffer t = None ->
  Draw bp mode zoom t =
    Ok (with_buffers t (Blitter_32bppOptimized_Draw bp mode zoom t) (anim_buffer t)).
Proof.
  intros [H|H]; unfold Draw; rewrite H; [reflexivity|].
  destruct (screen_disable_anim t); reflexivity.
Qed.

End DrawFacts.

(** ** Capture and restore *)

Lemma load32_store32 (m : mem) (q w : Z) : load32 (store32 m q w) q = w mod 2 ^ 32.
Proof.
  unfold load32, store32.
  rewrite store_neq, store_neq, store_neq, store_eq by lia.
  rewrite store_neq, store_neq, store_eq by lia.
  rewrite store_neq, store_eq by lia.
  rewrite store_eq.
  change (2 ^ 8) with 256. change (2 ^ 16) with (256 * 256).
  change (2 ^ 24) with (256 * 256 * 256). change (2 ^ 32) with (256 * (256 * (256 * 256))).
  rewrite <- !Z.div_div by lia.
  rewrite (Z.rem_mul_r w 256 (256 * (256 * 256))) by lia.
  rewrite (Z.rem_mul_r (w / 256) 256 (256 * 256)) by lia.
  rewrite (Z.rem_mul_r (w / 256 / 256) 256 256) by lia.
  lia.
Qed.

Lemma store32_frame (m : mem) (q w q' : Z) :
  ~ (q <= q' < q + 4) -> store32 m q w q' = m q'.
Proof. intros H. unfold store32. now rewrite !store_neq by lia. Qed.

Lemma load32_ext (m m' : mem) (q : Z) :
  (forall q', q <= q' < q + 4 -> m' q' = m q') -> load32 m' q = load32 m q.
Proof. intros H. unfold load32. now rewrite !H by lia. Qed.

Lemma copy_n_cells_out_frame (from : mem) (n : nat) :
  forall src to dst q,
    ~ (dst <= q < dst + 4 * Z.of_nat n) -> copy_n_cells_out n from src to dst q = to q.
Proof.
  induction n as [|n IH]; intros src to dst q Hq; cbn [copy_n_cells_out]; trivial.
  rewrite IH by lia. apply store32_frame. lia.
Qed.

Lemma copy_n_cells_out_spec (from : mem) (n : nat) :
  forall src to dst i,
    0 <= i < Z.of_nat n ->
    load32 (copy_n_cells_out n from src to dst) (dst + 4 * i) = from (src + i) mod 2 ^ 32.
Proof.
  induction n as [|n IH]; intros src to dst i Hi; [lia|]. cbn [copy_n_cells_out].
  destruct (Z.eq_dec i 0) as [->|Hi0].
  - rewrite (load32_ext (store32 to dst (from src))).
    + rewrite Z.mul_0_r, !Z.add_0_r. apply load32_store32.
    + intros q' Hq'. apply copy_n_cells_out_frame. lia.
  - replace (dst + 4 * i) with (dst + 4 + 4 * (i - 1)) by lia.
    rewrite IH by lia. f_equal. f_equal. lia.
Qed.

Lemma copy_n_bytes_spec (from : mem) (n : nat) :
  forall src to dst q,
    copy_n_bytes n from src to dst q =
      if (dst <=? q) && (q <? dst + Z.of_nat n) then from (src + (q - dst)) else to q.
Proof.
  induction n as [|n IH]; intros src to dst q; cbn [copy_n_bytes].
  - destruct (Z.leb_spec dst q), (Z.ltb_spec q (dst + Z.of_nat 0)); cbn; trivial; lia.
  - rewrite IH. unfold store.
    destruct (Z.leb_spec (dst + 1) q), (Z.ltb_spec q (dst + 1 + Z.of_nat n)),
      (Z.leb_spec dst q), (Z.ltb_spec q (dst + Z.of_nat (S n))), (Z.eqb_spec q dst);
      cbn; try lia; trivial; f_equal; lia.
Qed.

Lemma copy_n_cells_in_spec (from : mem) (n : nat) :
  forall src to dst q,
    copy_n_cells_in n from src to dst q =
      if (dst <=? q) && (q <? dst + Z.of_nat n) then load32 from (src + 4 * (q - dst))
      else to q.
Proof.
  induction n as [|n IH]; intros src to dst q; cbn [copy_n_cells_in].
  - destruct (Z.leb_spec dst q), (Z.ltb_spec q (dst + Z.of_nat 0)); cbn; trivial; lia.
  - rewrite IH. unfold store.
    destruct (Z.leb_spec (dst + 1) q), (Z.ltb_spec q (dst + 1 + Z.of_nat n)),
      (Z.leb_spec dst q), (Z.ltb_spec q (dst + Z.of_nat (S n))), (Z.eqb_spec q dst);
      cbn [andb]; try lia; trivial; f_equal; lia.
Qed.

Section CopyFacts.
Variables (pitch width : Z).
Hypothesis width_nonneg : 0 <= width.

Lemma CopyToBuffer_rows_spec (cm am : mem) (height : nat) :
  forall src anim_line dst udst,
    let r := CopyToBuffer_rows height pitch width cm am src anim_line dst udst in
    (forall q, ~ (udst <= q < udst + 5 * width * Z.of_nat height) -> r q = dst q) /\
    (forall k i, 0 <= k < Z.of_nat height -> 0 <= i < width ->
       load32 r (udst + 5 * width * k + 4 * i) = cm (src + k * pitch + i) mod 2 ^ 32 /\
       r (udst + 5 * width * k + 4 * width + i) = am (anim_line + k * pitch + i)).
Proof.
  induction height as [|height IH]; intros src anim_line dst udst; cbn [CopyToBuffer_rows].
  - cbv zeta. split; [trivial|]. intros k i Hk. lia.
  - cbv zeta.
    set (dst1 := copy_n_cells_out (Z.to_nat width) cm src dst udst).
    set (dst2 := copy_n_bytes (Z.to_nat width) am anim_line dst1 (udst + 4 * width)).
    destruct (IH (src + pitch) (anim_line + pitch) dst2 (udst + 4 * width + width))
      as [IHf IHc].
    set (r := CopyToBuffer_rows height pitch width cm am (src + pitch) (anim_line + pitch)
                dst2 (udst + 4 * width + width)) in *.
    assert (Hdst2 : forall q, ~ (udst + 4 * width <= q < udst + 5 * width) -> dst2 q = dst1 q).
    { intros q Hq. unfold dst2. rewrite copy_n_bytes_spec, Z2Nat.id by lia.
      destruct (Z.leb_spec (udst + 4 * width) q),
        (Z.ltb_spec q (udst + 4 * width + width)); cbn [andb]; trivial; lia. }
    assert (Hdst1 : forall q, ~ (udst <= q < udst + 4 * width) -> dst1 q = dst q).
    { intros q Hq. unfold dst1. apply copy_n_cells_out_frame. rewrite Z2Nat.id; lia. }
    split.
    + intros q Hq. rewrite IHf by nia. rewrite Hdst2, Hdst1 by nia. trivial.
    + intros k i Hk Hi. destruct (Z.eq_dec k 0) as [->|Hk0].
      * rewrite !Z.mul_0_r, !Z.mul_0_l, !Z.add_0_r. split.
        -- rewrite (load32_ext dst1).
           ++ unfold dst1. apply copy_n_cells_out_spec. rewrite Z2Nat.id; lia.
           ++ intros q' Hq'. rewrite IHf by nia. apply Hdst2. lia.
        -- rewrite IHf by nia. unfold dst2.
           rewrite copy_n_bytes_spec, Z2Nat.id by lia.
           destruct (Z.leb_spec (udst + 4 * width) (udst + 4 * width + i)),
             (Z.ltb_spec (udst + 4 * width + i) (udst + 4 * width + width));
             cbn [andb]; try lia. f_equal. lia.
      * destruct (IHc (k - 1) i ltac:(lia) Hi) as [Hc Ha].
        replace (udst + 4 * width + width + 5 * width * (k - 1) + 4 * i)
          with (udst + 5 * width * k + 4 * i) in Hc by ring.
        replace (udst + 4 * width + width + 5 * width * (k - 1) + 4 * width + i)
          with (udst + 5 * width * k + 4 * width + i) in Ha by ring.
        replace (src + pitch + (k - 1) * pitch + i) with (src + k * pitch + i) in Hc by ring.
        replace (anim_line + pitch + (k - 1) * pitch + i)
          with (anim_line + k * pitch + i) in Ha by ring.
        now split.
Qed.

(** What a restore does when the buffer holds the cells [cm0] and the
    animation bytes [am0] of the rectangle: the cells of the rectangle get
    those, and every other cell stays. *)
Lemma CopyFromBuffer_rows_spec (src cm0 am0 : mem) (height : nat) :
  forall usrc dst anim_line cm am,
    (forall k i, 0 <= k < Z.of_nat height -> 0 <= i < width ->
       load32 src (usrc + 5 * width * k + 4 * i) = cm0 (dst + k * pitch + i) /\
       src (usrc + 5 * width * k + 4 * width + i) = am0 (anim_line + k * pitch + i)) ->
    let r := CopyFromBuffer_rows height pitch width src usrc dst anim_line cm am in
    (forall q, (fst r q = cm0 q \/ fst r q = cm q) /\ (snd r q = am0 q \/ snd r q = am q)) /\
    (forall k i, 0 <= k < Z.of_nat height -> 0 <= i < width ->
       fst r (dst + k * pitch + i) = cm0 (dst + k * pitch + i) /\
       snd r (anim_line + k * pitch + i) = am0 (anim_line + k * pitch + i)) /\
    (forall q, (forall k i, 0 <= k < Z.of_nat height -> 0 <= i < width ->
                  q <> dst + k * pitch + i) -> fst r q = cm q) /\
    (forall q, (forall k i, 0 <= k < Z.of_nat height -> 0 <= i < width ->
                  q <> anim_line + k * pitch + i) -> snd r q = am q).
Proof.
  induction height as [|height IH]; intros usrc dst anim_line cm am Hsrc;
    cbn [CopyFromBuffer_rows]; cbv zeta.
  - cbn [fst snd]. repeat split; auto. all: intros; lia.
  - set (cm1 := copy_n_cells_in (Z.to_nat width) src usrc cm dst).
    set (am1 := copy_n_bytes (Z.to_nat width) src (usrc + 4 * width) am anim_line).
    assert (Hcm1 : forall q, cm1 q =
              if (dst <=? q) && (q <? dst + width) then cm0 q else cm q).
    { intros q. unfold cm1. rewrite copy_n_cells_in_spec, Z2Nat.id by lia.
      destruct (Z.leb_spec dst q), (Z.ltb_spec q (dst + width)); cbn [andb]; trivial.
      destruct (Hsrc 0 (q - dst) ltac:(lia) ltac:(lia)) as [Hc _].
      rewrite Z.mul_0_r, Z.add_0_r in Hc. rewrite Hc. f_equal. lia. }
    assert (Ham1 : forall q, am1 q =
              if (anim_line <=? q) && (q <? anim_line + width) then am0 q else am q).
    { intros q. unfold am1. rewrite copy_n_bytes_spec, Z2Nat.id by lia.
      destruct (Z.leb_spec anim_line q), (Z.ltb_spec q (anim_line + width));
        cbn [andb]; trivial.
      destruct (Hsrc 0 (q - anim_line) ltac:(lia) ltac:(lia)) as [_ Ha].
      rewrite Z.mul_0_r, Z.add_0_r in Ha.
      rewrite Ha. f_equal. lia. }
    destruct (IH (usrc + 4 * width + width) (dst + pitch) (anim_line + pitch) cm1 am1)
      as (IHor & IHin & IHc & IHa).
    { intros k i Hk Hi. destruct (Hsrc (k + 1) i ltac:(lia) Hi) as [Hc Ha].
      replace (usrc + 4 * width + width + 5 * width * k + 4 * i)
        with (usrc + 5 * width * (k + 1) + 4 * i) by ring.
      replace (usrc + 4 * width + width + 5 * width * k + 4 * width + i)
        with (usrc + 5 * width * (k + 1) + 4 * width + i) by ring.
      replace (dst + pitch + k * pitch + i) with (dst + (k + 1) * pitch + i) by ring.
      replace (anim_line + pitch + k * pitch + i)
        with (anim_line + (k + 1) * pitch + i) by ring.
      now split. }
    set (r := CopyFromBuffer_rows height pitch width src (usrc + 4 * width + width)
                (dst + pitch) (anim_line + pitch) cm1 am1) in *.
    assert (Hor : forall q, (fst r q = cm0 q \/ fst r q = cm q) /\
                            (snd r q = am0 q \/ snd r q = am q)).
    { intros q. destruct (IHor q) as [Hc Ha]. split.
      - destruct Hc as [->| ->]; auto. rewrite Hcm1.
        destruct ((dst <=? q) && (q <? dst + width)); auto.
      - destruct Ha as [->| ->]; auto. rewrite Ham1.
        destruct ((anim_line <=? q) && (q <? anim_line + width)); auto. }
    split; [exact Hor|]. split; [|split].
    + intros k i Hk Hi. destruct (Z.eq_dec k 0) as [->|Hk0].
      * rewrite !Z.mul_0_l, !Z.add_0_r. split.
        -- destruct (IHor (dst + i)) as [[->| ->] _]; trivial. rewrite Hcm1.
           destruct (Z.leb_spec dst (dst + i)), (Z.ltb_spec (dst + i) (dst + width));
             cbn [andb]; trivial; lia.
        -- destruct (IHor (anim_line + i)) as [_ [->| ->]]; trivial. rewrite Ham1.
           destruct (Z.leb_spec anim_line (anim_line + i)),
             (Z.ltb_spec (anim_line + i) (anim_line + width)); cbn [andb]; trivial; lia.
      * destruct (IHin (k - 1) i ltac:(lia) Hi) as [Hc Ha].
        replace (dst + pitch + (k - 1) * pitch + i) with (dst + k * pitch + i) in Hc by ring.
        replace (anim_line + pitch + (k - 1) * pitch + i)
          with (anim_line + k * pitch + i) in Ha by ring.
        now split.
    + intros q Hq. rewrite IHc.
      * rewrite Hcm1. destruct (Z.leb_spec dst q), (Z.ltb_spec q (dst + width));
          cbn [andb]; trivial.
        exfalso. apply (Hq 0 (q - dst)); lia.
      * intros k i Hk Hi. replace (dst + pitch + k * pitch + i)
          with (dst + (k + 1) * pitch + i) by ring. apply Hq; lia.
    + intros q Hq. rewrite IHa.
      * rewrite Ham1. destruct (Z.leb_spec anim_line q), (Z.ltb_spec q (anim_line + width));
          cbn [andb]; trivial.
        exfalso. apply (Hq 0 (q - anim_line)); lia.
      * intros k i Hk Hi. replace (anim_line + pitch + k * pitch + i)
          with (anim_line + (k + 1) * pitch + i) by ring. apply Hq; lia.
Qed.

End CopyFacts.

(** C2.  A capture of a rectangle by [CopyToBuffer], followed by a restore
    of what was captured by [CopyFromBuffer] at the same place, leaves every
    cell of the colour buffer and every byte of the animation buffer as it
    was before the capture. *)
Theorem capture_then_restore_is_identity (t : Target) (video width height : Z) (dst : mem) :
  screen_disable_anim t = false ->
  video_in_screen t video = true ->
  0 <= width ->
  (forall k i, 0 <= k < height -> 0 <= i < width ->
     0 <= screen_mem t (video + k * screen_pitch t + i) < 2 ^ 32) ->
  exists buf t',
    CopyToBuffer video dst width height t = Ok buf /\
    CopyFromBuffer video buf width height t = Ok t' /\
    (forall q, screen_mem t' q = screen_mem t q) /\
    match anim_buffer t with
    | None => anim_buffer t' = None
    | Some am => exists am', anim_buffer t' = Some am' /\ forall q, am' q = am q
    end.
Proof.
  intros Hen Hv Hw Hty. unfold CopyToBuffer, CopyFromBuffer. rewrite Hen, Hv.
  cbn [negb assert bind]. destruct (anim_buffer t) as [am|] eqn:Ham.
  - destruct (CopyToBuffer_rows_spec (screen_pitch t) width Hw (screen_mem t) am
                (Z.to_nat height) video video dst 0) as [_ Hcap].
    set (buf := CopyToBuffer_rows (Z.to_nat height) (screen_pitch t) width (screen_mem t) am
                  video video dst 0) in *.
    exists buf.
    destruct (CopyFromBuffer_rows_spec (screen_pitch t) width Hw buf (screen_mem t) am
                (Z.to_nat height) 0 video video (screen_mem t) am) as (Hor & _).
    { intros k i Hk Hi. destruct (Hcap k i Hk Hi) as [Hc Ha]. split; trivial.
      rewrite Hc. apply Z.mod_small. apply Hty; lia. }
    destruct (CopyFromBuffer_rows (Z.to_nat height) (screen_pitch t) width buf 0 video video
                (screen_mem t) am) as [cm1 am1].
    cbn [fst snd] in Hor. eexists. split; [reflexivity|]. split; [reflexivity|].
    cbn [with_buffers screen_mem anim_buffer]. split.
    + intros q. destruct (Hor q) as [[H|H] _]; exact H.
    + exists am1. split; trivial. intros q. destruct (Hor q) as [_ [H|H]]; exact H.
  - exists dst, t. rewrite Ham. auto.
Qed.

(** The use the pair is made for: what is drawn over the rectangle after
    the capture is undone by the restore, cell by cell, and nothing outside
    the rectangle is touched. *)
Lemma CopyFromBuffer_restores (t t2 : Target) (am am2 : mem) (video width height : Z)
    (dst buf : mem) :
  screen_disable_anim t = false -> screen_disable_anim t2 = false ->
  video_in_screen t video = true -> video_in_screen t2 video = true ->
  screen_pitch t2 = screen_pitch t ->
  anim_buffer t = Some am -> anim_buffer t2 = Some am2 ->
  0 <= width ->
  (forall k i, 0 <= k < height -> 0 <= i < width ->
     0 <= screen_mem t (video + k * screen_pitch t + i) < 2 ^ 32) ->
  CopyToBuffer video dst width height t = Ok buf ->
  exists t3 am3,
    CopyFromBuffer video buf width height t2 = Ok t3 /\ anim_buffer t3 = Some am3 /\
    (forall k i, 0 <= k < height -> 0 <= i < width ->
       let q := video + k * screen_pitch t + i in
       screen_mem t3 q = screen_mem t q /\ am3 q = am q) /\
    (forall q, (forall k i, 0 <= k < height -> 0 <= i < width ->
                  q <> video + k * screen_pitch t + i) ->
       screen_mem t3 q = screen_mem t2 q /\ am3 q = am2 q).
Proof.
  intros Hen Hen2 Hv Hv2 Hp Ham Ham2 Hw Hty Hcap.
  unfold CopyToBuffer in Hcap. rewrite Hen, Hv, Ham in Hcap. cbn [negb assert bind] in Hcap.
  injection Hcap as <-.
  unfold CopyFromBuffer. rewrite Hen2, Hv2, Ham2, Hp. cbn [negb assert bind].
  destruct (CopyToBuffer_rows_spec (screen_pitch t) width Hw (screen_mem t) am
              (Z.to_nat height) video video dst 0) as [_ Hc].
  set (buf := CopyToBuffer_rows (Z.to_nat height) (screen_pitch t) width (screen_mem t) am
                video video dst 0) in *.
  destruct (CopyFromBuffer_rows_spec (screen_pitch t) width Hw buf (screen_mem t) am
              (Z.to_nat height) 0 video video (screen_mem t2) am2) as (_ & Hin & Hoc & Hoa).
  { intros k i Hk Hi. destruct (Hc k i Hk Hi) as [Hc1 Ha1]. split; trivial.
    rewrite Hc1. apply Z.mod_small. apply Hty; lia. }
  destruct (CopyFromBuffer_rows (Z.to_nat height) (screen_pitch t) width buf 0 video video
              (screen_mem t2) am2) as [cm3 am3].
  cbn [fst snd] in *. eexists _, am3. split; [reflexivity|]. split; [reflexivity|].
  cbn [with_buffers screen_mem]. split.
  - intros k i Hk Hi. apply Hin; lia.
  - intros q Hq. split; [apply Hoc | apply Hoa]; intros k i Hk Hi; apply Hq; lia.
Qed.

(** ** BufferSize *)

(** C9, as the code has it.  [BufferSize] is not the size of a width x
    height region of the animation buffer: it is the size of the buffer that
    [CopyToBuffer] fills for such a region, (4 + 1) * width * height, four
    bytes of colour and one animation byte for every pixel, and
    [CopyToBuffer] writes no byte outside of it. *)
Theorem BufferSize_is_capture_size (width height : Z) :
  0 <= width < 2 ^ 32 -> 0 <= height < 2 ^ 32 ->
  (4 + 1) * width * height < 2 ^ 64 ->
  BufferSize width height = 4 * (width * height) + 1 * (width * height) /\
  forall t video dst buf,
    CopyToBuffer video dst width height t = Ok buf ->
    forall q, ~ (0 <= q < BufferSize width height) -> buf q = dst q.
Proof.
  intros Hw Hh Hsz.
  assert (Hb : BufferSize width height = 5 * width * height).
  { unfold BufferSize. rewrite !uint_small by lia. change (4 + 1) with 5.
    rewrite (size_t_small (5 * width)) by lia. apply size_t_small. nia. }
  split; [rewrite Hb; ring|].
  intros t video dst buf Hcap q Hq. unfold CopyToBuffer in Hcap.
  destruct (screen_disable_anim t); [discriminate|].
  destruct (video_in_screen t video); [|discriminate]. cbn [negb assert bind] in Hcap.
  destruct (anim_buffer t) as [am|]; injection Hcap as <-; trivial.
  apply (CopyToBuffer_rows_spec (screen_pitch t) width ltac:(lia)).
  rewrite Z2Nat.id by lia. rewrite Hb in Hq. lia.
Qed.

(** ** Scrolling *)

Section MoveFacts.
Variables (width pitch : Z).

Lemma in_rows_dec (height : nat) :
  forall dst q, in_rows width pitch height dst q \/ ~ in_rows width pitch height dst q.
Proof.
  induction height as [|height IH]; intros dst q.
  - right. intros (k & Hk & _). lia.
  - destruct (IH (dst + pitch) q) as [(k & Hk & Hq)|Hno].
    + left. exists (k + 1). split; [lia|].
      replace (dst + (k + 1) * pitch) with (dst + pitch + k * pitch) by ring. exact Hq.
    + destruct (Z_le_dec dst q) as [H1|H1]; [destruct (Z_lt_dec q (dst + width)) as [H2|H2]|].
      * left. exists 0. split; lia.
      * right. intros (k & Hk & Hq). destruct (Z.eq_dec k 0) as [->|Hk0]; [lia|].
        apply Hno. exists (k - 1). split; [lia|].
        replace (dst + pitch + (k - 1) * pitch) with (dst + k * pitch) by ring. exact Hq.
      * right. intros (k & Hk & Hq). destruct (Z.eq_dec k 0) as [->|Hk0]; [lia|].
        apply Hno. exists (k - 1). split; [lia|].
        replace (dst + pitch + (k - 1) * pitch) with (dst + k * pitch) by ring. exact Hq.
Qed.

Lemma MovePixels_rows_spec (height : nat) :
  forall m src dst q,
    reads_clean width pitch height src dst ->
    (in_rows width pitch height dst q ->
       MovePixels_rows height m src dst width pitch q = m (q + (src - dst))) /\
    (~ in_rows width pitch height dst q -> MovePixels_rows height m src dst width pitch q = m q).
Proof.
  induction height as [|height IH]; intros m src dst q Hclean; cbn [MovePixels_rows].
  - split; trivial. intros (k & Hk & _). lia.
  - assert (Hclean' : reads_clean width pitch height (src + pitch) (dst + pitch)).
    { intros j k q' Hj Hk Hq'.
      replace (src + pitch - (dst + pitch)) with (src - dst) by ring.
      replace (dst + pitch + j * pitch) with (dst + (j + 1) * pitch) by ring.
      replace (dst + pitch + k * pitch) with (dst + (k + 1) * pitch) in Hq' by ring.
      apply (Hclean (j + 1) (k + 1) q'); lia. }
    destruct (IH (move_row m src dst width) (src + pitch) (dst + pitch) q Hclean')
      as [IHin IHout].
    replace (src + pitch - (dst + pitch)) with (src - dst) in IHin by ring.
    assert (Hrow : forall q', move_row m src dst width q' =
              if (dst <=? q') && (q' <? dst + width) then m (q' + (src - dst)) else m q').
    { intros q'. unfold move_row. destruct ((dst <=? q') && (q' <? dst + width)); trivial.
      f_equal. ring. }
    destruct (in_rows_dec height (dst + pitch) q) as [Hin|Hout].
    + rewrite (IHin Hin). split; [|intros Hno]. 
      * intros _. rewrite Hrow. destruct Hin as (k & Hk & Hq).
        destruct (Z.leb_spec dst (q + (src - dst))),
          (Z.ltb_spec (q + (src - dst)) (dst + width)); cbn [andb]; trivial.
        exfalso. apply (Hclean 0 (k + 1) q); lia.
      * exfalso. apply Hno. destruct Hin as (k & Hk & Hq). exists (k + 1). split; [lia|].
        replace (dst + (k + 1) * pitch) with (dst + pitch + k * pitch) by ring. exact Hq.
    + rewrite (IHout Hout), Hrow. split.
      * intros (k & Hk & Hq). destruct (Z.eq_dec k 0) as [->|Hk0].
        -- destruct (Z.leb_spec dst q), (Z.ltb_spec q (dst + width)); cbn [andb]; trivial; lia.
        -- exfalso. apply Hout. exists (k - 1). split; [lia|].
           replace (dst + pitch + (k - 1) * pitch) with (dst + k * pitch) by ring. exact Hq.
      * intros Hno. destruct (Z.leb_spec dst q), (Z.ltb_spec q (dst + width));
          cbn [andb]; trivial.
        exfalso. apply Hno. exists 0. split; lia.
Qed.

End MoveFacts.

(** The move of the window that [scroll_window] computes from [base]: a
    pixel of the rectangle whose source pixel lies in the rectangle too gets
    what the source pixel held. *)
Lemma scroll_window_moves (base pitch left top width height scroll_x scroll_y : Z) (m : mem) :
  0 < width <= pitch -> width < 2 ^ 32 -> 0 < height < 2 ^ 32 ->
  - width < scroll_x < width -> - height < scroll_y < height ->
  forall x y,
    0 <= x < width -> 0 <= y < height ->
    0 <= x - scroll_x < width -> 0 <= y - scroll_y < height ->
    (let '(src, dst, tw, th, step) :=
       scroll_window base pitch left top width height scroll_x scroll_y in
     MovePixels m src dst tw th step) (base + left + x + (top + y) * pitch) =
    m (base + left + (x - scroll_x) + (top + y - scroll_y) * pitch).
Proof.
  intros Hw Hw32 Hh Hsx Hsy x y Hx Hy Hxs Hys. unfold scroll_window.
  set (adj := if scroll_x >=? 0 then - scroll_x else scroll_x).
  assert (Hadj : adj = - Z.abs scroll_x) by (unfold adj; destruct (Z.geb_spec scroll_x 0); lia).
  assert (Htw : uint (width + adj) = width - Z.abs scroll_x) by (rewrite uint_small; lia).
  destruct (Z.gtb_spec scroll_y 0) as [Hpos|Hneg].
  - rewrite Htw, (uint_small (height - scroll_y)) by lia. unfold MovePixels.
    set (dst0 := base + left + (top + height - 1) * pitch).
    set (dst := if scroll_x >=? 0 then dst0 + scroll_x else dst0).
    set (src := if scroll_x >=? 0 then dst0 - scroll_y * pitch
                else dst0 - scroll_y * pitch - scroll_x).
    assert (Hd : src - dst = - scroll_y * pitch - scroll_x)
      by (unfold src, dst; destruct (Z.geb_spec scroll_x 0); lia).
    assert (Hdst : dst = dst0 + Z.max scroll_x 0)
      by (unfold dst; destruct (Z.geb_spec scroll_x 0); lia).
    destruct (MovePixels_rows_spec (width - Z.abs scroll_x) (- pitch)
                (Z.to_nat (height - scroll_y)) m src dst
                (base + left + x + (top + y) * pitch)) as [Hin _].
    + intros j k q Hj Hk Hq. rewrite Z2Nat.id in Hk by lia. rewrite Hd. nia.
    + rewrite Hin.
      * f_equal. rewrite Hd. ring.
      * exists (height - 1 - y). rewrite Z2Nat.id by lia. split; [lia|].
        rewrite Hdst. unfold dst0. nia.
  - rewrite Htw, (uint_small (height + scroll_y)) by lia. unfold MovePixels.
    set (dst0 := base + left + top * pitch).
    set (dst := if scroll_x >=? 0 then dst0 + scroll_x else dst0).
    set (src := if scroll_x >=? 0 then dst0 - scroll_y * pitch
                else dst0 - scroll_y * pitch - scroll_x).
    assert (Hd : src - dst = - scroll_y * pitch - scroll_x)
      by (unfold src, dst; destruct (Z.geb_spec scroll_x 0); lia).
    assert (Hdst : dst = dst0 + Z.max scroll_x 0)
      by (unfold dst; destruct (Z.geb_spec scroll_x 0); lia).
    destruct (MovePixels_rows_spec (width - Z.abs scroll_x) pitch
                (Z.to_nat (height + scroll_y)) m src dst
                (base + left + x + (top + y) * pitch)) as [Hin _].
    + intros j k q Hj Hk Hq. rewrite Z2Nat.id in Hk by lia. rewrite Hd. nia.
    + rewrite Hin.
      * f_equal. rewrite Hd. ring.
      * exists y. rewrite Z2Nat.id by lia. split; [lia|].
        rewrite Hdst. unfold dst0. nia.
Qed.

(** ** Draw: the loops over the pixels of a run *)

Lemma advance_0 (l : list Z) : advance 0 l = l.
Proof. reflexivity. Qed.

Lemma advance_1_cons (x : Z) (l : list Z) : advance 1 (x :: l) = l.
Proof. reflexivity. Qed.

Lemma advance_app (l r : list Z) : advance (Z.of_nat (length l)) (l ++ r) = r.
Proof.
  unfold advance. rewrite Nat2Z.id. induction l as [|x l IH]; cbn; trivial.
Qed.

Lemma advance_app_part (k : Z) (l r : list Z) :
  0 <= k <= Z.of_nat (length l) -> advance k (l ++ r) = skipn (Z.to_nat k) l ++ r.
Proof.
  intros Hk. unfold advance. rewrite skipn_app.
  replace (Z.to_nat k - length l)%nat with 0%nat by lia. reflexivity.
Qed.

Lemma pix_eq (cm am cm' am' : mem) (q : Z) :
  pix cm am q = pix cm' am' q <-> cm q = cm' q /\ am q = am' q.
Proof. unfold pix. split; [intros [= -> ->]; now split | intros [-> ->]; reflexivity]. Qed.


Lemma do_times_pixels (body : Blit -> result Blit) (f : Z -> Z -> Z -> Z -> Z * Z)
    (cp cn : bool) :
  pixel_step body f cp cn ->
  forall (l : list (Z * Z)) s tpx tn,
    anim s = dst s ->
    (if cp then src_px s = map fst l ++ tpx else tpx = src_px s) ->
    (if cn then src_n s = map snd l ++ tn else tn = src_n s) ->
    exists s',
      do_times (length l) body s = Ok s' /\
      dst s' = dst s + Z.of_nat (length l) /\ anim s' = dst s' /\
      src_px s' = tpx /\ src_n s' = tn /\
      forall q, pix (cmem s') (amem s') q =
                if (dst s <=? q) && (q <? dst s + Z.of_nat (length l))
                then f (fst (nth_px l (q - dst s))) (snd (nth_px l (q - dst s)))
                       (cmem s q) (amem s q)
                else pix (cmem s) (amem s) q.
Proof.
  intros Hstep l. induction l as [|[c m] l IH]; intros s tpx tn Hsync Hpx Hn.
  - exists s. cbn [do_times length]. repeat split.
    + lia.
    + rewrite Hsync. lia.
    + destruct cp; cbn in Hpx; congruence.
    + destruct cn; cbn in Hn; congruence.
    + intros q. destruct (Z.leb_spec (dst s) q), (Z.ltb_spec q (dst s + Z.of_nat 0));
        cbn [andb]; trivial; lia.
  - destruct (Hstep s c m (if cp then map fst l ++ tpx else src_px s)
                (if cn then map snd l ++ tn else src_n s) Hsync)
      as (s1 & Hb & Hd1 & Ha1 & Hpx1 & Hn1 & Hm1).
    { destruct cp; trivial. }
    { destruct cn; trivial. }
    destruct (IH s1 tpx tn) as (s' & Hrun & Hd' & Ha' & Hpx' & Hn' & Hm').
    { congruence. }
    { rewrite Hpx1. destruct cp; congruence. }
    { rewrite Hn1. destruct cn; congruence. }
    exists s'. cbn [do_times length]. rewrite Hb. cbn [bind]. repeat split; trivial.
    + lia.
    + intros q. rewrite Hm'. rewrite Hd1. unfold nth_px.
      destruct (Z.leb_spec (dst s + 1) q), (Z.ltb_spec q (dst s + 1 + Z.of_nat (length l))),
        (Z.leb_spec (dst s) q), (Z.ltb_spec q (dst s + Z.of_nat (S (length l))));
        cbn [andb]; try lia.
      * assert (Hq1 := Hm1 q). destruct (Z.eqb_spec q (dst s)); [lia|].
        apply pix_eq in Hq1 as [-> ->].
        replace (Z.to_nat (q - dst s)) with (S (Z.to_nat (q - (dst s + 1)))) by lia.
        reflexivity.
      * rewrite Hm1. destruct (Z.eqb_spec q (dst s)); [lia|]. reflexivity.
      * rewrite Hm1. destruct (Z.eqb_spec q (dst s)); [|lia]. subst q.
        rewrite Z.sub_diag. reflexivity.
      * rewrite Hm1. destruct (Z.eqb_spec q (dst s)); [lia|]. reflexivity.
Qed.

Ltac blit_simpl :=
  unfold move, put_dst, put_anim, set_dst;
  cbn [dst anim src_px src_n cmem amem bind deref];
  repeat match goal with
         | H : src_px _ = _ :: _ |- _ => rewrite H
         | H : src_n _ = _ :: _ |- _ => rewrite H
         end;
  cbn [bind deref];
  rewrite ?advance_0, ?advance_1_cons, ?Z.add_0_r.

Ltac step_start :=
  unfold pixel_step; intros s c m tpx tn Hsync Hpx Hn; cbn beta iota in Hpx, Hn;
  try subst tpx; try subst tn.

Ltac step_mem :=
  let q := fresh "q" in
  intros q; unfold pix, store;
  repeat match goal with H : anim _ = dst _ |- _ => rewrite H end;
  match goal with |- context [q =? ?d] => destruct (Z.eqb_spec q d) end;
  subst; cbn [blend_pixel];
  repeat match goal with E : (_ =? _) = _ |- _ => rewrite E end;
  reflexivity.

Ltac step_finish :=
  eexists; split; [reflexivity|]; blit_simpl;
  repeat match goal with |- _ /\ _ => split end;
  first [ reflexivity | lia | step_mem ].

Section RunFacts.
Context {ops : ColourOps}.
Variable remap : mem.

Lemma normal_opaque_step : pixel_step normal_opaque (blend_pixel Normal remap true) true true.
Proof.
  step_start. unfold normal_opaque. blit_simpl.
  step_finish.
Qed.

Lemma normal_blend_step : pixel_step normal_blend (blend_pixel Normal remap false) true true.
Proof.
  step_start. unfold normal_blend. blit_simpl. cbn [blend_pixel].
  rewrite Hsync.
  destruct (GB m 0 8 =? 0); step_finish.
Qed.

Lemma black_body_step : pixel_step black_body (blend_pixel BlackRemap remap true) true true.
Proof.
  step_start. unfold black_body. blit_simpl. step_finish.
Qed.

Lemma transparent_opaque_step :
  pixel_step transparent_opaque (blend_pixel Transparent remap true) false false.
Proof.
  step_start. unfold transparent_opaque. blit_simpl. step_finish.
Qed.

Lemma transparent_blend_step :
  pixel_step transparent_blend (blend_pixel Transparent remap false) true false.
Proof.
  step_start. unfold transparent_blend. blit_simpl. step_finish.
Qed.

Lemma transparent_remap_step opaque :
  pixel_step (transparent_remap_body remap) (blend_pixel TransparentRemap remap opaque)
             false false.
Proof.
  step_start. unfold transparent_remap_body. cbn [blend_pixel]. rewrite Hsync.
  destruct (amem s (dst s) =? 0) eqn:E; blit_simpl; step_finish.
Qed.

Lemma remap_opaque_step mode :
  mode = ColourRemap \/ mode = CrashRemap ->
  pixel_step (remap_opaque mode remap) (blend_pixel mode remap true) true true.
Proof.
  intros Hmode. step_start. unfold remap_opaque. blit_simpl.
  destruct (GB m 0 8 =? 0) eqn:E1; [|destruct (remap (GB m 0 8) =? 0) eqn:E2];
    blit_simpl; destruct Hmode as [-> | ->]; step_finish.
Qed.

Lemma remap_blend_step mode :
  mode = ColourRemap \/ mode = CrashRemap ->
  pixel_step (remap_blend mode remap) (blend_pixel mode remap false) true true.
Proof.
  intros Hmode. step_start. unfold remap_blend. blit_simpl.
  destruct (GB m 0 8 =? 0) eqn:E1; [|destruct (remap (GB m 0 8) =? 0) eqn:E2];
    blit_simpl; destruct Hmode as [-> | ->]; step_finish.
Qed.

Lemma do_while_pixels (body : Blit -> result Blit) (f : Z -> Z -> Z -> Z -> Z * Z)
    (cp cn : bool) :
  pixel_step body f cp cn ->
  forall (l : list (Z * Z)) s tpx tn,
    l <> [] ->
    anim s = dst s ->
    (if cp then src_px s = map fst l ++ tpx else tpx = src_px s) ->
    (if cn then src_n s = map snd l ++ tn else tn = src_n s) ->
    exists s',
      do_while (Z.of_nat (length l)) body s = Ok s' /\
      dst s' = dst s + Z.of_nat (length l) /\ anim s' = dst s' /\
      src_px s' = tpx /\ src_n s' = tn /\
      forall q, pix (cmem s') (amem s') q =
                if (dst s <=? q) && (q <? dst s + Z.of_nat (length l))
                then f (fst (nth_px l (q - dst s))) (snd (nth_px l (q - dst s)))
                       (cmem s q) (amem s q)
                else pix (cmem s) (amem s) q.
Proof.
  intros Hstep l s tpx tn Hl. unfold do_while.
  destruct (Z.eqb_spec (Z.of_nat (length l)) 0) as [H0|_].
  - destruct l; [congruence | cbn in H0; lia].
  - rewrite Nat2Z.id. now apply do_times_pixels.
Qed.

Lemma row_at_pixels (l : list (Z * Z)) (i : Z) :
  0 <= i < Z.of_nat (length l) -> row_at (map Some l) i = Some (nth_px l i).
Proof.
  intros Hi. unfold row_at, nth_px. destruct (Z.ltb_spec i 0); [lia|].
  rewrite (nth_indep _ None (Some (0, 0))) by (rewrite length_map; lia).
  apply map_nth.
Qed.

Lemma same_class_nth (opaque : bool) (l : list (Z * Z)) (i : Z) :
  Forall (same_class opaque) l -> 0 <= i < Z.of_nat (length l) ->
  same_class opaque (nth_px l i).
Proof.
  intros Hall Hi. rewrite Forall_forall in Hall. apply Hall. unfold nth_px.
  apply nth_In. lia.
Qed.

(** The switch on a run: [l] is the part of the run that is drawn, [l2]
    the part that is cut off at the right edge. *)
Lemma draw_run_spec (mode : BlitterMode) (opaque : bool) (l l2 : list (Z * Z)) (s : Blit)
    (tpx tn : list Z) :
  l <> [] ->
  Forall (same_class opaque) l ->
  anim s = dst s ->
  src_px s = map fst l ++ map fst l2 ++ tpx ->
  src_n s = map snd l ++ map snd l2 ++ tn ->
  exists s',
    draw_run mode remap (Z.of_nat (length l)) s = Ok s' /\
    dst s' = dst s + Z.of_nat (length l) /\ anim s' = dst s' /\
    src_px s' = map fst l2 ++ tpx /\ src_n s' = map snd l2 ++ tn /\
    forall q, pix (cmem s') (amem s') q =
              if (dst s <=? q) && (q <? dst s + Z.of_nat (length l))
              then blit_pixel mode remap (row_at (map Some l) (q - dst s))
                              (pix (cmem s) (amem s) q)
              else pix (cmem s) (amem s) q.
Proof.
  intros Hl Hall Hsync Hpx Hn.
  assert (Hconv : forall f s',
    (forall q, pix (cmem s') (amem s') q =
               if (dst s <=? q) && (q <? dst s + Z.of_nat (length l))
               then f (fst (nth_px l (q - dst s))) (snd (nth_px l (q - dst s)))
                      (cmem s q) (amem s q)
               else pix (cmem s) (amem s) q) ->
    (forall c m d a, f c m d a = blend_pixel mode remap opaque c m d a) ->
    forall q, pix (cmem s') (amem s') q =
              if (dst s <=? q) && (q <? dst s + Z.of_nat (length l))
              then blit_pixel mode remap (row_at (map Some l) (q - dst s))
                              (pix (cmem s) (amem s) q)
              else pix (cmem s) (amem s) q).
  { intros f s' Hm Hf q. rewrite Hm.
    destruct (Z.leb_spec (dst s) q), (Z.ltb_spec q (dst s + Z.of_nat (length l)));
      cbn [andb]; trivial.
    rewrite row_at_pixels by lia.
    destruct (same_class_nth opaque l (q - dst s) Hall ltac:(lia)) as [_ Hcls].
    destruct (nth_px l (q - dst s)) as [c m]. cbn [fst snd] in *.
    unfold blit_pixel. rewrite Hcls. apply Hf. }
  destruct l as [|[c0 m0] l'] eqn:El; [congruence|]. rewrite <- El in *.
  assert (Hhead : src_px s = c0 :: map fst l' ++ map fst l2 ++ tpx)
    by (rewrite Hpx, El; reflexivity).
  assert (Hcls0 : Colour_a c0 <> 0 /\ (Colour_a c0 =? 255) = opaque).
  { rewrite El in Hall. inversion Hall as [|? ? H0 _]. exact H0. }
  destruct Hcls0 as [Hne Hcls].
  assert (Hlen : advance (Z.of_nat (length l)) (src_n s) = map snd l2 ++ tn).
  { rewrite Hn. rewrite <- (length_map snd l). apply advance_app. }
  assert (Hlenp : advance (Z.of_nat (length l)) (src_px s) = map fst l2 ++ tpx).
  { rewrite Hpx. rewrite <- (length_map fst l). apply advance_app. }
  assert (Hl' : l <> []) by (rewrite El; discriminate).
  unfold draw_run.
  destruct mode.
  - (* Normal *)
    rewrite Hhead. cbn [deref bind]. rewrite Hcls. destruct opaque.
    + destruct (do_while_pixels _ _ _ _ normal_opaque_step l s _ _ Hl' Hsync Hpx Hn)
        as (s' & Hrun & Hd & Ha & Hp' & Hn' & Hm).
      exists s'. repeat split; trivial. apply (Hconv _ _ Hm). reflexivity.
    + destruct (do_while_pixels _ _ _ _ normal_blend_step l s _ _ Hl' Hsync Hpx Hn)
        as (s' & Hrun & Hd & Ha & Hp' & Hn' & Hm).
      exists s'. repeat split; trivial. apply (Hconv _ _ Hm). reflexivity.
  - (* ColourRemap *)
    rewrite Hhead. cbn [deref bind]. rewrite Hcls. destruct opaque.
    + destruct (do_while_pixels _ _ _ _ (remap_opaque_step ColourRemap (or_introl eq_refl))
                  l s _ _ Hl' Hsync Hpx Hn) as (s' & Hrun & Hd & Ha & Hp' & Hn' & Hm).
      exists s'. repeat split; trivial. apply (Hconv _ _ Hm). reflexivity.
    + destruct (do_while_pixels _ _ _ _ (remap_blend_step ColourRemap (or_introl eq_refl))
                  l s _ _ Hl' Hsync Hpx Hn) as (s' & Hrun & Hd & Ha & Hp' & Hn' & Hm).
      exists s'. repeat split; trivial. apply (Hconv _ _ Hm). reflexivity.
  - (* Transparent *)
    change (src_px (move s 0 0 0 (Z.of_nat (length l)))) with (src_px s).
    rewrite Hhead. cbn [deref bind].
    rewrite Hcls. destruct opaque.
    + destruct (do_while_pixels _ _ false false transparent_opaque_step l
                  (move (move s 0 0 0 (Z.of_nat (length l))) 0 0 (Z.of_nat (length l)) 0)
                  (map fst l2 ++ tpx) (map snd l2 ++ tn) Hl')
        as (s' & Hrun & Hd & Ha & Hp' & Hn' & Hm).
      { cbn. lia. }
      { cbn [move src_px]. rewrite advance_0. now rewrite Hlenp. }
      { cbn [move src_n]. rewrite advance_0. now rewrite Hlen. }
      cbn [move dst cmem amem] in Hd, Hm. rewrite !Z.add_0_r in Hd, Hm.
      exists s'. repeat split; trivial. apply (Hconv _ _ Hm). reflexivity.
    + destruct (do_while_pixels _ _ true false transparent_blend_step l
                  (move s 0 0 0 (Z.of_nat (length l)))
                  (map fst l2 ++ tpx) (map snd l2 ++ tn) Hl')
        as (s' & Hrun & Hd & Ha & Hp' & Hn' & Hm).
      { cbn. lia. }
      { cbn [move src_px]. now rewrite advance_0. }
      { cbn [move src_n]. now rewrite Hlen. }
      cbn [move dst cmem amem] in Hd, Hm. rewrite !Z.add_0_r in Hd, Hm.
      exists s'. repeat split; trivial. apply (Hconv _ _ Hm). reflexivity.
  - (* TransparentRemap *)
    change (src_px (move s 0 0 0 (Z.of_nat (length l)))) with (src_px s).
    rewrite Hhead. cbn [deref bind].
    destruct (Z.eqb_spec (Colour_a c0) 0) as [|_]; [contradiction|]. cbn [negb].
    destruct (do_while_pixels _ _ false false (transparent_remap_step opaque) l
                (move (move s 0 0 0 (Z.of_nat (length l))) 0 0 (Z.of_nat (length l)) 0)
                (map fst l2 ++ tpx) (map snd l2 ++ tn) Hl')
      as (s' & Hrun & Hd & Ha & Hp' & Hn' & Hm).
    { cbn. lia. }
    { cbn [move src_px]. rewrite advance_0. now rewrite Hlenp. }
    { cbn [move src_n]. rewrite advance_0. now rewrite Hlen. }
    cbn [move dst cmem amem] in Hd, Hm. rewrite !Z.add_0_r in Hd, Hm.
    exists s'. repeat split; trivial. apply (Hconv _ _ Hm). reflexivity.
  - (* CrashRemap *)
    rewrite Hhead. cbn [deref bind]. rewrite Hcls. destruct opaque.
    + destruct (do_while_pixels _ _ _ _ (remap_opaque_step CrashRemap (or_intror eq_refl))
                  l s _ _ Hl' Hsync Hpx Hn) as (s' & Hrun & Hd & Ha & Hp' & Hn' & Hm).
      exists s'. repeat split; trivial. apply (Hconv _ _ Hm). reflexivity.
    + destruct (do_while_pixels _ _ _ _ (remap_blend_step CrashRemap (or_intror eq_refl))
                  l s _ _ Hl' Hsync Hpx Hn) as (s' & Hrun & Hd & Ha & Hp' & Hn' & Hm).
      exists s'. repeat split; trivial. apply (Hconv _ _ Hm). reflexivity.
  - (* BlackRemap *)
    destruct (do_while_pixels _ _ _ _ black_body_step l s _ _ Hl' Hsync Hpx Hn)
      as (s' & Hrun & Hd & Ha & Hp' & Hn' & Hm).
    exists s'. repeat split; trivial. apply (Hconv _ _ Hm). reflexivity.
  - (* any other mode takes the default label *)
    rewrite Hhead. cbn [deref bind]. rewrite Hcls. destruct opaque.
    + destruct (do_while_pixels _ _ _ _ normal_opaque_step l s _ _ Hl' Hsync Hpx Hn)
        as (s' & Hrun & Hd & Ha & Hp' & Hn' & Hm).
      exists s'. repeat split; trivial. apply (Hconv _ _ Hm). reflexivity.
    + destruct (do_while_pixels _ _ _ _ normal_blend_step l s _ _ Hl' Hsync Hpx Hn)
        as (s' & Hrun & Hd & Ha & Hp' & Hn' & Hm).
      exists s'. repeat split; trivial. apply (Hconv _ _ Hm). reflexivity.
Qed.
End RunFacts.

(** ** Draw: the loops over the runs of a scanline *)

Lemma row_at_nil (i : Z) : row_at [] i = None.
Proof. unfold row_at. destruct (i <? 0); trivial. now destruct (Z.to_nat i). Qed.

Lemma row_at_app_l (l1 l2 : list (option (Z * Z))) (i : Z) :
  i < Z.of_nat (length l1) -> row_at (l1 ++ l2) i = row_at l1 i.
Proof.
  intros Hi. unfold row_at. destruct (Z.ltb_spec i 0); trivial. apply app_nth1. lia.
Qed.

Lemma row_at_app_r (l1 l2 : list (option (Z * Z))) (i : Z) :
  Z.of_nat (length l1) <= i -> row_at (l1 ++ l2) i = row_at l2 (i - Z.of_nat (length l1)).
Proof.
  intros Hi. unfold row_at.
  destruct (Z.ltb_spec i 0), (Z.ltb_spec (i - Z.of_nat (length l1)) 0); try lia.
  rewrite app_nth2 by lia. f_equal. lia.
Qed.

Lemma row_at_repeat_None (n : nat) (i : Z) : row_at (repeat None n) i = None.
Proof.
  unfold row_at. destruct (i <? 0); trivial.
  destruct (Nat.lt_ge_cases (Z.to_nat i) n) as [H|H].
  - now rewrite nth_repeat_lt.
  - apply nth_overflow. now rewrite repeat_length.
Qed.

Lemma row_at_below (row : list (option (Z * Z))) (i : Z) : i < 0 -> row_at row i = None.
Proof. intros Hi. unfold row_at. destruct (Z.ltb_spec i 0); trivial; lia. Qed.

Lemma row_of_run_length (r : run) :
  valid_run r -> Z.of_nat (length (row_of_run r)) = run_length r.
Proof.
  destruct r as [n px m|l]; cbn [row_of_run run_length valid_run].
  - intros [Hn _]. rewrite repeat_length. lia.
  - intros _. now rewrite length_map.
Qed.

Lemma split_at (A : Type) (l : list A) (k : Z) :
  0 <= k <= Z.of_nat (length l) ->
  exists la lb, l = la ++ lb /\ Z.of_nat (length la) = k.
Proof.
  intros Hk. exists (firstn (Z.to_nat k) l), (skipn (Z.to_nat k) l). split.
  - symmetry. apply firstn_skipn.
  - rewrite length_firstn. lia.
Qed.

Lemma draw_loop_done {ops : ColourOps} fuel mode remap dst_end s :
  dst_end <= dst s -> draw_loop fuel mode remap dst_end s = Ok s.
Proof.
  intros H. destruct fuel; cbn [draw_loop]; destruct (Z.ltb_spec (dst s) dst_end); trivial; lia.
Qed.

Section LoopFacts.
Context {ops : ColourOps}.
Variables (mode : BlitterMode) (remap : mem).

Lemma draw_loop_spec (rs : list run) :
  forall fuel s dst_end tpx tn,
    Forall valid_run rs ->
    anim s = dst s ->
    src_px s = px_of_runs rs ++ tpx ->
    src_n s = n_of_runs rs ++ tn ->
    dst_end - dst s <= Z.of_nat (length (row_of_runs rs)) ->
    dst_end - dst s < 2 ^ 32 ->
    (length rs <= fuel)%nat ->
    exists s',
      draw_loop fuel mode remap dst_end s = Ok s' /\
      forall q, pix (cmem s') (amem s') q =
                if (dst s <=? q) && (q <? dst_end)
                then blit_pixel mode remap (row_at (row_of_runs rs) (q - dst s))
                                (pix (cmem s) (amem s) q)
                else pix (cmem s) (amem s) q.
Proof.
  induction rs as [|r rs IH]; intros fuel s dst_end tpx tn Hval Hsync Hpx Hn Hfit H32 Hfuel.
  - cbn in Hfit. exists s. split; [apply draw_loop_done; lia|].
    intros q. destruct (Z.leb_spec (dst s) q), (Z.ltb_spec q dst_end); cbn [andb]; trivial; lia.
  - destruct (Z_le_gt_dec dst_end (dst s)) as [Hdone|Hgo].
    { exists s. split; [now apply draw_loop_done|].
      intros q. destruct (Z.leb_spec (dst s) q), (Z.ltb_spec q dst_end);
        cbn [andb]; trivial; lia. }
    destruct fuel as [|fuel]; [cbn in Hfuel; lia|].
    inversion Hval as [|? ? Hr Hrs]; subst.
    cbn [px_of_runs n_of_runs row_of_runs flat_map] in *.
    fold (px_of_runs rs) in *. fold (n_of_runs rs) in *. fold (row_of_runs rs) in *.
    rewrite length_app in Hfit.
    cbn [draw_loop]. destruct (Z.ltb_spec (dst s) dst_end) as [_|]; [|lia].
    destruct r as [n px m|l]; cbn [px_of_run n_of_run row_of_run valid_run] in *.
    + (* a transparent run *)
      destruct Hr as [Hn16 Ha0]. rewrite repeat_length in Hfit.
      cbn [app] in Hpx, Hn. rewrite Hn. cbn [deref bind].
      change (src_px (move s 0 0 0 1)) with (src_px s). rewrite Hpx. cbn [deref bind].
      rewrite Ha0. cbn [Z.eqb].
      rewrite !uint_small by lia.
      set (nn := Z.min n (dst_end - dst s)).
      set (s2 := move (move s 0 0 0 1) nn nn 1 1).
      destruct (IH fuel s2 dst_end tpx tn) as (s' & Hrun & Hm); trivial.
      * unfold s2. cbn. lia.
      * unfold s2. cbn [move src_px]. now rewrite advance_0, Hpx.
      * unfold s2. cbn [move src_n]. now rewrite Hn.
      * unfold s2. cbn [move dst]. lia.
      * unfold s2. cbn [move dst]. lia.
      * cbn in Hfuel. lia.
      * exists s'. split; [exact Hrun|]. intros q. rewrite Hm.
        unfold s2. cbn [move dst cmem amem]. rewrite Z.add_0_r.
        destruct (Z.leb_spec (dst s + nn) q), (Z.ltb_spec q dst_end),
          (Z.leb_spec (dst s) q); cbn [andb]; trivial; try lia.
        -- destruct (Z_lt_ge_dec (q - dst s) n).
           ++ rewrite row_at_app_l by (rewrite repeat_length; lia).
              rewrite row_at_repeat_None. cbn [blit_pixel].
              rewrite row_at_below by lia. reflexivity.
           ++ rewrite row_at_app_r by (rewrite repeat_length; lia).
              rewrite repeat_length. do 2 f_equal. lia.
        -- rewrite row_at_app_l by (rewrite repeat_length; lia).
           now rewrite row_at_repeat_None.
    + (* a run of pixels *)
      destruct Hr as [Hn16 [opaque Hcls]]. rewrite length_map in Hfit.
      rewrite Hn. cbn [deref bind app].
      change (src_px (move s 0 0 0 1)) with (src_px s).
      rewrite !uint_small by lia.
      set (nn := Z.min (Z.of_nat (length l)) (dst_end - dst s)).
      assert (Hnn : 0 <= nn <= Z.of_nat (length l)) by (unfold nn; lia).
      destruct (split_at _ l nn Hnn) as (la & lb & -> & Hla).
      clear Hnn. subst nn.
      assert (Hla_ne : la <> []) by (intros ->; cbn [app length] in *; lia).
      apply Forall_app in Hcls as [Hca Hcb].
      rewrite map_app, <- !app_assoc in Hpx.
      rewrite map_app in Hn. cbn [app] in Hn. rewrite <- !app_assoc in Hn.
      destruct la as [|[c0 m0] la'] eqn:Ela; [congruence|]. rewrite <- Ela in *.
      assert (Hc0 : Colour_a c0 <> 0).
      { rewrite Ela in Hca. inversion Hca as [|? ? [H0 _] _]. exact H0. }
      assert (Hhd : deref (src_px s) = Ok c0) by (rewrite Hpx, Ela; reflexivity).
      rewrite Hhd. cbn [bind].
      destruct (Z.eqb_spec (Colour_a c0) 0) as [|_]; [contradiction|].
      rewrite <- Hla.
      destruct (draw_run_spec remap mode opaque la lb (move s 0 0 0 1) (px_of_runs rs ++ tpx)
                  (n_of_runs rs ++ tn) Hla_ne Hca)
        as (s2 & Hrun2 & Hd2 & Ha2 & Hpx2 & Hn2 & Hm2).
      * cbn. lia.
      * cbn [move src_px]. now rewrite advance_0.
      * cbn [move src_n]. rewrite Hn. now rewrite advance_1_cons.
      * rewrite Hrun2. cbn [bind]. cbn [move dst cmem amem] in Hd2, Hm2.
        rewrite Z.add_0_r in Hd2. rewrite !Z.add_0_r in Hm2.
        rewrite length_app in Hla, Hfit, Hn16.
        destruct lb as [|b lb'].
        -- (* the whole run is drawn *)
           cbn [map app length] in *. 
           destruct (IH fuel s2 dst_end tpx tn) as (s' & Hrun & Hm); trivial; try lia.
           exists s'. split; [exact Hrun|]. intros q. rewrite Hm, Hd2.
           assert (Hq2 := Hm2 q).
           destruct (Z.leb_spec (dst s + Z.of_nat (length la)) q), (Z.ltb_spec q dst_end),
             (Z.leb_spec (dst s) q); cbn [andb] in *; try lia.
           ++ destruct (Z.ltb_spec q (dst s + Z.of_nat (length la))); [lia|].
              rewrite Hq2. rewrite app_nil_r.
              rewrite row_at_app_r by (rewrite length_map; lia).
              rewrite length_map. do 2 f_equal. lia.
           ++ destruct (Z.ltb_spec q (dst s + Z.of_nat (length la))); [lia|]. exact Hq2.
           ++ destruct (Z.ltb_spec q (dst s + Z.of_nat (length la))); [|lia].
              rewrite Hq2. rewrite app_nil_r.
              now rewrite row_at_app_l by (rewrite length_map; lia).
           ++ exact Hq2.
        -- (* the run is cut at the right edge *)
           assert (Hend : dst s2 = dst_end) by (cbn [length] in Hla; lia).
           exists s2. split; [apply draw_loop_done; lia|]. intros q. rewrite Hm2.
           replace (dst s + Z.of_nat (length la)) with dst_end by lia.
           destruct (Z.leb_spec (dst s) q), (Z.ltb_spec q dst_end); cbn [andb]; trivial.
           rewrite map_app, <- app_assoc.
           now rewrite row_at_app_l by (rewrite length_map; lia).
Qed.

End LoopFacts.

Section LineFacts.
Context {ops : ColourOps}.
Variables (mode : BlitterMode) (bp : BlitterParams).

(** The loop that skips and what follows it, from any point of the skip:
    [start] is where the line begins in the destination, and the runs [rs]
    are what is left of the line in the streams. *)
Lemma skip_loop_spec (start : Z) (rs : list run) :
  forall fuel fuel2 s tpx tn,
    let dst_end := start + bp_skip_left bp in
    Forall valid_run rs ->
    anim s = start + Z.max 0 (dst s - dst_end) ->
    src_px s = px_of_runs rs ++ tpx ->
    src_n s = n_of_runs rs ++ tn ->
    1 <= bp_width bp < 2 ^ 31 ->
    dst_end - dst s < 2 ^ 31 ->
    dst_end - dst s + bp_width bp <= Z.of_nat (length (row_of_runs rs)) ->
    (length rs <= fuel)%nat -> (length rs <= fuel2)%nat ->
    exists e s',
      skip_loop fuel bp dst_end s = Ok e /\
      after_skip fuel2 mode bp e = Ok s' /\
      forall q, pix (cmem s') (amem s') q =
                if (start <=? q) && (q <? start + bp_width bp)
                then blit_pixel mode (bp_remap bp)
                                (row_at (row_of_runs rs) (dst_end - dst s + (q - start)))
                                (pix (cmem s) (amem s) q)
                else pix (cmem s) (amem s) q.
Proof.
  induction rs as [|r rs IH]; intros fuel fuel2 s tpx tn dst_end Hval Hanim Hpx Hn Hw H31 Hfit
    Hfuel Hfuel2.
  - cbn [row_of_runs flat_map length] in Hfit.
    exists (Fallthrough dst_end s), (move s (- bp_skip_left bp) 0 0 0). split; [|split].
    + destruct fuel; cbn [skip_loop]; destruct (Z.ltb_spec (dst s) dst_end); trivial; lia.
    + cbn [after_skip]. apply draw_loop_done. cbn [move dst]. unfold dst_end in *. lia.
    + intros q. cbn [move cmem amem]. cbn [row_of_runs flat_map]. rewrite row_at_nil.
      cbn [blit_pixel]. now destruct ((start <=? q) && (q <? start + bp_width bp)).
  - destruct (Z_le_gt_dec dst_end (dst s)) as [Hdone|Hgo].
    { (* nothing is left to skip *)
      destruct (draw_loop_spec mode (bp_remap bp) (r :: rs) fuel2
                  (move s (- bp_skip_left bp) 0 0 0) (start + bp_width bp) tpx tn)
        as (s' & Hrun & Hm); trivial.
      - cbn [move dst anim]. unfold dst_end in *. lia.
      - cbn [move dst]. unfold dst_end in *. lia.
      - cbn [move dst]. unfold dst_end in *. lia.
      - exists (Fallthrough dst_end s), s'. split; [|split].
        + destruct fuel; cbn [skip_loop]; destruct (Z.ltb_spec (dst s) dst_end); trivial; lia.
        + cbn [after_skip]. rewrite <- Hrun. f_equal. unfold dst_end. lia.
        + intros q. rewrite Hm. cbn [move dst cmem amem].
          destruct (Z.leb_spec (dst s + - bp_skip_left bp) q),
            (Z.ltb_spec q (start + bp_width bp)), (Z.leb_spec start q);
            cbn [andb]; trivial; try (unfold dst_end in *; lia).
          * do 2 f_equal. unfold dst_end. lia.
          * rewrite row_at_below by (unfold dst_end in *; lia). reflexivity. }
    destruct fuel as [|fuel]; [cbn in Hfuel; lia|].
    assert (Hanim0 : anim s = start) by lia.
    apply Forall_cons_iff in Hval as [Hr Hrs].
    cbn [px_of_runs n_of_runs row_of_runs flat_map] in *.
    fold (px_of_runs rs) in *. fold (n_of_runs rs) in *. fold (row_of_runs rs) in *.
    rewrite length_app in Hfit.
    cbn [skip_loop]. fold dst_end. destruct (Z.ltb_spec (dst s) dst_end) as [_|]; [|lia].
    destruct r as [n px m|l]; cbn [px_of_run n_of_run row_of_run valid_run] in *.
    + (* a transparent run *)
      destruct Hr as [Hn16 Ha0]. rewrite repeat_length in Hfit.
      cbn [app] in Hpx, Hn. rewrite Hn. cbn [deref bind].
      change (src_px (move s 0 0 0 1)) with (src_px s). rewrite Hpx. cbn [deref bind].
      rewrite Ha0. cbn [Z.eqb]. rewrite uint_small by lia.
      set (s2 := move (move s 0 0 0 1) n 0 1 1).
      set (s3 := if dst s2 >? dst_end then move s2 0 (dst s2 - dst_end) 0 0 else s2).
      assert (Hd3 : dst s3 = dst s + n).
      { unfold s3. destruct (dst s2 >? dst_end); cbn; lia. }
      assert (Hmem3 : cmem s3 = cmem s /\ amem s3 = amem s).
      { unfold s3. destruct (dst s2 >? dst_end); now split. }
      destruct (IH fuel fuel2 s3 tpx tn) as (e & s' & Hskip & Hafter & Hm); trivial.
      * fold dst_end. rewrite Hd3. unfold s3, s2. cbn [move dst anim].
        destruct (Z.gtb_spec (dst s + 0 + n) dst_end); cbn [move anim]; lia.
      * unfold s3. destruct (dst s2 >? dst_end); cbn [move src_px s2];
          now rewrite ?advance_0, Hpx.
      * unfold s3. destruct (dst s2 >? dst_end); cbn [move src_n s2];
          now rewrite ?advance_0, Hn.
      * fold dst_end. lia.
      * fold dst_end. lia.
      * cbn in Hfuel. lia.
      * cbn in Hfuel2. lia.
      * exists e, s'. fold dst_end in Hskip. split; [exact Hskip|]. split; [exact Hafter|].
        intros q. rewrite Hm. fold dst_end. rewrite Hd3.
        destruct Hmem3 as [-> ->].
        destruct (Z.leb_spec start q), (Z.ltb_spec q (start + bp_width bp));
          cbn [andb]; trivial.
        destruct (Z_lt_ge_dec (dst_end - dst s + (q - start)) n).
        -- rewrite row_at_app_l by (rewrite repeat_length; lia).
           rewrite row_at_repeat_None. now rewrite row_at_below by lia.
        -- rewrite row_at_app_r by (rewrite repeat_length; lia).
           rewrite repeat_length. do 2 f_equal. lia.
    + (* a run of pixels *)
      destruct Hr as [Hn16 [opaque Hcls]]. rewrite length_map in Hfit.
      rewrite Hn. cbn [deref bind app].
      change (src_px (move s 0 0 0 1)) with (src_px s).
      change (dst (move s 0 0 0 1)) with (dst s + 0). rewrite Z.add_0_r.
      rewrite (uint_small (Z.of_nat (length l))) by lia.
      destruct l as [|[c0 m0] l'] eqn:El; [cbn [length] in *; lia|]. rewrite <- El in *.
      assert (Hc0 : Colour_a c0 <> 0).
      { rewrite El in Hcls. inversion Hcls as [|? ? [H0 _] _]. exact H0. }
      assert (Hhd : deref (src_px s) = Ok c0) by (rewrite Hpx, El; reflexivity).
      rewrite Hhd. cbn [bind].
      destruct (Z.eqb_spec (Colour_a c0) 0) as [|_]; [contradiction|].
      clear Hhd Hc0 El c0 m0 l'.
      destruct (Z.gtb_spec (dst s + Z.of_nat (length l)) dst_end) as [Hcut|Hskipall].
      * (* the run straddles the left edge: goto draw *)
        rewrite (uint_small (dst_end - dst s)) by lia.
        rewrite (uint_small (bp_width bp)) by lia.
        rewrite (uint_small (Z.of_nat (length l) - (dst_end - dst s))) by lia.
        remember (dst_end - dst s) as d eqn:Ed.
        remember (Z.min (Z.of_nat (length l) - d) (bp_width bp)) as nn eqn:Enn.
        assert (Hd : 0 <= d <= Z.of_nat (length l)) by lia.
        destruct (split_at _ l d Hd) as (lskip & lrest & -> & Hlskip).
        rewrite length_app in *.
        assert (Hnn : 0 <= nn <= Z.of_nat (length lrest)) by lia.
        destruct (split_at _ lrest nn Hnn) as (la & lb & -> & Hla).
        rewrite length_app in *.
        assert (Hla_ne : la <> []) by (intros ->; cbn [length] in *; lia).
        apply Forall_app in Hcls as [_ Hcls]. apply Forall_app in Hcls as [Hca _].
        rewrite !map_app, <- !app_assoc in Hpx.
        rewrite !map_app in Hn. cbn [app] in Hn. rewrite <- !app_assoc in Hn.
        set (s3 := set_dst (move (move s 0 0 0 1) 0 0 d d) (dst_end - bp_skip_left bp)).
        destruct (draw_run_spec (bp_remap bp) mode opaque la lb s3 (px_of_runs rs ++ tpx)
                    (n_of_runs rs ++ tn) Hla_ne Hca)
          as (s4 & Hrun4 & Hd4 & Ha4 & Hpx4 & Hn4 & Hm4).
        { unfold s3, dst_end. cbn. lia. }
        { unfold s3. cbn [set_dst move src_px]. rewrite advance_0, Hpx, <- Hlskip.
          rewrite <- (length_map fst lskip). apply advance_app. }
        { unfold s3. cbn [set_dst move src_n]. rewrite Hn, advance_1_cons, <- Hlskip.
          rewrite <- (length_map snd lskip). apply advance_app. }
        assert (Hs3 : dst s3 = start) by (unfold s3, dst_end; cbn; lia).
        rewrite Hs3 in *.
        assert (Hmem3 : cmem s3 = cmem s /\ amem s3 = amem s) by now split.
        destruct Hmem3 as [Hc3 Ha3]. rewrite Hc3, Ha3 in Hm4.
        assert (Hrows : forall q, start <= q < start + nn ->
                  row_at (map Some la) (q - start) =
                  row_at (map Some (lskip ++ la ++ lb) ++ row_of_runs rs)
                         (d + (q - start))).
        { intros q Hq. rewrite !map_app, <- !app_assoc.
          rewrite row_at_app_r by (rewrite length_map; lia).
          rewrite length_map. rewrite row_at_app_l by (rewrite length_map; lia).
          f_equal. lia. }
        destruct lb as [|b lb'].
        -- (* the rest of the run fits: the loop goes on with the next run *)
           cbn [length map app] in *.
           destruct (draw_loop_spec mode (bp_remap bp) rs fuel2 s4 (start + bp_width bp)
                       tpx tn) as (s' & Hrun & Hm); trivial; try lia.
           exists (GotoDraw (start + bp_width bp) nn s3), s'. split; [|split].
           ++ reflexivity.
           ++ cbn [after_skip]. rewrite <- Hla, Hrun4. cbn [bind]. exact Hrun.
           ++ intros q. rewrite Hm, Hd4. assert (Hq4 := Hm4 q).
              destruct (Z.leb_spec (start + Z.of_nat (length la)) q),
                (Z.ltb_spec q (start + bp_width bp)), (Z.leb_spec start q);
                cbn [andb] in *; try lia.
              ** destruct (Z.ltb_spec q (start + Z.of_nat (length la))); [lia|].
                 rewrite Hq4. rewrite app_nil_r.
                 rewrite row_at_app_r by (rewrite length_map, length_app; lia).
                 rewrite length_map, length_app. do 2 f_equal. lia.
              ** destruct (Z.ltb_spec q (start + Z.of_nat (length la))); [lia|]. exact Hq4.
              ** destruct (Z.ltb_spec q (start + Z.of_nat (length la))); [|lia].
                 rewrite Hq4. rewrite (Hrows q) by lia. now rewrite app_nil_r.
              ** exact Hq4.
        -- (* the run is cut at the right edge too *)
           assert (Hend : nn = bp_width bp) by (cbn [length] in *; lia).
           exists (GotoDraw (start + bp_width bp) nn s3), s4. split; [|split].
           ++ reflexivity.
           ++ cbn [after_skip]. rewrite <- Hla, Hrun4. cbn [bind].
              apply draw_loop_done. lia.
           ++ intros q. rewrite Hm4. rewrite Hla, Hend.
              destruct (Z.leb_spec start q), (Z.ltb_spec q (start + bp_width bp));
                cbn [andb]; trivial.
              now rewrite (Hrows q) by lia.
      * (* the whole run is skipped *)
        rewrite <- app_assoc in Hpx. cbn [app] in Hn. rewrite <- app_assoc in Hn.
        set (s2 := move (move s 0 0 0 1) (Z.of_nat (length l)) 0 (Z.of_nat (length l))
                        (Z.of_nat (length l))).
        destruct (IH fuel fuel2 s2 tpx tn) as (e & s' & Hskip & Hafter & Hm); trivial.
        -- fold dst_end. unfold s2. cbn [move dst anim]. lia.
        -- unfold s2. cbn [move src_px]. rewrite advance_0, Hpx.
           rewrite <- (length_map fst l) at 1. apply advance_app.
        -- unfold s2. cbn [move src_n]. rewrite Hn, advance_1_cons.
           rewrite <- (length_map snd l) at 1. apply advance_app.
        -- fold dst_end. unfold s2. cbn [move dst]. lia.
        -- fold dst_end. unfold s2. cbn [move dst]. lia.
        -- cbn in Hfuel. lia.
        -- cbn in Hfuel2. lia.
        -- exists e, s'. fold dst_end in Hskip. split; [exact Hskip|]. split; [exact Hafter|].
           intros q. rewrite Hm. fold dst_end. unfold s2. cbn [move dst cmem amem].
           destruct (Z.leb_spec start q), (Z.ltb_spec q (start + bp_width bp));
             cbn [andb]; trivial.
           rewrite row_at_app_r by (rewrite length_map; lia).
           rewrite length_map. do 2 f_equal. lia.
Qed.

End LineFacts.

(** ** Draw: scanlines and the whole sprite *)

Lemma runs_shorter_than_stream (rs : list run) : (length rs <= length (n_of_runs rs))%nat.
Proof.
  induction rs as [|r rs IH]; cbn [n_of_runs flat_map length]; [lia|].
  fold (n_of_runs rs). rewrite length_app. destruct r; cbn [n_of_run length]; lia.
Qed.

Lemma advance_cons_app (x : Z) (l r : list Z) :
  advance (1 + Z.of_nat (length l)) (x :: l ++ r) = r.
Proof.
  change (x :: l ++ r) with ((x :: l) ++ r).
  replace (1 + Z.of_nat (length l)) with (Z.of_nat (length (x :: l)))
    by (cbn [length]; lia).
  apply advance_app.
Qed.

Lemma next_px_line_spec (ln : scanline) (tail : list Z) :
  next_px_line (line_px ln ++ tail) = Ok tail.
Proof.
  unfold next_px_line, line_px. cbn [app deref bind].
  rewrite Z.mul_comm, Z.mod_mul by lia. cbn [Z.eqb]. rewrite Z.div_mul by lia. f_equal.
  rewrite (Z.mul_comm _ 4). apply advance_cons_app.
Qed.

Lemma next_n_line_spec (ln : scanline) (tail : list Z) :
  next_n_line (line_n ln ++ tail) = Ok tail.
Proof.
  unfold next_n_line, line_n. cbv zeta.
  set (body := n_of_runs (runs ln) ++ padding ln).
  rewrite <- (length_app (n_of_runs (runs ln)) (padding ln)). fold body.
  set (len := 2 * (2 + Z.of_nat (length body))).
  cbn [app deref bind]. rewrite advance_1_cons. cbn [deref bind].
  replace (len mod 2 ^ 16 + 2 ^ 16 * (len / 2 ^ 16)) with len
    by (rewrite (Z.div_mod len (2 ^ 16)) at 1; lia).
  unfold len at 1 2. rewrite (Z.mul_comm 2), Z.mod_mul by lia. cbn [Z.eqb].
  rewrite Z.div_mul by lia. f_equal.
  replace (2 + Z.of_nat (length body)) with (1 + Z.of_nat (length (len / 2 ^ 16 :: body)))
    by (cbn [length]; lia).
  apply (advance_cons_app (len mod 2 ^ 16) (len / 2 ^ 16 :: body) tail).
Qed.

Section SpriteFacts.
Context {ops : ColourOps}.
Variables (mode : BlitterMode) (bp : BlitterParams) (sprite_width : Z).
Hypothesis skip_left_range : 0 <= bp_skip_left bp.
Hypothesis width_range : 1 <= bp_width bp.
Hypothesis fits : bp_skip_left bp + bp_width bp <= sprite_width.
Hypothesis int_range : sprite_width < 2 ^ 31.

Lemma draw_line_spec (ln : scanline) (s : Blit) (tpx tn : list Z) :
  valid_line sprite_width ln ->
  anim s = dst s ->
  src_px s = line_px ln ++ tpx ->
  src_n s = line_n ln ++ tn ->
  exists s',
    draw_line mode bp s = Ok s' /\
    dst s' = dst s + bp_pitch bp /\ anim s' = dst s' /\
    src_px s' = tpx /\ src_n s' = tn /\
    forall q, pix (cmem s') (amem s') q =
              if (dst s <=? q) && (q <? dst s + bp_width bp)
              then blit_pixel mode (bp_remap bp)
                              (row_at (row_of_runs (runs ln))
                                      (bp_skip_left bp + (q - dst s)))
                              (pix (cmem s) (amem s) q)
              else pix (cmem s) (amem s) q.
Proof.
  intros [Hval Hlen] Hsync Hpx Hn. unfold draw_line.
  rewrite Hpx, next_px_line_spec. cbn [bind].
  change (src_n (move s 0 0 1 0)) with (src_n s). rewrite Hn, next_n_line_spec. cbn [bind].
  set (s2 := move (move s 0 0 1 0) 0 0 0 2).
  assert (Hpx2 : src_px s2 = px_of_runs (runs ln) ++ tpx).
  { unfold s2. cbn [move src_px]. rewrite advance_0, Hpx. reflexivity. }
  assert (Hn2 : src_n s2 = n_of_runs (runs ln) ++ padding ln ++ tn).
  { unfold s2. cbn [move src_n]. rewrite advance_0, Hn. unfold line_n. cbv zeta.
    cbn [app]. unfold advance. cbn [Z.to_nat Pos.to_nat Pos.iter_op Nat.add skipn].
    now rewrite <- app_assoc. }
  assert (Hd2 : dst s2 = dst s) by (unfold s2; cbn; lia).
  assert (Hfuel : (length (runs ln) <= length (src_n s2))%nat).
  { rewrite Hn2, length_app. pose proof (runs_shorter_than_stream (runs ln)). lia. }
  destruct (skip_loop_spec mode bp (dst s) (runs ln) (length (src_n s2)) (length (src_n s2))
              s2 tpx (padding ln ++ tn) Hval) as (e & s' & Hskip & Hafter & Hm); trivial;
    try (rewrite ?Hd2; lia).
  { unfold s2. cbn [move anim dst]. lia. }
  rewrite Hd2. rewrite Hskip. cbn [bind]. rewrite Hafter. cbn [bind].
  eexists. split; [reflexivity|]. cbn [dst anim src_px src_n cmem amem].
  repeat split; trivial; try lia.
  intros q. rewrite Hm, Hd2.
  destruct ((dst s <=? q) && (q <? dst s + bp_width bp)); trivial.
  do 2 f_equal. lia.
Qed.

Lemma nth_line_skipn (k y : nat) (lines : list scanline) :
  nth y (skipn k lines) no_line = nth (k + y) lines no_line.
Proof.
  revert lines. induction k as [|k IH]; intros lines; [reflexivity|].
  destruct lines as [|ln lines]; cbn [skipn Nat.add nth]; [now destruct y|apply IH].
Qed.

Lemma draw_lines_spec (height : nat) :
  forall lines s tpx tn,
    Forall (valid_line sprite_width) lines ->
    (height <= length lines)%nat ->
    bp_width bp <= bp_pitch bp ->
    anim s = dst s ->
    src_px s = encode_px lines ++ tpx ->
    src_n s = encode_n lines ++ tn ->
    exists s',
      draw_lines height mode bp s = Ok s' /\
      forall q,
        pix (cmem s') (amem s') q =
        let y := (q - dst s) / bp_pitch bp in
        let x := (q - dst s) mod bp_pitch bp in
        if (0 <=? y) && (y <? Z.of_nat height) && (x <? bp_width bp)
        then blit_pixel mode (bp_remap bp) (sprite_pixel lines y (bp_skip_left bp + x))
                        (pix (cmem s) (amem s) q)
        else pix (cmem s) (amem s) q.
Proof.
  induction height as [|height IH]; intros lines s tpx tn Hval Hh Hpitch Hsync Hpx Hn.
  - exists s. split; [reflexivity|]. intros q. cbv zeta.
    destruct (Z.leb_spec 0 ((q - dst s) / bp_pitch bp)),
      (Z.ltb_spec ((q - dst s) / bp_pitch bp) (Z.of_nat 0)); cbn [andb]; trivial; lia.
  - destruct lines as [|ln lines]; [cbn in Hh; lia|].
    apply Forall_cons_iff in Hval as [Hln Hval].
    cbn [encode_px encode_n flat_map] in Hpx, Hn.
    fold (encode_px lines) in Hpx. fold (encode_n lines) in Hn.
    rewrite <- app_assoc in Hpx, Hn.
    destruct (draw_line_spec ln s _ _ Hln Hsync Hpx Hn)
      as (s1 & Hline & Hd1 & Ha1 & Hpx1 & Hn1 & Hm1).
    destruct (IH lines s1 tpx tn Hval ltac:(cbn in Hh; lia) Hpitch Ha1 Hpx1 Hn1)
      as (s' & Hrest & Hm).
    exists s'. cbn [draw_lines]. rewrite Hline. cbn [bind]. split; [exact Hrest|].
    intros q. rewrite Hm. cbv zeta. rewrite Hd1.
    assert (Hp : 0 < bp_pitch bp) by lia.
    replace (q - (dst s + bp_pitch bp)) with (q - dst s + (-1) * bp_pitch bp) by ring.
    rewrite Z.div_add, Z.mod_add by lia.
    set (y := (q - dst s) / bp_pitch bp). set (x := (q - dst s) mod bp_pitch bp).
    assert (Hq : q - dst s = bp_pitch bp * y + x) by (apply Z.div_mod; lia).
    assert (Hx : 0 <= x < bp_pitch bp) by (apply Z.mod_pos_bound; lia).
    assert (Hq1 := Hm1 q).
    destruct (Z.leb_spec 0 (y + -1)), (Z.ltb_spec (y + -1) (Z.of_nat height)),
      (Z.leb_spec 0 y), (Z.ltb_spec y (Z.of_nat (S height))); cbn [andb]; try lia.
    + (* a line below the first *)
      destruct (Z.leb_spec (dst s) q), (Z.ltb_spec q (dst s + bp_width bp));
        cbn [andb] in Hq1; try nia.
      all: rewrite Hq1; destruct (x <? bp_width bp); trivial.
      all: unfold sprite_pixel;
        replace (Z.to_nat y) with (S (Z.to_nat (y + -1))) by lia; reflexivity.
    + destruct (Z.leb_spec (dst s) q), (Z.ltb_spec q (dst s + bp_width bp));
        cbn [andb] in Hq1; try nia; exact Hq1.
    + (* the first line *)
      assert (y = 0) as Hy0 by lia. rewrite Hy0 in Hq.
      rewrite Hq1.
      destruct (Z.leb_spec (dst s) q), (Z.ltb_spec q (dst s + bp_width bp)),
        (Z.ltb_spec x (bp_width bp)); cbn [andb]; trivial; try lia.
      rewrite Hy0. unfold sprite_pixel. cbn [Z.to_nat nth]. do 3 f_equal. lia.
    + destruct (Z.leb_spec (dst s) q), (Z.ltb_spec q (dst s + bp_width bp));
        cbn [andb] in Hq1; try nia; exact Hq1.
Qed.

End SpriteFacts.

Lemma skip_lines_spec (k : nat) :
  forall lines tpx tn,
    (k <= length lines)%nat ->
    skip_lines k (encode_px lines ++ tpx) (encode_n lines ++ tn) =
      Ok (encode_px (skipn k lines) ++ tpx, encode_n (skipn k lines) ++ tn).
Proof.
  induction k as [|k IH]; intros lines tpx tn Hk; [reflexivity|].
  destruct lines as [|ln lines]; [cbn in Hk; lia|].
  cbn [skip_lines encode_px encode_n flat_map skipn].
  fold (encode_px lines). fold (encode_n lines).
  rewrite <- !app_assoc, next_px_line_spec, next_n_line_spec. cbn [bind].
  apply IH. cbn in Hk. lia.
Qed.

(** What [Draw<mode>] does, pixel by pixel: it comes to an end, and every
    pixel of the two buffers is as [drawn_pixel] has it. *)
Theorem Draw_mode_spec {ops : ColourOps} (mode : BlitterMode) (bp : BlitterParams)
    (zoom : ZoomLevel) (lines : list scanline) (sprite_width : Z) (cm am : mem) :
  drawable bp zoom lines sprite_width ->
  exists cm' am',
    Draw_mode mode bp zoom cm am = Ok (cm', am') /\
    forall q, pix cm' am' q = drawn_pixel mode bp lines cm am q.
Proof.
  intros [[tpx Hpx] [tn Hn] Hval Htop Hh Hbot Hleft Hw Hright Hpitch [Hi1 Hi2]].
  unfold Draw_mode. rewrite Hpx, Hn, uint_small by lia.
  rewrite skip_lines_spec by lia. cbn [bind].
  set (start := bp_dst bp + bp_top bp * bp_pitch bp + bp_left bp).
  destruct (draw_lines_spec mode bp sprite_width Hleft Hw Hright Hi1 (Z.to_nat (bp_height bp))
              (skipn (Z.to_nat (bp_skip_top bp)) lines)
              {| dst := start; anim := start;
                 src_px := encode_px (skipn (Z.to_nat (bp_skip_top bp)) lines) ++ tpx;
                 src_n := encode_n (skipn (Z.to_nat (bp_skip_top bp)) lines) ++ tn;
                 cmem := cm; amem := am |} tpx tn) as (s' & Hrun & Hm); trivial.
  - apply Forall_forall. intros ln Hin. rewrite Forall_forall in Hval. apply Hval.
    rewrite <- (firstn_skipn (Z.to_nat (bp_skip_top bp)) lines). apply in_or_app. now right.
  - rewrite length_skipn. lia.
  - rewrite Hrun. cbn [bind]. exists (cmem s'), (amem s'). split; [reflexivity|].
    intros q. rewrite Hm. cbn [dst cmem amem]. unfold drawn_pixel. fold start. cbv zeta.
    rewrite Z2Nat.id by lia.
    destruct (Z.leb_spec 0 ((q - start) / bp_pitch bp)); cbn [andb]; trivial.
    destruct ((q - start) / bp_pitch bp <? bp_height bp); cbn [andb]; trivial.
    destruct ((q - start) mod bp_pitch bp <? bp_width bp); trivial.
    unfold sprite_pixel. rewrite nth_line_skipn, <- Z2Nat.inj_add by lia. reflexivity.
Qed.

(** ** The claim about ScrollBuffer *)

(** What [ScrollBuffer] keeps: a pixel of the rectangle whose source pixel
    lies in the rectangle gets the colour word of the source pixel, and the
    animation buffer is moved alike, but in the rectangle counted from the
    start of the animation buffer, whatever [video] is. *)
Lemma ScrollBuffer_moves (t : Target) (am : mem)
    (video left top width height scroll_x scroll_y : Z) :
  screen_disable_anim t = false -> video_in_screen t video = true ->
  anim_buffer t = Some am ->
  0 < width <= screen_pitch t -> width < 2 ^ 32 -> 0 < height < 2 ^ 32 ->
  - width < scroll_x < width -> - height < scroll_y < height ->
  exists t' am',
    ScrollBuffer video left top width height scroll_x scroll_y t = Ok t' /\
    anim_buffer t' = Some am' /\
    forall x y,
      0 <= x < width -> 0 <= y < height ->
      0 <= x - scroll_x < width -> 0 <= y - scroll_y < height ->
      screen_mem t' (video + left + x + (top + y) * screen_pitch t) =
        screen_mem t (video + left + (x - scroll_x) + (top + y - scroll_y) * screen_pitch t) /\
      am' (0 + left + x + (top + y) * screen_pitch t) =
        am (0 + left + (x - scroll_x) + (top + y - scroll_y) * screen_pitch t).
Proof.
  intros Hen Hv Ham Hw Hw32 Hh Hsx Hsy. unfold ScrollBuffer.
  rewrite Hen, Hv, Ham. cbn [negb assert bind].
  assert (Hc := scroll_window_moves video (screen_pitch t) left top width height scroll_x
                  scroll_y (screen_mem t) Hw Hw32 Hh Hsx Hsy).
  assert (Ha := scroll_window_moves 0 (screen_pitch t) left top width height scroll_x
                  scroll_y am Hw Hw32 Hh Hsx Hsy).
  unfold Blitter_32bppBase_ScrollBuffer.
  destruct (scroll_window video (screen_pitch t) left top width height scroll_x scroll_y)
    as [[[[src dst] tw] th] step].
  destruct (scroll_window 0 (screen_pitch t) left top width height scroll_x scroll_y)
    as [[[[src0 dst0] tw0] th0] step0].
  eexists _, _. split; [reflexivity|]. split; [reflexivity|].
  intros x y Hx Hy Hxs Hys. cbn [with_buffers screen_mem]. split.
  - now apply Hc.
  - now apply Ha.
Qed.

(** With [video] at the start of the screen, as the viewport passes it,
    colour and animation stay together. *)
Lemma ScrollBuffer_conserves_at_origin (t : Target) (am : mem)
    (left top width height scroll_x scroll_y : Z) :
  screen_disable_anim t = false -> video_in_screen t 0 = true ->
  anim_buffer t = Some am ->
  0 < width <= screen_pitch t -> width < 2 ^ 32 -> 0 < height < 2 ^ 32 ->
  - width < scroll_x < width -> - height < scroll_y < height ->
  exists t' am',
    ScrollBuffer 0 left top width height scroll_x scroll_y t = Ok t' /\
    anim_buffer t' = Some am' /\
    forall x y,
      0 <= x < width -> 0 <= y < height ->
      0 <= x - scroll_x < width -> 0 <= y - scroll_y < height ->
      let q := left + x + (top + y) * screen_pitch t in
      let q0 := left + (x - scroll_x) + (top + y - scroll_y) * screen_pitch t in
      screen_mem t' q = screen_mem t q0 /\ am' q = am q0.
Proof.
  intros Hen Hv Ham Hw Hw32 Hh Hsx Hsy.
  destruct (ScrollBuffer_moves t am 0 left top width height scroll_x scroll_y
              Hen Hv Ham Hw Hw32 Hh Hsx Hsy) as (t' & am' & Hrun & Ham' & Hm).
  exists t', am'. split; [exact Hrun|]. split; [exact Ham'|]. exact Hm.
Qed.

(** C3, as the code has it.  [ScrollBuffer] takes the window of the
    animation buffer from the start of that buffer and not from [video]:
    with [video] one line below the start of the screen, a scroll by one
    line down moves the colour words of the rectangle, and moves the
    animation bytes of the lines above it.  The pixel in line 1 of the
    rectangle gets the colour word of the pixel above it but keeps its own
    animation byte. *)
Theorem ScrollBuffer_animation_window_ignores_video :
  video_in_screen scroll_sample 4 = true /\
  exists t' am am',
    anim_buffer scroll_sample = Some am /\
    ScrollBuffer 4 0 0 4 2 0 1 scroll_sample = Ok t' /\
    anim_buffer t' = Some am' /\
    screen_mem t' (4 + 0 + 0 + (0 + 1) * 4) = screen_mem scroll_sample (4 + 0 + 0 + (0 + 0) * 4) /\
    am' (4 + 0 + 0 + (0 + 1) * 4) = am (4 + 0 + 0 + (0 + 1) * 4) /\
    am' (4 + 0 + 0 + (0 + 1) * 4) <> am (4 + 0 + 0 + (0 + 0) * 4).
Proof.
  split; [reflexivity|]. eexists _, _, _. split; [reflexivity|].
  split; [reflexivity|]. split; [reflexivity|].
  split; [reflexivity|]. split; [reflexivity|]. discriminate.
Qed.

(** ** The claims about Draw *)

Lemma drawn_pixel_in_rect {ops : ColourOps} (mode : BlitterMode) (bp : BlitterParams)
    (lines : list scanline) (cm am : mem) (y x : Z) :
  0 <= y < bp_height bp -> 0 <= x < bp_width bp -> bp_width bp <= bp_pitch bp ->
  drawn_pixel mode bp lines cm am (draw_start bp + y * bp_pitch bp + x) =
  blit_pixel mode (bp_remap bp)
             (sprite_pixel lines (bp_skip_top bp + y) (bp_skip_left bp + x))
             (pix cm am (draw_start bp + y * bp_pitch bp + x)).
Proof.
  intros Hy Hx Hp. unfold drawn_pixel. fold (draw_start bp). cbv zeta.
  replace (draw_start bp + y * bp_pitch bp + x - draw_start bp) with (y * bp_pitch bp + x)
    by ring.
  rewrite Z.div_add_l, Z.div_small, Z.add_0_r by lia.
  rewrite Z.add_comm, Z.mod_add, Z.mod_small by lia.
  destruct (Z.leb_spec 0 y), (Z.ltb_spec y (bp_height bp)), (Z.ltb_spec x (bp_width bp));
    cbn [andb]; trivial; lia.
Qed.

Lemma in_gap_transparent (rs : list run) (x : Z) :
  in_gap rs x -> row_at (row_of_runs rs) x = None.
Proof.
  intros (before & n & px & m & after & -> & Hx).
  unfold row_of_runs. rewrite flat_map_app. cbn [flat_map row_of_run].
  rewrite row_at_app_r by (fold (row_of_runs before); lia).
  fold (row_of_runs before).
  rewrite row_at_app_l by (rewrite repeat_length; lia). apply row_at_repeat_None.
Qed.

Section DrawClaims.
Context {ops : ColourOps} {parent : ParentBlitter}.

Lemma Draw_spec (mode : BlitterMode) (bp : BlitterParams) (zoom : ZoomLevel)
    (lines : list scanline) (sprite_width : Z) (t : Target) (am : mem) :
  screen_disable_anim t = false -> anim_buffer t = Some am -> recognized mode ->
  drawable bp zoom lines sprite_width ->
  exists t' am',
    Draw bp mode zoom t = Ok t' /\ anim_buffer t' = Some am' /\
    forall q, pix (screen_mem t') am' q = drawn_pixel mode bp lines (screen_mem t) am q.
Proof.
  intros Hen Ham Hmode Hd.
  destruct (Draw_mode_spec mode bp zoom lines sprite_width (screen_mem t) am Hd)
    as (cm' & am' & Hrun & Hm).
  exists (with_buffers t cm' (Some am')), am'. split; [|split; [reflexivity|exact Hm]].
  unfold Draw. rewrite Hen, Ham. destruct mode; try (rewrite Hrun; reflexivity).
  contradiction.
Qed.

(** C5.  In every mode, a draw leaves the destination under a fully
    transparent run of the sprite as it was: the colour word and the
    animation byte of every pixel that such a run covers are the same before
    and after the draw. *)
Theorem transparent_run_is_no_op (mode : BlitterMode) (bp : BlitterParams) (zoom : ZoomLevel)
    (lines : list scanline) (sprite_width : Z) (t : Target) (am : mem) :
  screen_disable_anim t = false -> anim_buffer t = Some am -> recognized mode ->
  drawable bp zoom lines sprite_width ->
  exists t' am',
    Draw bp mode zoom t = Ok t' /\ anim_buffer t' = Some am' /\
    forall y x,
      0 <= y < bp_height bp -> 0 <= x < bp_width bp ->
      in_gap (runs (nth (Z.to_nat (bp_skip_top bp + y)) lines no_line)) (bp_skip_left bp + x) ->
      screen_mem t' (draw_start bp + y * bp_pitch bp + x) =
        screen_mem t (draw_start bp + y * bp_pitch bp + x) /\
      am' (draw_start bp + y * bp_pitch bp + x) = am (draw_start bp + y * bp_pitch bp + x).
Proof.
  intros Hen Ham Hmode Hd.
  destruct (Draw_spec mode bp zoom lines sprite_width t am Hen Ham Hmode Hd)
    as (t' & am' & Hrun & Ham' & Hm).
  exists t', am'. split; [exact Hrun|]. split; [exact Ham'|].
  intros y x Hy Hx Hgap. apply pix_eq. rewrite Hm.
  rewrite drawn_pixel_in_rect by (trivial; apply Hd).
  unfold sprite_pixel. now rewrite (in_gap_transparent _ _ Hgap).
Qed.

(** C6.  In the modes ColourRemap and CrashRemap, a pixel of the sprite
    whose class [m] is not 0 and whose entry [remap[m]] is 0 is not drawn:
    the colour word and the animation byte of the destination stay, for an
    opaque pixel and for a translucent one. *)
Theorem remap_to_zero_skips_pixel (mode : BlitterMode) (bp : BlitterParams) (zoom : ZoomLevel)
    (lines : list scanline) (sprite_width : Z) (t : Target) (am : mem) :
  screen_disable_anim t = false -> anim_buffer t = Some am ->
  mode = ColourRemap \/ mode = CrashRemap ->
  drawable bp zoom lines sprite_width ->
  exists t' am',
    Draw bp mode zoom t = Ok t' /\ anim_buffer t' = Some am' /\
    forall y x c m,
      0 <= y < bp_height bp -> 0 <= x < bp_width bp ->
      sprite_pixel lines (bp_skip_top bp + y) (bp_skip_left bp + x) = Some (c, m) ->
      GB m 0 8 <> 0 -> bp_remap bp (GB m 0 8) = 0 ->
      screen_mem t' (draw_start bp + y * bp_pitch bp + x) =
        screen_mem t (draw_start bp + y * bp_pitch bp + x) /\
      am' (draw_start bp + y * bp_pitch bp + x) = am (draw_start bp + y * bp_pitch bp + x).
Proof.
  intros Hen Ham Hmode Hd.
  destruct (Draw_spec mode bp zoom lines sprite_width t am Hen Ham
              ltac:(destruct Hmode as [-> | ->]; exact I) Hd)
    as (t' & am' & Hrun & Ham' & Hm).
  exists t', am'. split; [exact Hrun|]. split; [exact Ham'|].
  intros y x c m Hy Hx Hpx Hm0 Hr0. apply pix_eq. rewrite Hm.
  rewrite drawn_pixel_in_rect by (trivial; apply Hd).
  rewrite Hpx. unfold blit_pixel.
  apply Z.eqb_neq in Hm0. apply Z.eqb_eq in Hr0.
  destruct Hmode as [-> | ->]; cbn [blend_pixel]; rewrite Hm0, Hr0; reflexivity.
Qed.

(** C4.  A draw that is clipped by [skip_top] and [skip_left] gives, in
    the rectangle it draws, the same colour words and animation bytes as a
    draw of the whole sprite, placed so that the same pixels of the sprite
    meet the same pixels of the destination. *)
Theorem clipped_draw_agrees_with_full_draw (mode : BlitterMode) (bp : BlitterParams)
    (zoom : ZoomLevel) (lines : list scanline) (sprite_width : Z) (t : Target) (am : mem) :
  screen_disable_anim t = false -> anim_buffer t = Some am -> recognized mode ->
  drawable bp zoom lines sprite_width ->
  sprite_width <= bp_pitch bp ->
  exists t1 am1 t2 am2,
    Draw bp mode zoom t = Ok t1 /\ anim_buffer t1 = Some am1 /\
    Draw (unclipped bp sprite_width (Z.of_nat (length lines))) mode zoom t = Ok t2 /\
    anim_buffer t2 = Some am2 /\
    forall y x,
      0 <= y < bp_height bp -> 0 <= x < bp_width bp ->
      screen_mem t1 (draw_start bp + y * bp_pitch bp + x) =
        screen_mem t2 (draw_start bp + y * bp_pitch bp + x) /\
      am1 (draw_start bp + y * bp_pitch bp + x) = am2 (draw_start bp + y * bp_pitch bp + x).
Proof.
  intros Hen Ham Hmode Hd Hpitch.
  set (full := unclipped bp sprite_width (Z.of_nat (length lines))).
  assert (Hfull : drawable full zoom lines sprite_width).
  { destruct Hd. constructor; cbn [full unclipped bp_sprite_px bp_sprite_n bp_skip_top
      bp_skip_left bp_width bp_height bp_pitch]; trivial; lia. }
  destruct (Draw_spec mode bp zoom lines sprite_width t am Hen Ham Hmode Hd)
    as (t1 & am1 & Hrun1 & Ham1 & Hm1).
  destruct (Draw_spec mode full zoom lines sprite_width t am Hen Ham Hmode Hfull)
    as (t2 & am2 & Hrun2 & Ham2 & Hm2).
  exists t1, am1, t2, am2. repeat split; trivial.
  all: assert (Hq : pix (screen_mem t1) am1 (draw_start bp + y * bp_pitch bp + x) =
                    pix (screen_mem t2) am2 (draw_start bp + y * bp_pitch bp + x));
    [|apply pix_eq in Hq; apply Hq].
  all: rewrite Hm1, Hm2, drawn_pixel_in_rect by (trivial; apply Hd).
  all: replace (draw_start bp + y * bp_pitch bp + x)
         with (draw_start full + (bp_skip_top bp + y) * bp_pitch full + (bp_skip_left bp + x))
         by (unfold draw_start, full, unclipped; cbn; ring).
  all: destruct Hd.
  all: rewrite drawn_pixel_in_rect
         by (cbn [full unclipped bp_width bp_height bp_pitch]; lia).
  all: reflexivity.
Qed.

(** C1, as the code has it.  In the mode Normal a translucent pixel of the
    sprite (alpha from 1 to 254) leaves the class [m] of the pixel in the
    animation byte: the byte is 0 after the draw only where [m] is 0. *)
Theorem Normal_blend_keeps_class (bp : BlitterParams) (zoom : ZoomLevel)
    (lines : list scanline) (sprite_width : Z) (t : Target) (am : mem) :
  screen_disable_anim t = false -> anim_buffer t = Some am ->
  drawable bp zoom lines sprite_width ->
  exists t' am',
    Draw bp Normal zoom t = Ok t' /\ anim_buffer t' = Some am' /\
    forall y x c m,
      0 <= y < bp_height bp -> 0 <= x < bp_width bp ->
      sprite_pixel lines (bp_skip_top bp + y) (bp_skip_left bp + x) = Some (c, m) ->
      0 < Colour_a c < 255 ->
      am' (draw_start bp + y * bp_pitch bp + x) = GB m 0 8.
Proof.
  intros Hen Ham Hd.
  destruct (Draw_spec Normal bp zoom lines sprite_width t am Hen Ham I Hd)
    as (t' & am' & Hrun & Ham' & Hm).
  exists t', am'. split; [exact Hrun|]. split; [exact Ham'|].
  intros y x c m Hy Hx Hpx Ha.
  assert (Hq := Hm (draw_start bp + y * bp_pitch bp + x)).
  rewrite drawn_pixel_in_rect, Hpx in Hq by (trivial; apply Hd).
  unfold blit_pixel in Hq. destruct (Z.eqb_spec (Colour_a c) 255) as [|_]; [lia|].
  cbn [blend_pixel] in Hq. unfold pix in Hq.
  destruct (Z.eqb_spec (GB m 0 8) 0) as [E|E]; injection Hq as _ ->; congruence.
Qed.

(** The modes next to Normal do what the comment in the source says
    ("Animation colours don't work with alpha-blending"): a translucent
    pixel that they draw leaves 0 in the animation byte. *)
Lemma sibling_modes_clear_class (mode : BlitterMode) (remap : mem) (c m d a : Z) :
  mode = ColourRemap \/ mode = CrashRemap \/ mode = Transparent ->
  (GB m 0 8 <> 0 -> remap (GB m 0 8) <> 0) ->
  snd (blend_pixel mode remap false c m d a) = 0.
Proof.
  intros Hmode Hr.
  destruct Hmode as [-> | [-> | ->]]; cbn [blend_pixel]; trivial.
  all: destruct (Z.eqb_spec (GB m 0 8) 0) as [|Hm]; trivial.
  all: destruct (Z.eqb_spec (remap (GB m 0 8)) 0) as [E|]; trivial.
  all: now apply Hr in Hm.
Qed.

(** C7, as the code has it.  [Draw] takes a null animation buffer, or
    animation disabled as a whole, as "no animation": it hands the whole
    call to the parent's [Draw], which writes the colour buffer only, and
    the animation buffer stays as it was; with the parent's [Draw] that the
    spec describes, the colour buffer is pixel by pixel the one of the
    animated draw on the same screen with all animation bytes forced to 0.
    [CopyToBuffer] and [CopyFromBuffer] do not fall back to a copy of the
    colours: with a null animation buffer they return before they copy
    anything, so the buffer of the caller and the render target are both
    left as they were, and with animation disabled as a whole they fail
    their first assertion. *)
Theorem no_animation_buffer (bp : BlitterParams) (mode : BlitterMode) (zoom : ZoomLevel)
    (lines : list scanline) (sprite_width : Z) (t : Target) :
  (screen_disable_anim t = true \/ anim_buffer t = None ->
   (exists t',
      Draw bp mode zoom t = Ok t' /\
      screen_mem t' = Blitter_32bppOptimized_Draw bp mode zoom t /\
      anim_buffer t' = anim_buffer t) /\
   (recognized mode -> drawable bp zoom lines sprite_width ->
    exists t' ta,
      Draw (parent := spec_parent parent) bp mode zoom t = Ok t' /\
      anim_buffer t' = anim_buffer t /\
      Draw bp mode zoom (bytes_forced_to_0 t) = Ok ta /\
      forall q, screen_mem t' q = screen_mem ta q)) /\
  (forall video buf width height,
     (screen_disable_anim t = false -> anim_buffer t = None ->
      video_in_screen t video = true ->
      CopyToBuffer video buf width height t = Ok buf /\
      CopyFromBuffer video buf width height t = Ok t) /\
     (screen_disable_anim t = true ->
      CopyToBuffer video buf width height t = Err AssertFailed /\
      CopyFromBuffer video buf width height t = Err AssertFailed)).
Proof.
  split.
  - intros H. split.
    + rewrite (Draw_delegates _ _ _ _ H). eexists. split; [reflexivity|]. now split.
    + intros Hmode Hd.
      destruct (Draw_mode_spec mode bp zoom lines sprite_width (screen_mem t) (fun _ => 0) Hd)
        as (cm' & am' & Hrun & _).
      exists (with_buffers t cm' (anim_buffer t)),
             (with_buffers (bytes_forced_to_0 t) cm' (Some am')).
      split; [|split; [reflexivity|split; [|reflexivity]]].
      * rewrite (Draw_delegates (parent := spec_parent parent) _ _ _ _ H).
        cbn [spec_parent Blitter_32bppOptimized_Draw]. unfold spec_32bppOptimized_Draw.
        rewrite Hrun. reflexivity.
      * unfold Draw. cbn [bytes_forced_to_0 screen_disable_anim anim_buffer screen_mem].
        destruct mode; try (rewrite Hrun; reflexivity). contradiction.
  - intros video buf width height. split.
    + intros Hen Ham Hv. unfold CopyToBuffer, CopyFromBuffer.
      rewrite Hen, Hv, Ham. now split.
    + intros Hoff. unfold CopyToBuffer, CopyFromBuffer. rewrite Hoff. now split.
Qed.

End DrawClaims.

(** ** The claims at work on the sample data *)

Ltac all_of := repeat first [apply Forall_nil | apply Forall_cons].

Ltac same_class_sample b :=
  exists b; all_of; (split; [intros H; vm_compute in H; discriminate | reflexivity]).

Ltac valid_sample_run :=
  cbn [valid_run length];
  first
    [ split; [lia | reflexivity]
    | split; [lia | first [same_class_sample true | same_class_sample false]] ].

Ltac valid_sample_lines :=
  all_of; (split; [all_of; valid_sample_run | reflexivity]).

Lemma sample_drawable : drawable sample_bp 0%nat sample_lines 5.
Proof.
  constructor; cbn [sample_bp bp_sprite_px bp_sprite_n bp_skip_top bp_skip_left bp_width
    bp_height bp_pitch]; try lia.
  - exists []. now rewrite app_nil_r.
  - exists []. now rewrite app_nil_r.
  - valid_sample_lines.
  - cbn. lia.
  - cbn. lia.
Defined.

Lemma four_pixels_drawable (m : Z) : drawable (four_pixels_bp m) 0%nat (four_pixels m) 4.
Proof.
  constructor; cbn [four_pixels_bp bp_sprite_px bp_sprite_n bp_skip_top bp_skip_left bp_width
    bp_height bp_pitch]; try lia.
  - exists []. now rewrite app_nil_r.
  - exists []. now rewrite app_nil_r.
  - valid_sample_lines.
  - cbn. lia.
  - cbn. lia.
Defined.

(** The first scenario of the spec: an opaque run of four pixels of class 0,
    drawn to the start of the screen, puts the four colours into the colour
    buffer and 0 into the four animation bytes. *)
Example scenario_opaque_run :
  match Draw (ops := sample_ops) (parent := sample_parent) (four_pixels_bp 0) Normal 0%nat
             sample_screen with
  | Ok t' =>
      map (screen_mem t') [0; 1; 2; 3] = [red; green; blue; yellow] /\
      option_map (fun am' => map am' [0; 1; 2; 3]) (anim_buffer t') = Some [0; 0; 0; 0]
  | Err _ => False
  end.
Proof. vm_compute. split; reflexivity. Qed.

Lemma SetPixel_DrawRect_black_and_index_witness :
  (exists t' am',
     SetPixel (parent := sample_parent) 0 3 2 {| p := 9 |} sample_screen = Ok t' /\
     anim_buffer t' = Some am' /\ screen_mem t' (0 + 3 + 2 * 8) = _black_colour /\
     am' (0 + 3 + 2 * 8) = 9) /\
  (exists t' am',
     DrawRect (parent := sample_parent) 0 3 2 {| p := 9 |} sample_screen = Ok t' /\
     anim_buffer t' = Some am' /\ screen_mem t' (0 + 2 + 1 * 8) = _black_colour /\
     am' (0 + 2 + 1 * 8) = 9).
Proof.
  destruct (SetPixel_DrawRect_black_and_index (parent := sample_parent) sample_screen
              (fun _ => 0) {| p := 9 |} eq_refl eq_refl ltac:(cbn; lia))
    as (Hset & Hrect & _).
  split.
  - apply (Hset 0 3 2). lia.
  - destruct (Hrect 0 3 2 ltac:(lia)) as (t' & am' & Hrun & Ham & Hpx).
    exists t', am'. split; [exact Hrun|]. split; [exact Ham|]. apply Hpx; lia.
Defined.

Lemma Draw_dispatch_witness :
  Draw (ops := sample_ops) (parent := sample_parent) sample_bp (OtherMode 6) 0%nat
       sample_screen = Err NotReached.
Proof.
  exact (Draw_dispatch (ops := sample_ops) (parent := sample_parent) sample_bp (OtherMode 6)
           0%nat sample_screen (fun _ => 0) eq_refl eq_refl).
Defined.

(** C7 as it is stated does not hold: with a null animation buffer
    [CopyFromBuffer] does no work on the colour buffer.  The first pixel of
    the rectangle keeps its colour, where the saved rectangle has the colour
    word 42. *)
Lemma CopyFromBuffer_null_anim_copies_nothing :
  exists t',
    CopyFromBuffer 0 sample_saved 1 1 sample_screen_no_anim = Ok t' /\
    load32 sample_saved 0 = 42 /\
    screen_mem t' 0 <> load32 sample_saved 0.
Proof.
  exists sample_screen_no_anim. split; [reflexivity|]. split; [reflexivity|].
  intros H. vm_compute in H. discriminate.
Qed.

Lemma no_animation_buffer_witness :
  ((exists t',
      Draw (ops := sample_ops) (parent := sample_parent) sample_bp Normal 0%nat
           sample_screen_no_anim = Ok t' /\
      screen_mem t' = Blitter_32bppOptimized_Draw (ParentBlitter := sample_parent)
                        sample_bp Normal 0%nat sample_screen_no_anim /\
      anim_buffer t' = None) /\
   (exists t' ta,
      Draw (ops := sample_ops) (parent := spec_parent (ops := sample_ops) sample_parent)
           sample_bp Normal 0%nat sample_screen_no_anim = Ok t' /\
      anim_buffer t' = None /\
      Draw (ops := sample_ops) (parent := sample_parent) sample_bp Normal 0%nat
           (bytes_forced_to_0 sample_screen_no_anim) = Ok ta /\
      forall q, screen_mem t' q = screen_mem ta q)) /\
  (CopyToBuffer 0 sample_saved 1 1 sample_screen_no_anim = Ok sample_saved /\
   CopyFromBuffer 0 sample_saved 1 1 sample_screen_no_anim = Ok sample_screen_no_anim) /\
  (CopyToBuffer 0 sample_saved 1 1 sample_screen_disabled = Err AssertFailed /\
   CopyFromBuffer 0 sample_saved 1 1 sample_screen_disabled = Err AssertFailed).
Proof.
  destruct (no_animation_buffer (ops := sample_ops) (parent := sample_parent) sample_bp Normal
              0%nat sample_lines 5 sample_screen_no_anim) as [Hdraw Hcopy].
  destruct (no_animation_buffer (ops := sample_ops) (parent := sample_parent) sample_bp Normal
              0%nat sample_lines 5 sample_screen_disabled) as [_ Hoff].
  destruct (Hdraw (or_intror eq_refl)) as [Hparent Hstatic].
  split; [split|split].
  - exact Hparent.
  - exact (Hstatic I sample_drawable).
  - apply Hcopy; reflexivity.
  - apply Hoff. reflexivity.
Defined.

Lemma capture_then_restore_is_identity_witness :
  exists buf t',
    CopyToBuffer 1 sample_saved 3 2 sample_screen = Ok buf /\
    CopyFromBuffer 1 buf 3 2 sample_screen = Ok t' /\
    (forall q, screen_mem t' q = screen_mem sample_screen q) /\
    exists am', anim_buffer t' = Some am' /\ forall q, am' q = 0.
Proof.
  apply (capture_then_restore_is_identity sample_screen 1 3 2 sample_saved eq_refl eq_refl).
  - lia.
  - intros k i _ _. cbn. lia.
Defined.

(** C9 as it is stated does not hold: a region of one pixel takes one byte
    of an animation buffer of one byte per pixel, and [BufferSize] gives 5. *)
Lemma BufferSize_is_not_animation_region_size :
  BufferSize 1 1 = 5 /\ BufferSize 1 1 <> 1 * 1 * 1.
Proof. split; [reflexivity | discriminate]. Qed.

Lemma BufferSize_is_capture_size_witness :
  BufferSize 3 2 = 4 * (3 * 2) + 1 * (3 * 2) /\
  forall t video dst buf,
    CopyToBuffer video dst 3 2 t = Ok buf ->
    forall q, ~ (0 <= q < BufferSize 3 2) -> buf q = dst q.
Proof.
  apply (BufferSize_is_capture_size 3 2); lia.
Defined.

Lemma transparent_run_is_no_op_witness :
  exists t' am',
    Draw (ops := sample_ops) (parent := sample_parent) sample_bp CrashRemap 0%nat
         sample_screen = Ok t' /\
    anim_buffer t' = Some am' /\
    screen_mem t' (draw_start sample_bp + 1 * 8 + 2) = Colour3 64 64 64 /\
    am' (draw_start sample_bp + 1 * 8 + 2) = 0.
Proof.
  destruct (transparent_run_is_no_op (ops := sample_ops) (parent := sample_parent) CrashRemap
              sample_bp 0%nat sample_lines 5 sample_screen (fun _ => 0) eq_refl eq_refl I
              sample_drawable) as (t' & am' & Hrun & Ham & Hgap).
  exists t', am'. split; [exact Hrun|]. split; [exact Ham|].
  apply (Hgap 1 2); cbn [sample_bp bp_height bp_width]; try lia.
  exists [Pixels [(blue, 5); (yellow, 6)]], 2, 0, 0, [Pixels [(glass, 7)]].
  split; [reflexivity|]. cbn. lia.
Defined.

(** The second scenario of the spec is the witness: an opaque run of four
    pixels of class 5, with [remap[5] = 0], in the mode ColourRemap. *)
Lemma remap_to_zero_skips_pixel_witness :
  exists t' am',
    Draw (ops := sample_ops) (parent := sample_parent) (four_pixels_bp 5) ColourRemap 0%nat
         sample_screen = Ok t' /\
    anim_buffer t' = Some am' /\
    forall x, 0 <= x < 4 ->
      screen_mem t' x = screen_mem sample_screen x /\ am' x = 0.
Proof.
  destruct (remap_to_zero_skips_pixel (ops := sample_ops) (parent := sample_parent) ColourRemap
              (four_pixels_bp 5) 0%nat (four_pixels 5) 4 sample_screen (fun _ => 0)
              eq_refl eq_refl (or_introl eq_refl) (four_pixels_drawable 5))
    as (t' & am' & Hrun & Ham & Hskip).
  exists t', am'. split; [exact Hrun|]. split; [exact Ham|].
  intros x Hx.
  assert (Hpx : exists c, sprite_pixel (four_pixels 5) (0 + 0) (0 + x) = Some (c, 5)).
  { assert (x = 0 \/ x = 1 \/ x = 2 \/ x = 3) as [-> | [-> | [-> | ->]]] by lia;
      eexists; reflexivity. }
  destruct Hpx as [c Hpx].
  destruct (Hskip 0 x c 5) as [Hc Ha]; trivial; try (cbn; lia); try discriminate.
  replace (draw_start (four_pixels_bp 5) + 0 * bp_pitch (four_pixels_bp 5) + x) with x
    in Hc, Ha by (cbn; lia).
  now split.
Defined.

Lemma clipped_draw_agrees_with_full_draw_witness :
  exists t1 am1 t2 am2,
    Draw (ops := sample_ops) (parent := sample_parent) sample_bp Transparent 0%nat
         sample_screen = Ok t1 /\ anim_buffer t1 = Some am1 /\
    Draw (ops := sample_ops) (parent := sample_parent) (unclipped sample_bp 5 2) Transparent
         0%nat sample_screen = Ok t2 /\ anim_buffer t2 = Some am2 /\
    forall y x, 0 <= y < 2 -> 0 <= x < 4 ->
      screen_mem t1 (draw_start sample_bp + y * 8 + x) =
        screen_mem t2 (draw_start sample_bp + y * 8 + x) /\
      am1 (draw_start sample_bp + y * 8 + x) = am2 (draw_start sample_bp + y * 8 + x).
Proof.
  apply (clipped_draw_agrees_with_full_draw (ops := sample_ops) (parent := sample_parent)
           Transparent sample_bp 0%nat sample_lines 5 sample_screen (fun _ => 0)
           eq_refl eq_refl I sample_drawable).
  cbn. lia.
Defined.

(** The input at which the code parts from C1: the translucent pixel of
    class 7 in the first line of the sample sprite leaves 7, not 0, in the
    animation byte. *)
Lemma Normal_blend_keeps_class_witness :
  exists t' am',
    Draw (ops := sample_ops) (parent := sample_parent) sample_bp Normal 0%nat
         sample_screen = Ok t' /\
    anim_buffer t' = Some am' /\
    am' (draw_start sample_bp + 0 * 8 + 2) = 7 /\
    am' (draw_start sample_bp + 0 * 8 + 2) <> 0.
Proof.
  destruct (Normal_blend_keeps_class (ops := sample_ops) (parent := sample_parent) sample_bp
              0%nat sample_lines 5 sample_screen (fun _ => 0) eq_refl eq_refl sample_drawable)
    as (t' & am' & Hrun & Ham & Hcls).
  exists t', am'. split; [exact Hrun|]. split; [exact Ham|].
  assert (H7 : am' (draw_start sample_bp + 0 * bp_pitch sample_bp + 2) = GB 7 0 8).
  { apply (Hcls 0 2 glass 7); try (cbn; lia); reflexivity. }
  change (GB 7 0 8) with 7 in H7. change (bp_pitch sample_bp) with 8 in H7.
  split; [exact H7|]. rewrite H7. discriminate.
Defined.

(** * More of the blitter *)

(** ** SetPixel and DrawRect: what they leave alone *)

Lemma DrawRect_rows_frame (colour : PixelColour) (pitch width : Z) (rows : nat) :
  forall video anim_line cm am q,
    let r := DrawRect_rows rows pitch video anim_line width colour cm am in
    ((forall j i, 0 <= j <= Z.of_nat rows -> 0 <= i < width -> q <> video + i + j * pitch) ->
     fst r q = cm q) /\
    ((forall j i, 0 <= j <= Z.of_nat rows -> 0 <= i < width ->
        q <> anim_line + i + j * pitch) ->
     snd r q = am q).
Proof.
  induction rows as [|rows IH]; intros video anim_line cm am q; cbn [DrawRect_rows].
  - destruct (DrawRect_row (Z.to_nat width) video anim_line colour cm am) as [cm1 am1] eqn:E.
    destruct (DrawRect_row_spec colour (Z.to_nat width) video anim_line cm am q) as [Hc Ha].
    rewrite E in Hc, Ha. cbn [fst snd] in *. split; intros Hq.
    + rewrite Hc. destruct (Z.leb_spec video q), (Z.ltb_spec q (video + Z.of_nat (Z.to_nat width)));
        cbn [andb]; trivial.
      exfalso. apply (Hq 0 (q - video)); lia.
    + rewrite Ha. destruct (Z.leb_spec anim_line q),
        (Z.ltb_spec q (anim_line + Z.of_nat (Z.to_nat width))); cbn [andb]; trivial.
      exfalso. apply (Hq 0 (q - anim_line)); lia.
  - destruct (DrawRect_row (Z.to_nat width) video anim_line colour cm am) as [cm1 am1] eqn:E.
    destruct (DrawRect_row_spec colour (Z.to_nat width) video anim_line cm am q) as [Hc Ha].
    rewrite E in Hc, Ha. cbn [fst snd] in Hc, Ha.
    destruct (IH (video + pitch) (anim_line + pitch) cm1 am1 q) as [IHc IHa].
    cbv zeta in IHc, IHa. split; intros Hq.
    + rewrite IHc.
      * rewrite Hc. destruct (Z.leb_spec video q),
          (Z.ltb_spec q (video + Z.of_nat (Z.to_nat width))); cbn [andb]; trivial.
        exfalso. apply (Hq 0 (q - video)); lia.
      * intros j i Hj Hi. replace (video + pitch + i + j * pitch)
          with (video + i + (j + 1) * pitch) by ring. apply Hq; lia.
    + rewrite IHa.
      * rewrite Ha. destruct (Z.leb_spec anim_line q),
          (Z.ltb_spec q (anim_line + Z.of_nat (Z.to_nat width))); cbn [andb]; trivial.
        exfalso. apply (Hq 0 (q - anim_line)); lia.
      * intros j i Hj Hi. replace (anim_line + pitch + i + j * pitch)
          with (anim_line + i + (j + 1) * pitch) by ring. apply Hq; lia.
Qed.

Section PixelExtras.
Context {parent : ParentBlitter}.

Lemma DrawRect_outside (t : Target) (am : mem) (video width height : Z)
    (colour : PixelColour) :
  screen_disable_anim t = false -> anim_buffer t = Some am -> 1 <= height ->
  exists t' am',
    DrawRect video width height colour t = Ok t' /\ anim_buffer t' = Some am' /\
    (forall q, (forall j i, 0 <= j < height -> 0 <= i < width ->
                  q <> video + i + j * screen_pitch t) ->
       screen_mem t' q = screen_mem t q /\ am' q = am q) /\
    (width <= 0 -> forall q, screen_mem t' q = screen_mem t q /\ am' q = am q).
Proof.
  intros Hen Ham Hh. unfold DrawRect. rewrite Hen, Ham.
  destruct (Z.leb_spec height 0) as [|_]; [lia|].
  assert (Hf := fun q => DrawRect_rows_frame colour (screen_pitch t) width
                           (Z.to_nat (height - 1)) video video (screen_mem t) am q).
  destruct (DrawRect_rows (Z.to_nat (height - 1)) (screen_pitch t) video video width colour
              (screen_mem t) am) as [cm1 am1].
  exists (with_buffers t cm1 (Some am1)), am1. split; [reflexivity|]. split; [reflexivity|].
  cbn [with_buffers screen_mem fst snd] in *.
  assert (Hframe : forall q, (forall j i, 0 <= j < height -> 0 <= i < width ->
                                 q <> video + i + j * screen_pitch t) ->
                     cm1 q = screen_mem t q /\ am1 q = am q).
  { intros q Hq. destruct (Hf q) as [Hc Ha].
    split; [apply Hc | apply Ha]; intros j i Hj Hi; apply Hq; lia. }
  split; [exact Hframe|].
  intros Hw q. apply Hframe. intros j i _ Hi. lia.
Qed.

(** X1.  [DrawRect] writes inside its rectangle only: a pixel that is in
    none of the [height] rows of [width] cells keeps its colour word and its
    animation byte, so a width of 0 or less changes nothing at all. *)
Theorem DrawRect_frame (t : Target) (am : mem) (video width height : Z)
    (colour : PixelColour) :
  screen_disable_anim t = false -> anim_buffer t = Some am -> 1 <= height ->
  exists t' am',
    DrawRect video width height colour t = Ok t' /\ anim_buffer t' = Some am' /\
    (forall q, (forall j i, 0 <= j < height -> 0 <= i < width ->
                  q <> video + i + j * screen_pitch t) ->
       screen_mem t' q = screen_mem t q /\ am' q = am q) /\
    (width <= 0 -> forall q, screen_mem t' q = screen_mem t q /\ am' q = am q).
Proof. exact (DrawRect_outside t am video width height colour). Qed.

(** X2.  [SetPixel] is the [DrawRect] of one pixel: at [(x, y)] it leaves
    both buffers as a rectangle of width 1 and height 1 at that place
    does. *)
Theorem SetPixel_is_DrawRect_of_one_pixel (t : Target) (am : mem) (video x y : Z)
    (colour : PixelColour) :
  screen_disable_anim t = false -> anim_buffer t = Some am ->
  0 <= screen_pitch t < 2 ^ 31 -> 0 <= y < 2 ^ 31 ->
  exists t1 am1 t2 am2,
    SetPixel video x y colour t = Ok t1 /\ anim_buffer t1 = Some am1 /\
    DrawRect (video + x + y * screen_pitch t) 1 1 colour t = Ok t2 /\
    anim_buffer t2 = Some am2 /\
    forall q, screen_mem t1 q = screen_mem t2 q /\ am1 q = am2 q.
Proof.
  intros Hen Ham Hp Hy. unfold SetPixel, DrawRect. rewrite Hen, Ham.
  assert (Hoff : size_t (size_t y * size_t (screen_pitch t)) = y * screen_pitch t).
  { rewrite (size_t_small y), (size_t_small (screen_pitch t)) by lia.
    apply size_t_small. nia. }
  rewrite Hoff. cbn [Z.leb Z.compare Z.sub Z.add Z.opp Z.pos_sub Z.to_nat DrawRect_rows
    Pos.to_nat Pos.iter_op DrawRect_row Nat.add].
  eexists _, _, _, _. split; [reflexivity|]. split; [reflexivity|].
  split; [reflexivity|]. split; [reflexivity|].
  intros q. cbn [with_buffers screen_mem]. now split.
Qed.

End PixelExtras.

(** ** Capture and restore: the layout, and an overlay undone *)

Lemma CopyToBuffer_returns (t : Target) (am : mem) (video width height : Z) (dst : mem) :
  screen_disable_anim t = false -> video_in_screen t video = true ->
  anim_buffer t = Some am ->
  exists buf, CopyToBuffer video dst width height t = Ok buf.
Proof.
  intros Hen Hv Ham. unfold CopyToBuffer. rewrite Hen, Hv, Ham. cbn [negb assert bind].
  eexists. reflexivity.
Qed.

(** X3.  The layout of a capture: row [k] of the rectangle takes the
    [5 * width] bytes from [5 * width * k] on, first the [width] colour
    words, four bytes each with the low byte first, then the [width]
    animation bytes. *)
Theorem CopyToBuffer_layout (t : Target) (am : mem) (video width height : Z) (dst : mem) :
  screen_disable_anim t = false -> video_in_screen t video = true ->
  anim_buffer t = Some am -> 0 <= width ->
  exists buf,
    CopyToBuffer video dst width height t = Ok buf /\
    forall k i, 0 <= k < height -> 0 <= i < width ->
      load32 buf (5 * width * k + 4 * i) =
        screen_mem t (video + k * screen_pitch t + i) mod 2 ^ 32 /\
      buf (5 * width * k + 4 * width + i) = am (video + k * screen_pitch t + i).
Proof.
  intros Hen Hv Ham Hw. unfold CopyToBuffer. rewrite Hen, Hv, Ham. cbn [negb assert bind].
  eexists. split; [reflexivity|]. intros k i Hk Hi.
  destruct (CopyToBuffer_rows_spec (screen_pitch t) width Hw (screen_mem t) am
              (Z.to_nat height) video video dst 0) as [_ Hc].
  apply (Hc k i); lia.
Qed.

Section OverlayExtras.
Context {ops : ColourOps} {parent : ParentBlitter}.

(** X4.  A rectangle that is captured, painted over by [DrawRect] and then
    restored leaves the whole screen as it was, colour words and animation
    bytes. *)
Theorem DrawRect_undone_by_restore (t : Target) (am : mem) (video width height : Z)
    (colour : PixelColour) (dst : mem) :
  screen_disable_anim t = false -> video_in_screen t video = true ->
  anim_buffer t = Some am -> 0 <= width -> 1 <= height ->
  (forall k i, 0 <= k < height -> 0 <= i < width ->
     0 <= screen_mem t (video + k * screen_pitch t + i) < 2 ^ 32) ->
  exists buf t2 t3 am3,
    CopyToBuffer video dst width height t = Ok buf /\
    DrawRect video width height colour t = Ok t2 /\
    CopyFromBuffer video buf width height t2 = Ok t3 /\
    anim_buffer t3 = Some am3 /\
    forall q, screen_mem t3 q = screen_mem t q /\ am3 q = am q.
Proof.
  intros Hen Hv Ham Hw Hh Hty.
  destruct (CopyToBuffer_returns t am video width height dst Hen Hv Ham) as (buf & Hcap).
  destruct (DrawRect_outside t am video width height colour Hen Ham Hh)
    as (t2 & am2 & Hdraw & Ham2 & Hframe & _).
  assert (Ht2 : t2 = with_buffers t (screen_mem t2) (Some am2)).
  { unfold DrawRect in Hdraw. rewrite Hen, Ham in Hdraw.
    destruct (height <=? 0); [discriminate|].
    destruct (DrawRect_rows _ _ _ _ _ _ _ _) as [cm1 am1]. injection Hdraw as <-.
    cbn in Ham2. injection Ham2 as <-. reflexivity. }
  destruct (CopyFromBuffer_restores t t2 am am2 video width height dst buf)
    as (t3 & am3 & Hres & Ham3 & Hin & Hout); trivial.
  { rewrite Ht2. exact Hen. }
  { rewrite Ht2. exact Hv. }
  { rewrite Ht2. reflexivity. }
  exists buf, t2, t3, am3. repeat split; trivial.
  all: destruct (in_rows_dec width (screen_pitch t) (Z.to_nat height) video q)
         as [(k & Hk & Hq)|Hno].
  all: try (destruct (Hin k (q - (video + k * screen_pitch t)) ltac:(lia) ltac:(lia))
              as [Hc Ha]; cbv zeta in Hc, Ha;
            replace (video + k * screen_pitch t + (q - (video + k * screen_pitch t)))
              with q in Hc, Ha by ring; assumption).
  all: assert (Hq : forall k i, 0 <= k < height -> 0 <= i < width ->
                      q <> video + k * screen_pitch t + i)
         by (intros k i Hk Hi ->; apply Hno; exists k; split; lia).
  all: destruct (Hout q Hq) as [Hc Ha]; rewrite ?Hc, ?Ha.
  all: apply Hframe; intros j i Hj Hi; specialize (Hq j i Hj Hi); lia.
Qed.

End OverlayExtras.

(** ** Draw: pixel by pixel *)

Section DrawExtras.
Context {ops : ColourOps} {parent : ParentBlitter}.

(** the cell in line [y], column [x] of the rectangle that [bp] draws *)


Lemma drawn_pixel_outside (mode : BlitterMode) (bp : BlitterParams) (lines : list scanline)
    (cm am : mem) (q : Z) :
  1 <= bp_pitch bp ->
  (forall y x, 0 <= y < bp_height bp -> 0 <= x < bp_width bp -> q <> draw_start bp + y * bp_pitch bp + x) ->
  drawn_pixel mode bp lines cm am q = pix cm am q.
Proof.
  intros Hp Hq. unfold drawn_pixel. fold (draw_start bp). cbv zeta.
  destruct (Z.leb_spec 0 ((q - draw_start bp) / bp_pitch bp)) as [Hy0|]; trivial.
  destruct (Z.ltb_spec ((q - draw_start bp) / bp_pitch bp) (bp_height bp)) as [Hy1|]; trivial.
  destruct (Z.ltb_spec ((q - draw_start bp) mod bp_pitch bp) (bp_width bp)) as [Hx1|]; trivial.
  cbn [andb]. exfalso.
  apply (Hq ((q - draw_start bp) / bp_pitch bp) ((q - draw_start bp) mod bp_pitch bp)).
  - lia.
  - split; [apply Z.mod_pos_bound; lia | exact Hx1].
  - pose proof (Z.div_mod (q - draw_start bp) (bp_pitch bp) ltac:(lia)). lia.
Qed.

(** What a draw does, pixel by pixel: in the rectangle every pixel is the
    blend of the pixel of the sprite that lies over it with what was there,
    and no pixel outside the rectangle is touched. *)
Lemma Draw_pixels (mode : BlitterMode) (bp : BlitterParams) (zoom : ZoomLevel)
    (lines : list scanline) (sprite_width : Z) (t : Target) (am : mem) :
  screen_disable_anim t = false -> anim_buffer t = Some am -> recognized mode ->
  drawable bp zoom lines sprite_width ->
  exists t' am',
    Draw bp mode zoom t = Ok t' /\ anim_buffer t' = Some am' /\
    t' = with_buffers t (screen_mem t') (Some am') /\
    (forall y x, 0 <= y < bp_height bp -> 0 <= x < bp_width bp ->
       (screen_mem t' (draw_start bp + y * bp_pitch bp + x), am' (draw_start bp + y * bp_pitch bp + x)) =
       blit_pixel mode (bp_remap bp)
         (sprite_pixel lines (bp_skip_top bp + y) (bp_skip_left bp + x))
         (screen_mem t (draw_start bp + y * bp_pitch bp + x), am (draw_start bp + y * bp_pitch bp + x))) /\
    (forall q, (forall y x, 0 <= y < bp_height bp -> 0 <= x < bp_width bp -> q <> draw_start bp + y * bp_pitch bp + x) ->
       screen_mem t' q = screen_mem t q /\ am' q = am q).
Proof.
  intros Hen Ham Hmode Hd.
  destruct (Draw_mode_spec mode bp zoom lines sprite_width (screen_mem t) am Hd)
    as (cm' & am' & Hrun & Hm).
  exists (with_buffers t cm' (Some am')), am'.
  split; [|split; [reflexivity|split; [reflexivity|split]]].
  - unfold Draw. rewrite Hen, Ham. destruct mode; try (rewrite Hrun; reflexivity).
    contradiction.
  - intros y x Hy Hx. change (screen_mem (with_buffers t cm' (Some am'))) with cm'.
    fold (pix cm' am' (draw_start bp + y * bp_pitch bp + x)). rewrite Hm.
    apply drawn_pixel_in_rect; trivial. apply Hd.
  - intros q Hq. change (screen_mem (with_buffers t cm' (Some am'))) with cm'.
    apply pix_eq. rewrite Hm. apply drawn_pixel_outside; trivial.
    destruct Hd. lia.
Qed.

(** X5.  A draw in one of the six modes returns, and no pixel outside the
    rectangle of [bp_height] rows of [bp_width] cells at [draw_start] is
    changed, neither its colour word nor its animation byte. *)
Theorem Draw_frame (mode : BlitterMode) (bp : BlitterParams) (zoom : ZoomLevel)
    (lines : list scanline) (sprite_width : Z) (t : Target) (am : mem) :
  screen_disable_anim t = false -> anim_buffer t = Some am -> recognized mode ->
  drawable bp zoom lines sprite_width ->
  exists t' am',
    Draw bp mode zoom t = Ok t' /\ anim_buffer t' = Some am' /\
    forall q, (forall y x, 0 <= y < bp_height bp -> 0 <= x < bp_width bp -> q <> draw_start bp + y * bp_pitch bp + x) ->
      screen_mem t' q = screen_mem t q /\ am' q = am q.
Proof.
  intros Hen Ham Hmode Hd.
  destruct (Draw_pixels mode bp zoom lines sprite_width t am Hen Ham Hmode Hd)
    as (t' & am' & Hrun & Ham' & _ & _ & Hout).
  now exists t', am'.
Qed.

(** X6.  A draw reads, for a pixel, that pixel only: on two screens that
    agree in the colour word and the animation byte of a cell, the same draw
    leaves the same word and byte in that cell, whatever the other cells
    hold. *)
Theorem Draw_is_local (mode : BlitterMode) (bp : BlitterParams) (zoom : ZoomLevel)
    (lines : list scanline) (sprite_width : Z) (t1 t2 : Target) (am1 am2 : mem) (q : Z) :
  screen_disable_anim t1 = false -> anim_buffer t1 = Some am1 ->
  screen_disable_anim t2 = false -> anim_buffer t2 = Some am2 ->
  recognized mode -> drawable bp zoom lines sprite_width ->
  screen_mem t1 q = screen_mem t2 q -> am1 q = am2 q ->
  exists t1' am1' t2' am2',
    Draw bp mode zoom t1 = Ok t1' /\ anim_buffer t1' = Some am1' /\
    Draw bp mode zoom t2 = Ok t2' /\ anim_buffer t2' = Some am2' /\
    screen_mem t1' q = screen_mem t2' q /\ am1' q = am2' q.
Proof.
  intros Hen1 Ham1 Hen2 Ham2 Hmode Hd Hc Ha.
  destruct (Draw_spec mode bp zoom lines sprite_width t1 am1 Hen1 Ham1 Hmode Hd)
    as (t1' & am1' & Hrun1 & Ham1' & Hm1).
  destruct (Draw_spec mode bp zoom lines sprite_width t2 am2 Hen2 Ham2 Hmode Hd)
    as (t2' & am2' & Hrun2 & Ham2' & Hm2).
  exists t1', am1', t2', am2'. repeat (split; [assumption|]).
  apply pix_eq. rewrite Hm1, Hm2. unfold drawn_pixel, pix. rewrite Hc, Ha. reflexivity.
Qed.

(** X7.  In the mode Normal an opaque pixel of the sprite (alpha 255)
    replaces what was there: the colour word is the word of the sprite, and
    the animation byte is the class [m] of the pixel, 0 or not. *)
Theorem Normal_opaque_copies_pixel (bp : BlitterParams) (zoom : ZoomLevel)
    (lines : list scanline) (sprite_width : Z) (t : Target) (am : mem) :
  screen_disable_anim t = false -> anim_buffer t = Some am ->
  drawable bp zoom lines sprite_width ->
  exists t' am',
    Draw bp Normal zoom t = Ok t' /\ anim_buffer t' = Some am' /\
    forall y x c m,
      0 <= y < bp_height bp -> 0 <= x < bp_width bp ->
      sprite_pixel lines (bp_skip_top bp + y) (bp_skip_left bp + x) = Some (c, m) ->
      Colour_a c = 255 ->
      screen_mem t' (draw_start bp + y * bp_pitch bp + x) = c /\ am' (draw_start bp + y * bp_pitch bp + x) = GB m 0 8.
Proof.
  intros Hen Ham Hd.
  destruct (Draw_pixels Normal bp zoom lines sprite_width t am Hen Ham I Hd)
    as (t' & am' & Hrun & Ham' & _ & Hin & _).
  exists t', am'. split; [exact Hrun|]. split; [exact Ham'|].
  intros y x c m Hy Hx Hpx Ha. specialize (Hin y x Hy Hx).
  rewrite Hpx in Hin. unfold blit_pixel in Hin. rewrite Ha in Hin.
  cbn [blend_pixel Z.eqb Pos.eqb] in Hin. injection Hin as Hc' Ha'. split; assumption.
Qed.

(** X8.  In the mode BlackRemap every pixel that the sprite covers, opaque
    or translucent and of whatever class, becomes black with the animation
    byte 0; and a second draw of the same sprite changes nothing any
    more. *)
Theorem BlackRemap_blackens_once (bp : BlitterParams) (zoom : ZoomLevel)
    (lines : list scanline) (sprite_width : Z) (t : Target) (am : mem) :
  screen_disable_anim t = false -> anim_buffer t = Some am ->
  drawable bp zoom lines sprite_width ->
  exists t1 am1 t2 am2,
    Draw bp BlackRemap zoom t = Ok t1 /\ anim_buffer t1 = Some am1 /\
    Draw bp BlackRemap zoom t1 = Ok t2 /\ anim_buffer t2 = Some am2 /\
    (forall y x cm,
       0 <= y < bp_height bp -> 0 <= x < bp_width bp ->
       sprite_pixel lines (bp_skip_top bp + y) (bp_skip_left bp + x) = Some cm ->
       screen_mem t1 (draw_start bp + y * bp_pitch bp + x) = _black_colour /\ am1 (draw_start bp + y * bp_pitch bp + x) = 0) /\
    (forall q, screen_mem t2 q = screen_mem t1 q /\ am2 q = am1 q).
Proof.
  intros Hen Ham Hd.
  destruct (Draw_pixels BlackRemap bp zoom lines sprite_width t am Hen Ham I Hd)
    as (t1 & am1 & Hrun1 & Ham1 & Ht1 & Hin & _).
  assert (Hen1 : screen_disable_anim t1 = false) by (rewrite Ht1; exact Hen).
  destruct (Draw_spec BlackRemap bp zoom lines sprite_width t am Hen Ham I Hd)
    as (t1' & am1' & Hrun1' & Ham1' & Hm1).
  rewrite Hrun1 in Hrun1'. injection Hrun1' as <-.
  rewrite Ham1 in Ham1'. injection Ham1' as <-.
  destruct (Draw_spec BlackRemap bp zoom lines sprite_width t1 am1 Hen1 Ham1 I Hd)
    as (t2 & am2 & Hrun2 & Ham2 & Hm2).
  exists t1, am1, t2, am2. repeat (split; [assumption|]). split.
  - intros y x [c m] Hy Hx Hpx. specialize (Hin y x Hy Hx). rewrite Hpx in Hin.
    cbn [blit_pixel blend_pixel] in Hin. injection Hin as Hc' Ha'. split; assumption.
  - intros q. apply pix_eq. specialize (Hm1 q). specialize (Hm2 q).
    rewrite Hm2. unfold drawn_pixel in *. cbv zeta in *.
    destruct (_ && _); trivial.
    destruct (sprite_pixel _ _ _) as [[c m]|]; cbn [blit_pixel blend_pixel] in *; trivial.
    now rewrite Hm1.
Qed.

(** X9.  In the mode Transparent an opaque pixel of the sprite darkens
    what is there and keeps the animation byte: the colour word becomes
    three quarters of the old word where the byte is 0, and of the
    brightness of the old word in the red channel where it is not.  A
    translucent pixel darkens the colour that the pixel shows and clears the
    byte.  The colour and the class of the pixel of the sprite play no
    part beyond its alpha. *)
Theorem Transparent_darkens (bp : BlitterParams) (zoom : ZoomLevel)
    (lines : list scanline) (sprite_width : Z) (t : Target) (am : mem) :
  screen_disable_anim t = false -> anim_buffer t = Some am ->
  drawable bp zoom lines sprite_width ->
  exists t' am',
    Draw bp Transparent zoom t = Ok t' /\ anim_buffer t' = Some am' /\
    forall y x c m,
      0 <= y < bp_height bp -> 0 <= x < bp_width bp ->
      sprite_pixel lines (bp_skip_top bp + y) (bp_skip_left bp + x) = Some (c, m) ->
      let d := screen_mem t (draw_start bp + y * bp_pitch bp + x) in
      let a := am (draw_start bp + y * bp_pitch bp + x) in
      (Colour_a c = 255 ->
       screen_mem t' (draw_start bp + y * bp_pitch bp + x) =
         MakeTransparent (if a =? 0 then d else Colour3 (GetColourBrightness d) 0 0) 3 4 /\
       am' (draw_start bp + y * bp_pitch bp + x) = a) /\
      (Colour_a c <> 255 ->
       screen_mem t' (draw_start bp + y * bp_pitch bp + x) =
         MakeTransparent (RealizeBlendedColour a d) (256 * 4 - Colour_a c) (256 * 4) /\
       am' (draw_start bp + y * bp_pitch bp + x) = 0).
Proof.
  intros Hen Ham Hd.
  destruct (Draw_pixels Transparent bp zoom lines sprite_width t am Hen Ham I Hd)
    as (t' & am' & Hrun & Ham' & _ & Hin & _).
  exists t', am'. split; [exact Hrun|]. split; [exact Ham'|].
  intros y x c m Hy Hx Hpx d a. specialize (Hin y x Hy Hx).
  rewrite Hpx in Hin. cbn [blit_pixel blend_pixel fst snd] in Hin. fold d a in Hin.
  split; intros Ha.
  - apply Z.eqb_eq in Ha. rewrite Ha in Hin. injection Hin as Hc' Ha'. split; assumption.
  - apply Z.eqb_neq in Ha. rewrite Ha in Hin. injection Hin as Hc' Ha'. split; assumption.
Qed.

(** X10.  In the mode TransparentRemap the sprite gives the shape only:
    under every pixel that it covers, a cell that is not animated gets the
    palette colour of the remapped nearest palette index of its colour and
    stays not animated, and an animated cell keeps its colour word and has
    its animation byte remapped. *)
Theorem TransparentRemap_recolours_destination (bp : BlitterParams) (zoom : ZoomLevel)
    (lines : list scanline) (sprite_width : Z) (t : Target) (am : mem) :
  screen_disable_anim t = false -> anim_buffer t = Some am ->
  drawable bp zoom lines sprite_width ->
  exists t' am',
    Draw bp TransparentRemap zoom t = Ok t' /\ anim_buffer t' = Some am' /\
    forall y x cm,
      0 <= y < bp_height bp -> 0 <= x < bp_width bp ->
      sprite_pixel lines (bp_skip_top bp + y) (bp_skip_left bp + x) = Some cm ->
      let d := screen_mem t (draw_start bp + y * bp_pitch bp + x) in
      let a := am (draw_start bp + y * bp_pitch bp + x) in
      (a = 0 ->
       screen_mem t' (draw_start bp + y * bp_pitch bp + x) =
         LookupColourInPalette (bp_remap bp (GetNearestColourIndex d)) /\
       am' (draw_start bp + y * bp_pitch bp + x) = 0) /\
      (a <> 0 ->
       screen_mem t' (draw_start bp + y * bp_pitch bp + x) = d /\ am' (draw_start bp + y * bp_pitch bp + x) = bp_remap bp a).
Proof.
  intros Hen Ham Hd.
  destruct (Draw_pixels TransparentRemap bp zoom lines sprite_width t am Hen Ham I Hd)
    as (t' & am' & Hrun & Ham' & _ & Hin & _).
  exists t', am'. split; [exact Hrun|]. split; [exact Ham'|].
  intros y x [c m] Hy Hx Hpx d a. specialize (Hin y x Hy Hx).
  rewrite Hpx in Hin. cbn [blit_pixel blend_pixel fst snd] in Hin. fold d a in Hin.
  split; intros Ha.
  - apply Z.eqb_eq in Ha. rewrite Ha in Hin. injection Hin as Hc' Ha'. split; assumption.
  - apply Z.eqb_neq in Ha. rewrite Ha in Hin. injection Hin as Hc' Ha'. split; assumption.
Qed.

(** X11.  In the modes ColourRemap and CrashRemap an opaque pixel of the
    sprite whose class [m] is remapped to an index other than 0 is drawn
    with its own colour word, not with a colour of the palette, and the
    remapped index goes to the animation byte. *)
Theorem remapped_opaque_pixel_keeps_colour (mode : BlitterMode) (bp : BlitterParams)
    (zoom : ZoomLevel) (lines : list scanline) (sprite_width : Z) (t : Target) (am : mem) :
  screen_disable_anim t = false -> anim_buffer t = Some am ->
  mode = ColourRemap \/ mode = CrashRemap ->
  drawable bp zoom lines sprite_width ->
  exists t' am',
    Draw bp mode zoom t = Ok t' /\ anim_buffer t' = Some am' /\
    forall y x c m,
      0 <= y < bp_height bp -> 0 <= x < bp_width bp ->
      sprite_pixel lines (bp_skip_top bp + y) (bp_skip_left bp + x) = Some (c, m) ->
      Colour_a c = 255 -> GB m 0 8 <> 0 -> bp_remap bp (GB m 0 8) <> 0 ->
      screen_mem t' (draw_start bp + y * bp_pitch bp + x) = c /\ am' (draw_start bp + y * bp_pitch bp + x) = bp_remap bp (GB m 0 8).
Proof.
  intros Hen Ham Hmode Hd.
  destruct (Draw_pixels mode bp zoom lines sprite_width t am Hen Ham
              ltac:(destruct Hmode as [-> | ->]; exact I) Hd)
    as (t' & am' & Hrun & Ham' & _ & Hin & _).
  exists t', am'. split; [exact Hrun|]. split; [exact Ham'|].
  intros y x c m Hy Hx Hpx Ha Hm0 Hr0. specialize (Hin y x Hy Hx).
  rewrite Hpx in Hin. unfold blit_pixel in Hin.
  apply Z.eqb_eq in Ha. apply Z.eqb_neq in Hm0. apply Z.eqb_neq in Hr0.
  destruct Hmode as [-> | ->]; cbn [blend_pixel] in Hin; rewrite Ha, Hm0, Hr0 in Hin;
    injection Hin as Hc' Ha'; split; assumption.
Qed.

(** X12.  CrashRemap parts from ColourRemap in the pixels of class 0 only,
    which it darkens: under a pixel of the sprite whose class is not 0 the
    two modes leave the same colour word and the same animation byte. *)
Theorem CrashRemap_is_ColourRemap_on_classes (bp : BlitterParams)
    (zoom : ZoomLevel) (lines : list scanline) (sprite_width : Z) (t : Target) (am : mem) :
  screen_disable_anim t = false -> anim_buffer t = Some am ->
  drawable bp zoom lines sprite_width ->
  exists t1 am1 t2 am2,
    Draw bp ColourRemap zoom t = Ok t1 /\ anim_buffer t1 = Some am1 /\
    Draw bp CrashRemap zoom t = Ok t2 /\ anim_buffer t2 = Some am2 /\
    forall y x c m,
      0 <= y < bp_height bp -> 0 <= x < bp_width bp ->
      sprite_pixel lines (bp_skip_top bp + y) (bp_skip_left bp + x) = Some (c, m) ->
      GB m 0 8 <> 0 ->
      screen_mem t1 (draw_start bp + y * bp_pitch bp + x) = screen_mem t2 (draw_start bp + y * bp_pitch bp + x) /\
      am1 (draw_start bp + y * bp_pitch bp + x) = am2 (draw_start bp + y * bp_pitch bp + x).
Proof.
  intros Hen Ham Hd.
  destruct (Draw_pixels ColourRemap bp zoom lines sprite_width t am Hen Ham I Hd)
    as (t1 & am1 & Hrun1 & Ham1 & _ & Hin1 & _).
  destruct (Draw_pixels CrashRemap bp zoom lines sprite_width t am Hen Ham I Hd)
    as (t2 & am2 & Hrun2 & Ham2 & _ & Hin2 & _).
  exists t1, am1, t2, am2. repeat (split; [assumption|]).
  intros y x c m Hy Hx Hpx Hm0.
  specialize (Hin1 y x Hy Hx). specialize (Hin2 y x Hy Hx).
  rewrite Hpx in Hin1, Hin2. unfold blit_pixel in Hin1, Hin2.
  apply Z.eqb_neq in Hm0. cbn [blend_pixel] in Hin1, Hin2. rewrite Hm0 in Hin1, Hin2.
  rewrite <- Hin2 in Hin1. injection Hin1 as Hc' Ha'. split; assumption.
Qed.

(** X13.  With a recolour table that maps every class to itself, the
    mode ColourRemap draws the colour words of the mode Normal, and the same
    animation bytes under every pixel of the sprite that is opaque or of
    class 0.  Under a translucent pixel with a class the two part: there
    ColourRemap clears the byte. *)
Theorem identity_remap_is_Normal (bp : BlitterParams) (zoom : ZoomLevel)
    (lines : list scanline) (sprite_width : Z) (t : Target) (am : mem) :
  screen_disable_anim t = false -> anim_buffer t = Some am ->
  drawable bp zoom lines sprite_width ->
  (forall m, m <> 0 -> bp_remap bp m = m) ->
  exists t1 am1 t2 am2,
    Draw bp ColourRemap zoom t = Ok t1 /\ anim_buffer t1 = Some am1 /\
    Draw bp Normal zoom t = Ok t2 /\ anim_buffer t2 = Some am2 /\
    (forall q, screen_mem t1 q = screen_mem t2 q) /\
    (forall y x c m,
       0 <= y < bp_height bp -> 0 <= x < bp_width bp ->
       sprite_pixel lines (bp_skip_top bp + y) (bp_skip_left bp + x) = Some (c, m) ->
       (Colour_a c = 255 \/ GB m 0 8 = 0 ->
        am1 (draw_start bp + y * bp_pitch bp + x) = am2 (draw_start bp + y * bp_pitch bp + x)) /\
       (Colour_a c <> 255 -> GB m 0 8 <> 0 ->
        am1 (draw_start bp + y * bp_pitch bp + x) = 0 /\
        am2 (draw_start bp + y * bp_pitch bp + x) = GB m 0 8)).
Proof.
  intros Hen Ham Hd Hid.
  destruct (Draw_spec ColourRemap bp zoom lines sprite_width t am Hen Ham I Hd)
    as (t1 & am1 & Hrun1 & Ham1 & Hm1).
  destruct (Draw_spec Normal bp zoom lines sprite_width t am Hen Ham I Hd)
    as (t2 & am2 & Hrun2 & Ham2 & Hm2).
  exists t1, am1, t2, am2. repeat (split; [assumption|]).
  assert (Hpx : forall c m d a opaque,
            fst (blend_pixel ColourRemap (bp_remap bp) opaque c m d a) =
              fst (blend_pixel Normal (bp_remap bp) opaque c m d a) /\
            (opaque = true \/ GB m 0 8 = 0 ->
             snd (blend_pixel ColourRemap (bp_remap bp) opaque c m d a) =
               snd (blend_pixel Normal (bp_remap bp) opaque c m d a)) /\
            (opaque = false -> GB m 0 8 <> 0 ->
             snd (blend_pixel ColourRemap (bp_remap bp) opaque c m d a) = 0 /\
             snd (blend_pixel Normal (bp_remap bp) opaque c m d a) = GB m 0 8)).
  { intros c m d a opaque. cbn [blend_pixel is_crash].
    destruct (Z.eqb_spec (GB m 0 8) 0) as [E|E].
    - split; [|split].
      + destruct opaque; reflexivity.
      + intros _. destruct opaque; cbn [snd]; [rewrite E|]; reflexivity.
      + intros _ H. contradiction.
    - rewrite (Hid _ E). apply Z.eqb_neq in E as E'. rewrite E'.
      split; [|split].
      + destruct opaque; reflexivity.
      + intros [->|H]; [reflexivity | contradiction].
      + intros -> _. split; reflexivity. }
  split.
  - intros q. specialize (Hm1 q). specialize (Hm2 q). unfold drawn_pixel in Hm1, Hm2.
    cbv zeta in Hm1, Hm2. apply (f_equal fst) in Hm1. apply (f_equal fst) in Hm2.
    cbn [pix fst] in Hm1, Hm2. rewrite Hm1, Hm2.
    destruct (_ && _); trivial.
    destruct (sprite_pixel _ _ _) as [[c m]|]; cbn [blit_pixel]; trivial. apply Hpx.
  - intros y x c m Hy Hx Hsp.
    specialize (Hm1 (draw_start bp + y * bp_pitch bp + x)).
    specialize (Hm2 (draw_start bp + y * bp_pitch bp + x)).
    rewrite drawn_pixel_in_rect, Hsp in Hm1, Hm2 by (trivial; apply Hd).
    apply (f_equal snd) in Hm1. apply (f_equal snd) in Hm2.
    cbn [pix snd blit_pixel] in Hm1, Hm2. rewrite Hm1, Hm2.
    destruct (Hpx c m (screen_mem t (draw_start bp + y * bp_pitch bp + x))
                (am (draw_start bp + y * bp_pitch bp + x)) (Colour_a c =? 255))
      as (_ & Hsame & Hpart).
    split.
    + intros [H|H]; apply Hsame; [left; now apply Z.eqb_eq | now right].
    + intros Ha Hm. apply Hpart; trivial. now apply Z.eqb_neq.
Qed.

(** X14.  A draw over a captured rectangle is undone by the restore: the
    rectangle of the draw is captured, the sprite is drawn in any of the six
    modes, and the capture is restored; then the whole screen is as before,
    colour words and animation bytes. *)
Theorem Draw_undone_by_restore (mode : BlitterMode) (bp : BlitterParams) (zoom : ZoomLevel)
    (lines : list scanline) (sprite_width : Z) (t : Target) (am : mem) (dst : mem) :
  screen_disable_anim t = false -> anim_buffer t = Some am -> recognized mode ->
  drawable bp zoom lines sprite_width ->
  bp_pitch bp = screen_pitch t -> video_in_screen t (draw_start bp) = true ->
  (forall y x, 0 <= y < bp_height bp -> 0 <= x < bp_width bp ->
     0 <= screen_mem t (draw_start bp + y * bp_pitch bp + x) < 2 ^ 32) ->
  exists buf t2 t3 am3,
    CopyToBuffer (draw_start bp) dst (bp_width bp) (bp_height bp) t = Ok buf /\
    Draw bp mode zoom t = Ok t2 /\
    CopyFromBuffer (draw_start bp) buf (bp_width bp) (bp_height bp) t2 = Ok t3 /\
    anim_buffer t3 = Some am3 /\
    forall q, screen_mem t3 q = screen_mem t q /\ am3 q = am q.
Proof.
  intros Hen Ham Hmode Hd Hp Hv Hty.
  assert (Hw : 0 <= bp_width bp) by (destruct Hd; lia).
  destruct (CopyToBuffer_returns t am (draw_start bp) (bp_width bp) (bp_height bp) dst
              Hen Hv Ham) as (buf & Hcap).
  destruct (Draw_pixels mode bp zoom lines sprite_width t am Hen Ham Hmode Hd)
    as (t2 & am2 & Hrun & Ham2 & Ht2 & _ & Hframe).
  destruct (CopyFromBuffer_restores t t2 am am2 (draw_start bp) (bp_width bp) (bp_height bp)
              dst buf) as (t3 & am3 & Hres & Ham3 & Hin & Hout); trivial.
  { rewrite Ht2. exact Hen. }
  { rewrite Ht2. exact Hv. }
  { rewrite Ht2. reflexivity. }
  { intros k i Hk Hi. specialize (Hty k i Hk Hi). rewrite Hp in Hty.
    now replace (draw_start bp + k * screen_pitch t + i)
      with (draw_start bp + k * screen_pitch t + i) by ring. }
  exists buf, t2, t3, am3. repeat (split; [assumption|]).
  intros q.
  destruct (in_rows_dec (bp_width bp) (screen_pitch t) (Z.to_nat (bp_height bp))
              (draw_start bp) q) as [(k & Hk & Hq)|Hno].
  - destruct (Hin k (q - (draw_start bp + k * screen_pitch t)) ltac:(lia) ltac:(lia))
      as [Hc Ha]. cbv zeta in Hc, Ha.
    replace (draw_start bp + k * screen_pitch t + (q - (draw_start bp + k * screen_pitch t)))
      with q in Hc, Ha by ring. now split.
  - assert (Hq : forall k i, 0 <= k < bp_height bp -> 0 <= i < bp_width bp ->
                   q <> draw_start bp + k * screen_pitch t + i).
    { intros k i Hk Hi ->. apply Hno. exists k. split; lia. }
    destruct (Hout q Hq) as [Hc Ha]. rewrite Hc, Ha.
    apply Hframe. intros y x Hy Hx. rewrite Hp. now apply Hq.
Qed.

End DrawExtras.

(** ** DrawLine *)

Lemma DrawLine_points_spec (pitch video anim : Z) (colour : PixelColour)
    (pts : list (Z * Z)) :
  forall bufs,
    let r := fold_left (DrawLine_set_pixel pitch video anim colour) pts bufs in
    (forall xy, In xy pts ->
       fst r (video + fst xy + snd xy * pitch) = _black_colour /\
       snd r (anim + fst xy + snd xy * pitch) = p colour) /\
    (forall q, (forall xy, In xy pts -> q <> video + fst xy + snd xy * pitch) ->
       fst r q = fst bufs q) /\
    (forall q, (forall xy, In xy pts -> q <> anim + fst xy + snd xy * pitch) ->
       snd r q = snd bufs q) /\
    (forall q, (fst r q = _black_colour \/ fst r q = fst bufs q) /\
               (snd r q = p colour \/ snd r q = snd bufs q)).
Proof.
  induction pts as [|pt pts IH]; intros bufs; cbn [fold_left].
  - split; [intros xy []|]. repeat split; auto.
  - specialize (IH (DrawLine_set_pixel pitch video anim colour bufs pt)).
    cbv zeta in IH. destruct IH as (IHin & IHc & IHa & IHany).
    cbv zeta. split; [|split; [|split]].
    + intros xy [Hxy|Hin]; [subst xy|now apply IHin].
      destruct (IHany (video + fst pt + snd pt * pitch)) as [Hc _].
      destruct (IHany (anim + fst pt + snd pt * pitch)) as [_ Ha].
      split.
      * destruct Hc as [Hc|Hc]; trivial. rewrite Hc.
        cbn [DrawLine_set_pixel fst]. apply store_eq.
      * destruct Ha as [Ha|Ha]; trivial. rewrite Ha.
        cbn [DrawLine_set_pixel snd]. apply store_eq.
    + intros q Hq. rewrite IHc by (intros xy Hin; apply Hq; now right).
      cbn [DrawLine_set_pixel fst]. apply store_neq. apply Hq. now left.
    + intros q Hq. rewrite IHa by (intros xy Hin; apply Hq; now right).
      cbn [DrawLine_set_pixel snd]. apply store_neq. apply Hq. now left.
    + intros q. destruct (IHany q) as [Hc Ha]. split.
      * destruct Hc as [Hc|Hc]; auto. rewrite Hc.
        cbn [DrawLine_set_pixel fst]. unfold store. destruct (_ =? _); auto.
      * destruct Ha as [Ha|Ha]; auto. rewrite Ha.
        cbn [DrawLine_set_pixel snd]. unfold store. destruct (_ =? _); auto.
Qed.

Section RestExtras.
Context {ops : ColourOps} {parent : ParentBlitter} {rest : ParentRest}
        {raster : LineRasteriser} {tables : RecolourTables}.

(** X15.  With animation enabled, [DrawLine] marks every point that the
    rasteriser visits the way [SetPixel] does, black in the colour buffer and
    [colour.p] at the same offset in the animation buffer, and changes no
    cell that the rasteriser does not visit. *)
Theorem DrawLine_marks_its_points (t : Target) (am : mem)
    (video x y x2 y2 screen_width screen_height : Z) (colour : PixelColour) (width dash : Z) :
  screen_disable_anim t = false -> anim_buffer t = Some am ->
  exists t' am',
    DrawLine video x y x2 y2 screen_width screen_height colour width dash t = Ok t' /\
    anim_buffer t' = Some am' /\
    (forall px py,
       In (px, py) (DrawLineGeneric x y x2 y2 screen_width screen_height width dash) ->
       screen_mem t' (video + px + py * screen_pitch t) = _black_colour /\
       am' (video + px + py * screen_pitch t) = p colour) /\
    (forall q,
       (forall px py,
          In (px, py) (DrawLineGeneric x y x2 y2 screen_width screen_height width dash) ->
          q <> video + px + py * screen_pitch t) ->
       screen_mem t' q = screen_mem t q /\ am' q = am q).
Proof.
  intros Hen Ham. unfold DrawLine. rewrite Hen, Ham.
  destruct (DrawLine_points_spec (screen_pitch t) video video colour
              (DrawLineGeneric x y x2 y2 screen_width screen_height width dash)
              (screen_mem t, am)) as (Hin & Hc & Ha & _).
  eexists _, _. split; [reflexivity|]. split; [reflexivity|].
  cbn [with_buffers screen_mem]. split.
  - intros px py Hp. exact (Hin (px, py) Hp).
  - intros q Hq. split; [apply Hc | apply Ha]; intros [px py] Hp; apply (Hq px py Hp).
Qed.

(** X16.  Where the pitch and the rows of the points are ints that are not
    negative, [DrawLine] is [SetPixel] called for the points of the
    rasteriser in their order: the two leave the same colour words and the
    same animation bytes. *)
Theorem DrawLine_is_SetPixel_at_each_point (t : Target) (am : mem)
    (video x y x2 y2 screen_width screen_height : Z) (colour : PixelColour) (width dash : Z) :
  screen_disable_anim t = false -> anim_buffer t = Some am ->
  0 <= screen_pitch t < 2 ^ 31 ->
  Forall (fun xy => 0 <= snd xy < 2 ^ 31)
         (DrawLineGeneric x y x2 y2 screen_width screen_height width dash) ->
  exists t1 am1 t2 am2,
    DrawLine video x y x2 y2 screen_width screen_height colour width dash t = Ok t1 /\
    anim_buffer t1 = Some am1 /\
    fold_left (fun r xy => t0 <- r ;; SetPixel video (fst xy) (snd xy) colour t0)
              (DrawLineGeneric x y x2 y2 screen_width screen_height width dash) (Ok t) = Ok t2 /\
    anim_buffer t2 = Some am2 /\
    forall q, screen_mem t1 q = screen_mem t2 q /\ am1 q = am2 q.
Proof.
  intros Hen Ham Hp Hpts. unfold DrawLine. rewrite Hen, Ham.
  generalize dependent am. generalize dependent t.
  induction (DrawLineGeneric x y x2 y2 screen_width screen_height width dash) as [|pt pts IH];
    intros t Hen Hp am Ham.
  - cbn [fold_left fst snd]. exists (with_buffers t (screen_mem t) (Some am)), am, t, am.
    repeat split; trivial.
  - apply Forall_cons_iff in Hpts as [Hpt Hpts]. cbn [fold_left].
    set (t0 := with_buffers t (store (screen_mem t) (video + fst pt + snd pt * screen_pitch t)
                                  _black_colour)
                 (Some (store am (video + fst pt + snd pt * screen_pitch t) (p colour)))).
    assert (Hset : SetPixel video (fst pt) (snd pt) colour t = Ok t0).
    { unfold SetPixel. rewrite Hen, Ham.
      rewrite (size_t_small (snd pt)), (size_t_small (screen_pitch t)) by lia.
      rewrite size_t_small by nia. reflexivity. }
    cbn [bind]. rewrite Hset.
    destruct (IH Hpts t0 Hen Hp _ eq_refl) as (t1 & am1 & t2 & am2 & H1 & Ham1 & H2 & Ham2 & Heq).
    injection H1 as <-. cbn [anim_buffer with_buffers] in Ham1. injection Ham1 as <-.
    eexists _, _, t2, am2. split; [reflexivity|]. split; [reflexivity|].
    split; [exact H2|]. split; [exact Ham2|]. exact Heq.
Qed.

End RestExtras.

(** ** DrawColourMappingRect *)

(** The loops of [DrawColourMappingRect] around a body that maps the pixel
    under the cursors by [g] and touches no other. *)
Section MappingLoops.
Variables (body : Z -> Z -> mem * mem -> mem * mem) (g : Z * Z -> Z * Z).
Hypothesis body_maps : forall u bufs q,
  pix (fst (body u u bufs)) (snd (body u u bufs)) q =
  if q =? u then g (pix (fst bufs) (snd bufs) u) else pix (fst bufs) (snd bufs) q.

Lemma mapping_row_spec (i : nat) :
  forall u bufs q,
    pix (fst (mapping_row i body u u bufs)) (snd (mapping_row i body u u bufs)) q =
    if (u <=? q) && (q <? u + Z.of_nat i) then g (pix (fst bufs) (snd bufs) q)
    else pix (fst bufs) (snd bufs) q.
Proof.
  induction i as [|i IH]; intros u bufs q; cbn [mapping_row].
  - destruct (Z.leb_spec u q), (Z.ltb_spec q (u + Z.of_nat 0)); cbn [andb]; trivial; lia.
  - rewrite IH, !body_maps.
    destruct (Z.leb_spec (u + 1) q), (Z.ltb_spec q (u + 1 + Z.of_nat i)), (Z.eqb_spec q u),
      (Z.leb_spec u q), (Z.ltb_spec q (u + Z.of_nat (S i))); cbn [andb]; trivial; try lia.
    now subst.
Qed.

Lemma mapping_rows_spec (pitch width : Z) (rows : nat) :
  0 <= width <= pitch ->
  forall u bufs q,
    let r := mapping_rows rows body pitch width u u bufs in
    (in_rows width pitch (S rows) u q -> pix (fst r) (snd r) q = g (pix (fst bufs) (snd bufs) q)) /\
    (~ in_rows width pitch (S rows) u q -> pix (fst r) (snd r) q = pix (fst bufs) (snd bufs) q).
Proof.
  intros Hw. induction rows as [|rows IH]; intros u bufs q; cbn [mapping_rows]; cbv zeta.
  - rewrite mapping_row_spec, Z2Nat.id by lia. split.
    + intros (k & Hk & Hq). assert (k = 0) as -> by lia.
      destruct (Z.leb_spec u q), (Z.ltb_spec q (u + width)); cbn [andb]; trivial; lia.
    + intros Hno.
      destruct (Z.leb_spec u q), (Z.ltb_spec q (u + width)); cbn [andb]; trivial.
      exfalso. apply Hno. exists 0. split; lia.
  - replace (u + width - width + pitch) with (u + pitch) by ring.
    specialize (IH (u + pitch) (mapping_row (Z.to_nat width) body u u bufs) q).
    cbv zeta in IH. destruct IH as [IHin IHout].
    assert (Hrow := mapping_row_spec (Z.to_nat width) u bufs).
    rewrite Z2Nat.id in Hrow by lia.
    destruct (in_rows_dec width pitch (S rows) (u + pitch) q) as [Hin|Hno].
    + split; [|intros Hn; exfalso; apply Hn].
      * intros _. rewrite (IHin Hin), Hrow. destruct Hin as (k & Hk & Hq).
        destruct (Z.leb_spec u q), (Z.ltb_spec q (u + width)); cbn [andb]; trivial. nia.
      * destruct Hin as (k & Hk & Hq). exists (k + 1). split; [lia|].
        replace (u + (k + 1) * pitch) with (u + pitch + k * pitch) by ring. exact Hq.
    + rewrite (IHout Hno), Hrow. split.
      * intros (k & Hk & Hq). destruct (Z.eq_dec k 0) as [->|Hk0].
        -- destruct (Z.leb_spec u q), (Z.ltb_spec q (u + width)); cbn [andb]; trivial; lia.
        -- exfalso. apply Hno. exists (k - 1). split; [lia|].
           replace (u + pitch + (k - 1) * pitch) with (u + k * pitch) by ring. exact Hq.
      * intros Hn.
        destruct (Z.leb_spec u q), (Z.ltb_spec q (u + width)); cbn [andb]; trivial.
        exfalso. apply Hn. exists 0. split; lia.
Qed.

End MappingLoops.

Section MappingExtras.
Context {ops : ColourOps} {rest : ParentRest} {tables : RecolourTables}.

Lemma mapping_transparent_maps (u : Z) (bufs : mem * mem) (q : Z) :
  pix (fst (mapping_transparent u u bufs)) (snd (mapping_transparent u u bufs)) q =
  if q =? u then
    (fun da => (MakeTransparent (if snd da =? 0 then fst da
                                 else Colour3 (GetColourBrightness (fst da)) 0 0) 154 256,
                snd da)) (pix (fst bufs) (snd bufs) u)
  else pix (fst bufs) (snd bufs) q.
Proof.
  destruct bufs as [cm am]. unfold mapping_transparent, pix, store. cbn [fst snd].
  destruct (Z.eqb_spec q u) as [->|]; reflexivity.
Qed.

Lemma mapping_newspaper_maps (remap : mem) (u : Z) (bufs : mem * mem) (q : Z) :
  pix (fst (mapping_newspaper remap u u bufs)) (snd (mapping_newspaper remap u u bufs)) q =
  if q =? u then
    (fun da => if snd da =? 0 then (MakeGrey (fst da), snd da) else (fst da, remap (snd da)))
      (pix (fst bufs) (snd bufs) u)
  else pix (fst bufs) (snd bufs) q.
Proof.
  destruct bufs as [cm am]. unfold mapping_newspaper, pix. cbn [fst snd].
  destruct (am u =? 0) eqn:E; cbn [fst snd]; unfold store;
    destruct (Z.eqb_spec q u) as [->|]; rewrite ?E; reflexivity.
Qed.

Lemma mapping_recolour_maps (remap : mem) (u : Z) (bufs : mem * mem) (q : Z) :
  pix (fst (mapping_recolour remap u u bufs)) (snd (mapping_recolour remap u u bufs)) q =
  if q =? u then
    (fun da => if snd da =? 0 then da else (fst da, remap (snd da)))
      (pix (fst bufs) (snd bufs) u)
  else pix (fst bufs) (snd bufs) q.
Proof.
  destruct bufs as [cm am]. unfold mapping_recolour, pix. cbn [fst snd].
  destruct (am u =? 0) eqn:E; cbn [fst snd]; unfold store;
    destruct (Z.eqb_spec q u) as [->|]; rewrite ?E; reflexivity.
Qed.

(** What [DrawColourMappingRect] does, pixel by pixel. *)
Lemma DrawColourMappingRect_pixels (t : Target) (am : mem) (dst width height pal : Z) :
  screen_disable_anim t = false -> anim_buffer t = Some am ->
  0 <= width <= screen_pitch t -> 1 <= height ->
  exists t' am',
    DrawColourMappingRect dst width height pal t = Ok t' /\ anim_buffer t' = Some am' /\
    (forall k i, 0 <= k < height -> 0 <= i < width ->
       let q := dst + k * screen_pitch t + i in
       let d := screen_mem t q in
       let a := am q in
       (screen_mem t' q, am' q) =
         if pal =? PALETTE_TO_TRANSPARENT then
           (MakeTransparent (if a =? 0 then d else Colour3 (GetColourBrightness d) 0 0) 154 256, a)
         else if pal =? PALETTE_NEWSPAPER then
           if a =? 0 then (MakeGrey d, a) else (d, GetNonSprite_Recolour pal (a + 1))
         else
           if a =? 0 then (d, a) else (d, GetNonSprite_Recolour pal (a + 1))) /\
    (forall q, (forall k i, 0 <= k < height -> 0 <= i < width ->
                  q <> dst + k * screen_pitch t + i) ->
       screen_mem t' q = screen_mem t q /\ am' q = am q).
Proof.
  intros Hen Ham Hw Hh. unfold DrawColourMappingRect. rewrite Hen, Ham.
  destruct (Z.ltb_spec width 0) as [|_]; [lia|].
  destruct (Z.leb_spec height 0) as [|_]; [lia|]. cbn [orb].
  eexists _, _. split; [reflexivity|]. split; [reflexivity|].
  cbn [with_buffers screen_mem].
  assert (Hrect : forall q k i, 0 <= k < height -> 0 <= i < width ->
            q = dst + k * screen_pitch t + i ->
            in_rows width (screen_pitch t) (S (Z.to_nat (height - 1))) dst q).
  { intros q k i Hk Hi ->. exists k. split; lia. }
  assert (Hout : forall q, (forall k i, 0 <= k < height -> 0 <= i < width ->
                              q <> dst + k * screen_pitch t + i) ->
            ~ in_rows width (screen_pitch t) (S (Z.to_nat (height - 1))) dst q).
  { intros q Hq (k & Hk & Hqk).
    apply (Hq k (q - (dst + k * screen_pitch t))); lia. }
  destruct (pal =? PALETTE_TO_TRANSPARENT); [|destruct (pal =? PALETTE_NEWSPAPER)].
  - pose proof (mapping_rows_spec _ _ mapping_transparent_maps (screen_pitch t) width
                  (Z.to_nat (height - 1)) Hw dst (screen_mem t, am)) as Hs.
    cbv zeta in Hs. split.
    + intros k i Hk Hi. destruct (Hs (dst + k * screen_pitch t + i)) as [Hin _].
      exact (Hin (Hrect _ k i Hk Hi eq_refl)).
    + intros q Hq. apply pix_eq. destruct (Hs q) as [_ Hno]. apply (Hno (Hout q Hq)).
  - pose proof (mapping_rows_spec _ _ (mapping_newspaper_maps (recolour_remap pal))
                  (screen_pitch t) width (Z.to_nat (height - 1)) Hw dst (screen_mem t, am))
      as Hs.
    cbv zeta in Hs. split.
    + intros k i Hk Hi. destruct (Hs (dst + k * screen_pitch t + i)) as [Hin _].
      exact (Hin (Hrect _ k i Hk Hi eq_refl)).
    + intros q Hq. apply pix_eq. destruct (Hs q) as [_ Hno]. apply (Hno (Hout q Hq)).
  - pose proof (mapping_rows_spec _ _ (mapping_recolour_maps (recolour_remap pal))
                  (screen_pitch t) width (Z.to_nat (height - 1)) Hw dst (screen_mem t, am))
      as Hs.
    cbv zeta in Hs. split.
    + intros k i Hk Hi. destruct (Hs (dst + k * screen_pitch t + i)) as [Hin _].
      exact (Hin (Hrect _ k i Hk Hi eq_refl)).
    + intros q Hq. apply pix_eq. destruct (Hs q) as [_ Hno]. apply (Hno (Hout q Hq)).
Qed.

End MappingExtras.

Section MappingTheorems.
Context {ops : ColourOps} {rest : ParentRest} {tables : RecolourTables}.

(** X17.  [DrawColourMappingRect] returns for a rectangle of at least one
    row that fits the pitch, changes no pixel outside the rectangle, and
    animates no pixel: an animation byte that is 0 stays 0, whatever the
    palette. *)
Theorem DrawColourMappingRect_frame (t : Target) (am : mem) (dst width height pal : Z) :
  screen_disable_anim t = false -> anim_buffer t = Some am ->
  0 <= width <= screen_pitch t -> 1 <= height ->
  exists t' am',
    DrawColourMappingRect dst width height pal t = Ok t' /\ anim_buffer t' = Some am' /\
    (forall q, (forall k i, 0 <= k < height -> 0 <= i < width ->
                  q <> dst + k * screen_pitch t + i) ->
       screen_mem t' q = screen_mem t q /\ am' q = am q) /\
    (forall q, am q = 0 -> am' q = 0).
Proof.
  intros Hen Ham Hw Hh.
  destruct (DrawColourMappingRect_pixels t am dst width height pal Hen Ham Hw Hh)
    as (t' & am' & Hrun & Ham' & Hin & Hout).
  exists t', am'. repeat (split; [assumption|]).
  intros q Ha.
  destruct (in_rows_dec width (screen_pitch t) (Z.to_nat height) dst q)
    as [(k & Hk & Hq)|Hno].
  - specialize (Hin k (q - (dst + k * screen_pitch t)) ltac:(lia) ltac:(lia)).
    cbv zeta in Hin.
    replace (dst + k * screen_pitch t + (q - (dst + k * screen_pitch t))) with q in Hin by ring.
    rewrite Ha in Hin. cbn [Z.eqb] in Hin.
    destruct (pal =? PALETTE_TO_TRANSPARENT); [|destruct (pal =? PALETTE_NEWSPAPER)];
      injection Hin as _ Ha'; exact Ha'.
  - rewrite <- Ha. apply Hout. intros k i Hk Hi ->. apply Hno. exists k. split; lia.
Qed.

(** X18.  With the palette PALETTE_TO_TRANSPARENT the animation buffer is
    not written at all, and every colour word of the rectangle is darkened
    to 154/256: the word itself where the pixel is not animated, and its
    brightness, put in the red channel, where it is. *)
Theorem DrawColourMappingRect_transparent (t : Target) (am : mem) (dst width height pal : Z) :
  screen_disable_anim t = false -> anim_buffer t = Some am ->
  0 <= width <= screen_pitch t -> 1 <= height ->
  pal = PALETTE_TO_TRANSPARENT ->
  exists t' am',
    DrawColourMappingRect dst width height pal t = Ok t' /\ anim_buffer t' = Some am' /\
    (forall q, am' q = am q) /\
    (forall k i, 0 <= k < height -> 0 <= i < width ->
       let q := dst + k * screen_pitch t + i in
       screen_mem t' q =
         MakeTransparent (if am q =? 0 then screen_mem t q
                          else Colour3 (GetColourBrightness (screen_mem t q)) 0 0) 154 256).
Proof.
  intros Hen Ham Hw Hh Hpal.
  destruct (DrawColourMappingRect_pixels t am dst width height pal Hen Ham Hw Hh)
    as (t' & am' & Hrun & Ham' & Hin & Hout).
  exists t', am'. repeat (split; [assumption|]).
  apply Z.eqb_eq in Hpal. split.
  - intros q.
    destruct (in_rows_dec width (screen_pitch t) (Z.to_nat height) dst q)
      as [(k & Hk & Hq)|Hno].
    + specialize (Hin k (q - (dst + k * screen_pitch t)) ltac:(lia) ltac:(lia)).
      cbv zeta in Hin.
      replace (dst + k * screen_pitch t + (q - (dst + k * screen_pitch t))) with q in Hin
        by ring.
      rewrite Hpal in Hin. injection Hin as _ Ha'. exact Ha'.
    + apply Hout. intros k i Hk Hi ->. apply Hno. exists k. split; lia.
  - intros k i Hk Hi q. specialize (Hin k i Hk Hi). cbv zeta in Hin. fold q in Hin.
    rewrite Hpal in Hin. injection Hin as Hc' _. exact Hc'.
Qed.

(** X19.  With the palette PALETTE_NEWSPAPER a pixel of the rectangle is
    changed in one buffer only: a pixel that is not animated has its colour
    word made grey and stays not animated, an animated pixel keeps its
    colour word and has its animation byte [a] replaced by the byte at
    [a + 1] of the recolour sprite. *)
Theorem DrawColourMappingRect_newspaper (t : Target) (am : mem) (dst width height pal : Z) :
  screen_disable_anim t = false -> anim_buffer t = Some am ->
  0 <= width <= screen_pitch t -> 1 <= height ->
  pal <> PALETTE_TO_TRANSPARENT -> pal = PALETTE_NEWSPAPER ->
  exists t' am',
    DrawColourMappingRect dst width height pal t = Ok t' /\ anim_buffer t' = Some am' /\
    forall k i, 0 <= k < height -> 0 <= i < width ->
      let q := dst + k * screen_pitch t + i in
      (am q = 0 -> screen_mem t' q = MakeGrey (screen_mem t q) /\ am' q = 0) /\
      (am q <> 0 ->
       screen_mem t' q = screen_mem t q /\ am' q = GetNonSprite_Recolour pal (am q + 1)).
Proof.
  intros Hen Ham Hw Hh Hpal1 Hpal2.
  destruct (DrawColourMappingRect_pixels t am dst width height pal Hen Ham Hw Hh)
    as (t' & am' & Hrun & Ham' & Hin & Hout).
  exists t', am'. repeat (split; [assumption|]).
  apply Z.eqb_neq in Hpal1. apply Z.eqb_eq in Hpal2.
  intros k i Hk Hi q. specialize (Hin k i Hk Hi). cbv zeta in Hin. fold q in Hin.
  rewrite Hpal1, Hpal2 in Hin. split; intros Ha.
  - rewrite Ha in Hin. cbn [Z.eqb] in Hin. injection Hin as Hc' Ha'. split; assumption.
  - apply Z.eqb_neq in Ha. rewrite Ha in Hin. injection Hin as Hc' Ha'. split; assumption.
Qed.

(** X20.  With any other palette the colour buffer is not written at all:
    the recolouring is done in the animation buffer only, where every byte
    [a] of the rectangle that is not 0 is replaced by the byte at [a + 1] of
    the recolour sprite.  A pixel that is not animated is not recoloured. *)
Theorem DrawColourMappingRect_recolours_animated_only (t : Target) (am : mem)
    (dst width height pal : Z) :
  screen_disable_anim t = false -> anim_buffer t = Some am ->
  0 <= width <= screen_pitch t -> 1 <= height ->
  pal <> PALETTE_TO_TRANSPARENT -> pal <> PALETTE_NEWSPAPER ->
  exists t' am',
    DrawColourMappingRect dst width height pal t = Ok t' /\ anim_buffer t' = Some am' /\
    (forall q, screen_mem t' q = screen_mem t q) /\
    (forall k i, 0 <= k < height -> 0 <= i < width ->
       let q := dst + k * screen_pitch t + i in
       am' q = if am q =? 0 then 0 else GetNonSprite_Recolour pal (am q + 1)).
Proof.
  intros Hen Ham Hw Hh Hpal1 Hpal2.
  destruct (DrawColourMappingRect_pixels t am dst width height pal Hen Ham Hw Hh)
    as (t' & am' & Hrun & Ham' & Hin & Hout).
  exists t', am'. repeat (split; [assumption|]).
  apply Z.eqb_neq in Hpal1. apply Z.eqb_neq in Hpal2. split.
  - intros q.
    destruct (in_rows_dec width (screen_pitch t) (Z.to_nat height) dst q)
      as [(k & Hk & Hq)|Hno].
    + specialize (Hin k (q - (dst + k * screen_pitch t)) ltac:(lia) ltac:(lia)).
      cbv zeta in Hin.
      replace (dst + k * screen_pitch t + (q - (dst + k * screen_pitch t))) with q in Hin
        by ring.
      rewrite Hpal1, Hpal2 in Hin. destruct (am q =? 0); injection Hin as Hc' _; exact Hc'.
    + apply Hout. intros k i Hk Hi ->. apply Hno. exists k. split; lia.
  - intros k i Hk Hi q. specialize (Hin k i Hk Hi). cbv zeta in Hin. fold q in Hin.
    rewrite Hpal1, Hpal2 in Hin. destruct (Z.eqb_spec (am q) 0) as [E|E];
      injection Hin as _ Ha'; rewrite Ha'; trivial.
Qed.

End MappingTheorems.

(** ** CopyImageToBuffer *)

Section ImageExtras.
Context {ops : ColourOps} {parent : ParentBlitter} {rest : ParentRest}.

Lemma CopyImageToBuffer_row_spec (cm am : mem) (src anim_line udst : Z) (todo : nat) :
  forall x dst c,
    CopyImageToBuffer_row todo x cm am src anim_line dst udst c =
    if (udst + x <=? c) && (c <? udst + x + Z.of_nat todo)
    then RealizeBlendedColour (am (anim_line + (c - udst))) (cm (src + (c - udst)))
    else dst c.
Proof.
  induction todo as [|todo IH]; intros x dst c; cbn [CopyImageToBuffer_row].
  - destruct (Z.leb_spec (udst + x) c), (Z.ltb_spec c (udst + x + Z.of_nat 0)); cbn [andb];
      trivial; lia.
  - rewrite IH. unfold store.
    destruct (Z.leb_spec (udst + (x + 1)) c), (Z.ltb_spec c (udst + (x + 1) + Z.of_nat todo)),
      (Z.leb_spec (udst + x) c), (Z.ltb_spec c (udst + x + Z.of_nat (S todo))),
      (Z.eqb_spec c (udst + x)); cbn [andb]; trivial; try lia.
    subst c. now replace (udst + x - udst) with x by ring.
Qed.

Lemma CopyImageToBuffer_rows_spec (pitch width dst_pitch : Z) (cm am : mem) (height : nat) :
  0 <= width <= dst_pitch ->
  forall src anim_line dst udst,
    let img := CopyImageToBuffer_rows height pitch width dst_pitch cm am src anim_line dst udst in
    (forall k x, 0 <= k < Z.of_nat height -> 0 <= x < width ->
       img (udst + k * dst_pitch + x) =
       RealizeBlendedColour (am (anim_line + k * pitch + x)) (cm (src + k * pitch + x))) /\
    (forall c, ~ in_rows width dst_pitch height udst c -> img c = dst c).
Proof.
  intros Hw. induction height as [|height IH]; intros src anim_line dst udst;
    cbn [CopyImageToBuffer_rows]; cbv zeta.
  - split; [lia | trivial].
  - specialize (IH (src + pitch) (anim_line + pitch)
                   (CopyImageToBuffer_row (Z.to_nat width) 0 cm am src anim_line dst udst)
                   (udst + dst_pitch)).
    cbv zeta in IH. destruct IH as [IHin IHout].
    assert (Hrow := CopyImageToBuffer_row_spec cm am src anim_line udst (Z.to_nat width) 0 dst).
    rewrite Z2Nat.id in Hrow by lia. split.
    + intros k x Hk Hx. destruct (Z.eq_dec k 0) as [->|Hk0].
      * rewrite IHout.
        -- rewrite Hrow.
           destruct (Z.leb_spec (udst + 0) (udst + 0 * dst_pitch + x)),
             (Z.ltb_spec (udst + 0 * dst_pitch + x) (udst + 0 + width)); cbn [andb]; try lia.
           f_equal; f_equal; ring.
        -- intros (j & Hj & Hq). nia.
      * specialize (IHin (k - 1) x ltac:(lia) Hx).
        replace (udst + dst_pitch + (k - 1) * dst_pitch + x) with (udst + k * dst_pitch + x)
          in IHin by ring.
        rewrite IHin. f_equal; f_equal; ring.
    + intros c Hno. rewrite IHout.
      * rewrite Hrow.
        destruct (Z.leb_spec (udst + 0) c), (Z.ltb_spec c (udst + 0 + width)); cbn [andb];
          trivial.
        exfalso. apply Hno. exists 0. split; lia.
      * intros (j & Hj & Hq). apply Hno. exists (j + 1). split; [lia|].
        replace (udst + (j + 1) * dst_pitch) with (udst + dst_pitch + j * dst_pitch) by ring.
        exact Hq.
Qed.

(** X21.  With an animation buffer, [CopyImageToBuffer] puts into the
    image, row by row at a distance of [dst_pitch] cells, the colour that
    each pixel of the rectangle shows, [RealizeBlendedColour] of its
    animation byte and its colour word, and writes no other cell of the
    image. *)
Theorem CopyImageToBuffer_realizes_pixels (t : Target) (am : mem) (video : Z) (dst : mem)
    (width height dst_pitch : Z) :
  anim_buffer t = Some am -> 0 <= width <= dst_pitch ->
  let img := CopyImageToBuffer video dst width height dst_pitch t in
  (forall k x, 0 <= k < height -> 0 <= x < width ->
     img (k * dst_pitch + x) =
     RealizeBlendedColour (am (video + k * screen_pitch t + x))
                          (screen_mem t (video + k * screen_pitch t + x))) /\
  (forall c, (forall k x, 0 <= k < height -> 0 <= x < width -> c <> k * dst_pitch + x) ->
     img c = dst c).
Proof.
  intros Ham Hw img. unfold img, CopyImageToBuffer. rewrite Ham.
  destruct (CopyImageToBuffer_rows_spec (screen_pitch t) width dst_pitch (screen_mem t) am
              (Z.to_nat height) Hw video video dst 0) as [Hin Hout].
  split.
  - intros k x Hk Hx. specialize (Hin k x ltac:(lia) Hx).
    rewrite Z.add_0_l in Hin. exact Hin.
  - intros c Hc. apply Hout. intros (k & Hk & Hq).
    apply (Hc k (c - k * dst_pitch)); lia.
Qed.

(** X22.  A rectangle filled by [DrawRect] shows, in the image that
    [CopyImageToBuffer] takes of it, in every cell the colour of the palette
    index [colour.p] realized over black: the colour word that [DrawRect]
    was given plays no part. *)
Theorem DrawRect_shows_palette_colour (t : Target) (am : mem) (video width height : Z)
    (colour : PixelColour) (dst : mem) (dst_pitch : Z) :
  screen_disable_anim t = false -> anim_buffer t = Some am ->
  1 <= height -> 0 <= width <= dst_pitch ->
  exists t',
    DrawRect video width height colour t = Ok t' /\
    forall k x, 0 <= k < height -> 0 <= x < width ->
      CopyImageToBuffer video dst width height dst_pitch t' (k * dst_pitch + x) =
      RealizeBlendedColour (p colour) _black_colour.
Proof.
  intros Hen Ham Hh Hw.
  unfold DrawRect. rewrite Hen, Ham.
  destruct (Z.leb_spec height 0) as [|_]; [lia|].
  destruct (DrawRect_rows_spec colour (screen_pitch t) width (Z.to_nat (height - 1))
              video video (screen_mem t) am) as (_ & _ & Hin).
  destruct (DrawRect_rows (Z.to_nat (height - 1)) (screen_pitch t) video video width colour
              (screen_mem t) am) as [cm1 am1].
  cbn [fst snd] in Hin. eexists. split; [reflexivity|].
  intros k x Hk Hx.
  unfold CopyImageToBuffer. cbn [with_buffers anim_buffer screen_mem screen_pitch].
  destruct (CopyImageToBuffer_rows_spec (screen_pitch t) width dst_pitch cm1 am1
              (Z.to_nat height) Hw video video dst 0) as [Himg _].
  specialize (Himg k x ltac:(lia) Hx). rewrite Z.add_0_l in Himg. rewrite Himg.
  destruct (Hin k x ltac:(lia) Hx) as [Hc Ha].
  replace (video + k * screen_pitch t + x) with (video + x + k * screen_pitch t) by ring.
  now rewrite Hc, Ha.
Qed.

End ImageExtras.

(** ** The same on the sample data *)

Lemma sample_identity_drawable : drawable sample_identity_bp 0%nat sample_lines 5.
Proof.
  constructor; cbn [sample_identity_bp bp_sprite_px bp_sprite_n bp_skip_top bp_skip_left
    bp_width bp_height bp_pitch]; try lia.
  - exists []. now rewrite app_nil_r.
  - exists []. now rewrite app_nil_r.
  - valid_sample_lines.
  - cbn. lia.
  - cbn. lia.
Defined.

Lemma DrawRect_frame_witness :
  exists t' am',
    DrawRect (parent := sample_parent) 9 2 2 {| p := 7 |} sample_screen = Ok t' /\
    anim_buffer t' = Some am' /\
    screen_mem t' 11 = Colour3 64 64 64 /\ am' 11 = 0.
Proof.
  destruct (DrawRect_frame (parent := sample_parent) sample_screen (fun _ => 0) 9 2 2
              {| p := 7 |} eq_refl eq_refl ltac:(lia)) as (t' & am' & Hrun & Ham & Hout & _).
  exists t', am'. split; [exact Hrun|]. split; [exact Ham|].
  apply (Hout 11). intros j i Hj Hi. change (screen_pitch sample_screen) with 8. lia.
Defined.

Lemma SetPixel_is_DrawRect_of_one_pixel_witness :
  exists t1 am1 t2 am2,
    SetPixel (parent := sample_parent) 0 3 2 {| p := 9 |} sample_screen = Ok t1 /\
    anim_buffer t1 = Some am1 /\
    DrawRect (parent := sample_parent) (0 + 3 + 2 * 8) 1 1 {| p := 9 |} sample_screen = Ok t2 /\
    anim_buffer t2 = Some am2 /\
    forall q, screen_mem t1 q = screen_mem t2 q /\ am1 q = am2 q.
Proof.
  apply (SetPixel_is_DrawRect_of_one_pixel (parent := sample_parent) sample_screen
           (fun _ => 0) 0 3 2 {| p := 9 |} eq_refl eq_refl); cbn; lia.
Defined.

Lemma CopyToBuffer_layout_witness :
  exists buf,
    CopyToBuffer 9 sample_saved 2 2 sample_screen = Ok buf /\
    load32 buf (5 * 2 * 1 + 4 * 1) = Colour3 64 64 64 mod 2 ^ 32 /\
    buf (5 * 2 * 1 + 4 * 2 + 1) = 0.
Proof.
  destruct (CopyToBuffer_layout sample_screen (fun _ => 0) 9 2 2 sample_saved
              eq_refl eq_refl eq_refl ltac:(lia)) as (buf & Hrun & Hlay).
  exists buf. split; [exact Hrun|]. apply (Hlay 1 1); lia.
Defined.

Lemma DrawRect_undone_by_restore_witness :
  exists buf t2 t3 am3,
    CopyToBuffer 9 sample_saved 2 2 sample_screen = Ok buf /\
    DrawRect (parent := sample_parent) 9 2 2 {| p := 7 |} sample_screen = Ok t2 /\
    CopyFromBuffer 9 buf 2 2 t2 = Ok t3 /\
    anim_buffer t3 = Some am3 /\
    forall q, screen_mem t3 q = Colour3 64 64 64 /\ am3 q = 0.
Proof.
  apply (DrawRect_undone_by_restore (parent := sample_parent) sample_screen (fun _ => 0)
           9 2 2 {| p := 7 |} sample_saved eq_refl eq_refl eq_refl); try lia.
  intros k i _ _. cbn. lia.
Defined.

Lemma Draw_frame_witness :
  exists t' am',
    Draw (ops := sample_ops) (parent := sample_parent) sample_bp Normal 0%nat
         sample_screen = Ok t' /\
    anim_buffer t' = Some am' /\
    screen_mem t' 14 = Colour3 64 64 64 /\ am' 14 = 0.
Proof.
  destruct (Draw_frame (ops := sample_ops) (parent := sample_parent) Normal sample_bp 0%nat
              sample_lines 5 sample_screen (fun _ => 0) eq_refl eq_refl I sample_drawable)
    as (t' & am' & Hrun & Ham & Hout).
  exists t', am'. split; [exact Hrun|]. split; [exact Ham|].
  apply (Hout 14). intros y x Hy Hx.
  change (draw_start sample_bp) with 10. change (bp_pitch sample_bp) with 8.
  change (bp_width sample_bp) with 4 in Hx. lia.
Defined.

Lemma Draw_is_local_witness :
  exists t1' am1' t2' am2',
    Draw (ops := sample_ops) (parent := sample_parent) sample_bp Normal 0%nat
         sample_screen = Ok t1' /\
    anim_buffer t1' = Some am1' /\
    Draw (ops := sample_ops) (parent := sample_parent) sample_bp Normal 0%nat
         (with_buffers sample_screen (fun q => if q =? 10 then Colour3 64 64 64 else 0)
                       (Some (fun q => if q =? 10 then 0 else 9))) = Ok t2' /\
    anim_buffer t2' = Some am2' /\
    screen_mem t1' 10 = screen_mem t2' 10 /\ am1' 10 = am2' 10.
Proof.
  apply (Draw_is_local (ops := sample_ops) (parent := sample_parent) Normal sample_bp 0%nat
           sample_lines 5 sample_screen
           (with_buffers sample_screen (fun q => if q =? 10 then Colour3 64 64 64 else 0)
                         (Some (fun q => if q =? 10 then 0 else 9)))
           (fun _ => 0) (fun q => if q =? 10 then 0 else 9) 10
           eq_refl eq_refl eq_refl eq_refl I sample_drawable eq_refl eq_refl).
Defined.

Lemma Normal_opaque_copies_pixel_witness :
  exists t' am',
    Draw (ops := sample_ops) (parent := sample_parent) sample_bp Normal 0%nat
         sample_screen = Ok t' /\
    anim_buffer t' = Some am' /\
    screen_mem t' (draw_start sample_bp + 0 * 8 + 1) = green /\
    am' (draw_start sample_bp + 0 * 8 + 1) = 5.
Proof.
  destruct (Normal_opaque_copies_pixel (ops := sample_ops) (parent := sample_parent) sample_bp
              0%nat sample_lines 5 sample_screen (fun _ => 0) eq_refl eq_refl sample_drawable)
    as (t' & am' & Hrun & Ham & Hpx).
  exists t', am'. split; [exact Hrun|]. split; [exact Ham|].
  apply (Hpx 0 1 green 5); try (cbn; lia); reflexivity.
Defined.

Lemma BlackRemap_blackens_once_witness :
  exists t1 am1 t2 am2,
    Draw (ops := sample_ops) (parent := sample_parent) sample_bp BlackRemap 0%nat
         sample_screen = Ok t1 /\
    anim_buffer t1 = Some am1 /\
    Draw (ops := sample_ops) (parent := sample_parent) sample_bp BlackRemap 0%nat t1 = Ok t2 /\
    anim_buffer t2 = Some am2 /\
    (screen_mem t1 (draw_start sample_bp + 0 * 8 + 2) = _black_colour /\
     am1 (draw_start sample_bp + 0 * 8 + 2) = 0) /\
    (forall q, screen_mem t2 q = screen_mem t1 q /\ am2 q = am1 q).
Proof.
  destruct (BlackRemap_blackens_once (ops := sample_ops) (parent := sample_parent) sample_bp
              0%nat sample_lines 5 sample_screen (fun _ => 0) eq_refl eq_refl sample_drawable)
    as (t1 & am1 & t2 & am2 & Hrun1 & Ham1 & Hrun2 & Ham2 & Hpx & Hsame).
  exists t1, am1, t2, am2. repeat (split; [assumption|]). split; [|exact Hsame].
  apply (Hpx 0 2 (glass, 7)); try (cbn; lia); reflexivity.
Defined.

Lemma Transparent_darkens_witness :
  exists t' am',
    Draw (ops := sample_ops) (parent := sample_parent) sample_bp Transparent 0%nat
         sample_screen = Ok t' /\
    anim_buffer t' = Some am' /\
    (screen_mem t' (draw_start sample_bp + 0 * 8 + 0) =
       MakeTransparent (ColourOps := sample_ops) (Colour3 64 64 64) 3 4 /\
     am' (draw_start sample_bp + 0 * 8 + 0) = 0) /\
    (screen_mem t' (draw_start sample_bp + 0 * 8 + 2) =
       MakeTransparent (ColourOps := sample_ops) (Colour3 64 64 64) (256 * 4 - 128) (256 * 4) /\
     am' (draw_start sample_bp + 0 * 8 + 2) = 0).
Proof.
  destruct (Transparent_darkens (ops := sample_ops) (parent := sample_parent) sample_bp
              0%nat sample_lines 5 sample_screen (fun _ => 0) eq_refl eq_refl sample_drawable)
    as (t' & am' & Hrun & Ham & Hpx).
  exists t', am'. split; [exact Hrun|]. split; [exact Ham|]. split.
  - destruct (Hpx 0 0 red 0) as [Hop _]; try (cbn; lia); try reflexivity.
    exact (Hop eq_refl).
  - destruct (Hpx 0 2 glass 7) as [_ Htr]; try (cbn; lia); try reflexivity.
    apply Htr. discriminate.
Defined.

Lemma TransparentRemap_recolours_destination_witness :
  exists t' am',
    Draw (ops := sample_ops) (parent := sample_parent) sample_bp TransparentRemap 0%nat
         sample_screen = Ok t' /\
    anim_buffer t' = Some am' /\
    screen_mem t' (draw_start sample_bp + 0 * 8 + 0) = Colour3 64 64 64 /\
    am' (draw_start sample_bp + 0 * 8 + 0) = 0.
Proof.
  destruct (TransparentRemap_recolours_destination (ops := sample_ops)
              (parent := sample_parent) sample_bp 0%nat sample_lines 5 sample_screen
              (fun _ => 0) eq_refl eq_refl sample_drawable)
    as (t' & am' & Hrun & Ham & Hpx).
  exists t', am'. split; [exact Hrun|]. split; [exact Ham|].
  destruct (Hpx 0 0 (red, 0)) as [Hstatic _]; try (cbn; lia); try reflexivity.
  exact (Hstatic eq_refl).
Defined.

Lemma remapped_opaque_pixel_keeps_colour_witness :
  exists t' am',
    Draw (ops := sample_ops) (parent := sample_parent) (four_pixels_bp 7) ColourRemap 0%nat
         sample_screen = Ok t' /\
    anim_buffer t' = Some am' /\
    screen_mem t' (draw_start (four_pixels_bp 7) + 0 * 8 + 1) = green /\
    am' (draw_start (four_pixels_bp 7) + 0 * 8 + 1) = 7.
Proof.
  destruct (remapped_opaque_pixel_keeps_colour (ops := sample_ops) (parent := sample_parent)
              ColourRemap (four_pixels_bp 7) 0%nat (four_pixels 7) 4 sample_screen
              (fun _ => 0) eq_refl eq_refl (or_introl eq_refl) (four_pixels_drawable 7))
    as (t' & am' & Hrun & Ham & Hpx).
  exists t', am'. split; [exact Hrun|]. split; [exact Ham|].
  apply (Hpx 0 1 green 7); try (cbn; lia); try reflexivity; discriminate.
Defined.

Lemma CrashRemap_is_ColourRemap_on_classes_witness :
  exists t1 am1 t2 am2,
    Draw (ops := sample_ops) (parent := sample_parent) sample_bp ColourRemap 0%nat
         sample_screen = Ok t1 /\
    anim_buffer t1 = Some am1 /\
    Draw (ops := sample_ops) (parent := sample_parent) sample_bp CrashRemap 0%nat
         sample_screen = Ok t2 /\
    anim_buffer t2 = Some am2 /\
    screen_mem t1 (draw_start sample_bp + 1 * 8 + 0) =
      screen_mem t2 (draw_start sample_bp + 1 * 8 + 0) /\
    am1 (draw_start sample_bp + 1 * 8 + 0) = am2 (draw_start sample_bp + 1 * 8 + 0).
Proof.
  destruct (CrashRemap_is_ColourRemap_on_classes (ops := sample_ops) (parent := sample_parent)
              sample_bp 0%nat sample_lines 5 sample_screen (fun _ => 0) eq_refl eq_refl
              sample_drawable)
    as (t1 & am1 & t2 & am2 & Hrun1 & Ham1 & Hrun2 & Ham2 & Hpx).
  exists t1, am1, t2, am2. repeat (split; [assumption|]).
  apply (Hpx 1 0 yellow 6); try (cbn; lia); try reflexivity; discriminate.
Defined.

Lemma identity_remap_is_Normal_witness :
  exists t1 am1 t2 am2,
    Draw (ops := sample_ops) (parent := sample_parent) sample_identity_bp ColourRemap 0%nat
         sample_screen = Ok t1 /\
    anim_buffer t1 = Some am1 /\
    Draw (ops := sample_ops) (parent := sample_parent) sample_identity_bp Normal 0%nat
         sample_screen = Ok t2 /\
    anim_buffer t2 = Some am2 /\
    (forall q, screen_mem t1 q = screen_mem t2 q) /\
    am1 (draw_start sample_identity_bp + 0 * 8 + 1) =
      am2 (draw_start sample_identity_bp + 0 * 8 + 1) /\
    am1 (draw_start sample_identity_bp + 0 * 8 + 2) = 0 /\
    am2 (draw_start sample_identity_bp + 0 * 8 + 2) = 7.
Proof.
  destruct (identity_remap_is_Normal (ops := sample_ops) (parent := sample_parent)
              sample_identity_bp 0%nat sample_lines 5 sample_screen (fun _ => 0)
              eq_refl eq_refl sample_identity_drawable (fun m _ => eq_refl))
    as (t1 & am1 & t2 & am2 & Hrun1 & Ham1 & Hrun2 & Ham2 & Hcol & Hpx).
  exists t1, am1, t2, am2. repeat (split; [assumption|]). split.
  - destruct (Hpx 0 1 green 5) as [Hsame _]; try (cbn; lia); try reflexivity.
    apply Hsame. left. reflexivity.
  - destruct (Hpx 0 2 glass 7) as [_ Hpart]; try (cbn; lia); try reflexivity.
    apply Hpart; discriminate.
Defined.

Lemma Draw_undone_by_restore_witness :
  exists buf t2 t3 am3,
    CopyToBuffer (draw_start sample_bp) sample_saved 4 2 sample_screen = Ok buf /\
    Draw (ops := sample_ops) (parent := sample_parent) sample_bp CrashRemap 0%nat
         sample_screen = Ok t2 /\
    CopyFromBuffer (draw_start sample_bp) buf 4 2 t2 = Ok t3 /\
    anim_buffer t3 = Some am3 /\
    forall q, screen_mem t3 q = Colour3 64 64 64 /\ am3 q = 0.
Proof.
  apply (Draw_undone_by_restore (ops := sample_ops) (parent := sample_parent) CrashRemap
           sample_bp 0%nat sample_lines 5 sample_screen (fun _ => 0) sample_saved
           eq_refl eq_refl I sample_drawable eq_refl eq_refl).
  intros y x _ _. cbn. lia.
Defined.

Lemma DrawLine_marks_its_points_witness :
  exists t' am',
    DrawLine (rest := sample_rest) (raster := sample_raster) 0 1 1 3 1 8 4 {| p := 9 |} 1 0
             sample_screen = Ok t' /\
    anim_buffer t' = Some am' /\
    screen_mem t' (0 + 2 + 1 * 8) = _black_colour /\ am' (0 + 2 + 1 * 8) = 9.
Proof.
  destruct (DrawLine_marks_its_points (rest := sample_rest) (raster := sample_raster)
              sample_screen (fun _ => 0) 0 1 1 3 1 8 4 {| p := 9 |} 1 0 eq_refl eq_refl)
    as (t' & am' & Hrun & Ham & Hpts & _).
  exists t', am'. split; [exact Hrun|]. split; [exact Ham|].
  apply (Hpts 2 1). right. left. reflexivity.
Defined.

Lemma DrawLine_is_SetPixel_at_each_point_witness :
  exists t1 am1 t2 am2,
    DrawLine (rest := sample_rest) (raster := sample_raster) 0 1 1 3 1 8 4 {| p := 9 |} 1 0
             sample_screen = Ok t1 /\
    anim_buffer t1 = Some am1 /\
    fold_left (fun r xy => t0 <- r ;;
                 SetPixel (parent := sample_parent) 0 (fst xy) (snd xy) {| p := 9 |} t0)
              [(1, 1); (2, 1); (3, 1)] (Ok sample_screen) = Ok t2 /\
    anim_buffer t2 = Some am2 /\
    forall q, screen_mem t1 q = screen_mem t2 q /\ am1 q = am2 q.
Proof.
  apply (DrawLine_is_SetPixel_at_each_point (parent := sample_parent) (rest := sample_rest)
           (raster := sample_raster) sample_screen (fun _ => 0) 0 1 1 3 1 8 4 {| p := 9 |} 1 0
           eq_refl eq_refl).
  - cbn. lia.
  - change (DrawLineGeneric (LineRasteriser := sample_raster) 1 1 3 1 8 4 1 0)
      with [(1, 1); (2, 1); (3, 1)].
    all_of; cbn; lia.
Defined.

Lemma DrawColourMappingRect_frame_witness :
  exists t' am',
    DrawColourMappingRect (ops := sample_ops) (rest := sample_rest) (tables := sample_tables)
      9 2 2 3 sample_screen_animated = Ok t' /\
    anim_buffer t' = Some am' /\
    (screen_mem t' 11 = Colour3 11 11 11 /\ am' 11 = 11) /\
    am' 17 = 0.
Proof.
  destruct (DrawColourMappingRect_frame (ops := sample_ops) (rest := sample_rest)
              (tables := sample_tables) sample_screen_animated _ 9 2 2 3 eq_refl eq_refl
              ltac:(cbn; lia) ltac:(lia))
    as (t' & am' & Hrun & Ham & Hout & Hstatic).
  exists t', am'. split; [exact Hrun|]. split; [exact Ham|]. split.
  - apply (Hout 11). intros k i Hk Hi. change (screen_pitch sample_screen_animated) with 8. lia.
  - apply (Hstatic 17). reflexivity.
Defined.

Lemma DrawColourMappingRect_transparent_witness :
  exists t' am',
    DrawColourMappingRect (ops := sample_ops) (rest := sample_rest) (tables := sample_tables)
      9 2 2 1 sample_screen_animated = Ok t' /\
    anim_buffer t' = Some am' /\
    am' 9 = 9 /\
    screen_mem t' (9 + 0 * 8 + 0) =
      MakeTransparent (ColourOps := sample_ops)
        (Colour3 (GetColourBrightness (ColourOps := sample_ops) (Colour3 9 9 9)) 0 0) 154 256.
Proof.
  destruct (DrawColourMappingRect_transparent (ops := sample_ops) (rest := sample_rest)
              (tables := sample_tables) sample_screen_animated _ 9 2 2 1 eq_refl eq_refl
              ltac:(cbn; lia) ltac:(lia) eq_refl)
    as (t' & am' & Hrun & Ham & Hanim & Hpx).
  exists t', am'. split; [exact Hrun|]. split; [exact Ham|]. split.
  - exact (Hanim 9).
  - exact (Hpx 0 0 ltac:(lia) ltac:(lia)).
Defined.

Lemma DrawColourMappingRect_newspaper_witness :
  exists t' am',
    DrawColourMappingRect (ops := sample_ops) (rest := sample_rest) (tables := sample_tables)
      9 2 2 2 sample_screen_animated = Ok t' /\
    anim_buffer t' = Some am' /\
    (screen_mem t' (9 + 0 * 8 + 0) = Colour3 9 9 9 /\ am' (9 + 0 * 8 + 0) = 10) /\
    (screen_mem t' (9 + 1 * 8 + 0) =
       MakeGrey (RecolourTables := sample_tables) (Colour3 17 17 17) /\
     am' (9 + 1 * 8 + 0) = 0).
Proof.
  destruct (DrawColourMappingRect_newspaper (ops := sample_ops) (rest := sample_rest)
              (tables := sample_tables) sample_screen_animated _ 9 2 2 2 eq_refl eq_refl
              ltac:(cbn; lia) ltac:(lia) ltac:(discriminate) eq_refl)
    as (t' & am' & Hrun & Ham & Hpx).
  exists t', am'. split; [exact Hrun|]. split; [exact Ham|]. split.
  - destruct (Hpx 0 0 ltac:(lia) ltac:(lia)) as [_ Hanimated]. apply Hanimated. discriminate.
  - destruct (Hpx 1 0 ltac:(lia) ltac:(lia)) as [Hstatic _]. apply Hstatic. reflexivity.
Defined.

Lemma DrawColourMappingRect_recolours_animated_only_witness :
  exists t' am',
    DrawColourMappingRect (ops := sample_ops) (rest := sample_rest) (tables := sample_tables)
      9 2 2 3 sample_screen_animated = Ok t' /\
    anim_buffer t' = Some am' /\
    (forall q, screen_mem t' q = Colour3 q q q) /\
    am' (9 + 0 * 8 + 1) = 11 /\ am' (9 + 1 * 8 + 1) = 0.
Proof.
  destruct (DrawColourMappingRect_recolours_animated_only (ops := sample_ops)
              (rest := sample_rest) (tables := sample_tables) sample_screen_animated _
              9 2 2 3 eq_refl eq_refl ltac:(cbn; lia) ltac:(lia) ltac:(discriminate)
              ltac:(discriminate))
    as (t' & am' & Hrun & Ham & Hcol & Hpx).
  exists t', am'. split; [exact Hrun|]. split; [exact Ham|]. split; [exact Hcol|]. split.
  - exact (Hpx 0 1 ltac:(lia) ltac:(lia)).
  - exact (Hpx 1 1 ltac:(lia) ltac:(lia)).
Defined.

Lemma CopyImageToBuffer_realizes_pixels_witness :
  CopyImageToBuffer (ops := sample_ops) (rest := sample_rest) 9 sample_saved 2 2 2
                    sample_screen_animated (0 * 2 + 1) =
    RealizeBlendedColour (ColourOps := sample_ops) 10 (Colour3 10 10 10) /\
  CopyImageToBuffer (ops := sample_ops) (rest := sample_rest) 9 sample_saved 2 2 2
                    sample_screen_animated 4 = sample_saved 4.
Proof.
  destruct (CopyImageToBuffer_realizes_pixels (ops := sample_ops) (rest := sample_rest)
              sample_screen_animated _ 9 sample_saved 2 2 2 eq_refl ltac:(lia))
    as [Hin Hout].
  split.
  - exact (Hin 0 1 ltac:(lia) ltac:(lia)).
  - apply Hout. intros k x Hk Hx. lia.
Defined.

Lemma DrawRect_shows_palette_colour_witness :
  exists t',
    DrawRect (parent := sample_parent) 9 2 2 {| p := 7 |} sample_screen = Ok t' /\
    CopyImageToBuffer (ops := sample_ops) (rest := sample_rest) 9 sample_saved 2 2 2 t'
                      (1 * 2 + 1) =
      RealizeBlendedColour (ColourOps := sample_ops) 7 _black_colour.
Proof.
  destruct (DrawRect_shows_palette_colour (ops := sample_ops) (parent := sample_parent)
              (rest := sample_rest) sample_screen (fun _ => 0) 9 2 2 {| p := 7 |} sample_saved 2
              eq_refl eq_refl ltac:(lia) ltac:(lia)) as (t' & Hrun & Himg).
  exists t'. split; [exact Hrun|]. apply (Himg 1 1); lia.
Defined.

(** ** ScrollBuffer: the window of the animation buffer *)

(** X23.  The window that [ScrollBuffer] computes for a scroll by less than
    the rectangle is the part of the rectangle that survives: it has
    [width - |scroll_x|] columns and [height - |scroll_y|] rows, every cell
    of its destination is a cell of the rectangle, the cell of its source at
    the same place is the cell of the rectangle that lies [scroll_x] to the
    left and [scroll_y] above, and the rows are taken in an order, from the
    bottom up for a scroll downwards, in which no row is read after it was
    written. *)
Theorem scroll_window_geometry (base pitch left top width height scroll_x scroll_y : Z) :
  0 < width <= pitch -> width < 2 ^ 32 -> 0 < height < 2 ^ 32 ->
  - width < scroll_x < width -> - height < scroll_y < height ->
  exists src dst step,
    scroll_window base pitch left top width height scroll_x scroll_y =
      (src, dst, width - Z.abs scroll_x, height - Z.abs scroll_y, step) /\
    (forall k i, 0 <= k < height - Z.abs scroll_y -> 0 <= i < width - Z.abs scroll_x ->
       exists x y,
         (0 <= x < width /\ 0 <= y < height) /\
         (0 <= x - scroll_x < width /\ 0 <= y - scroll_y < height) /\
         dst + k * step + i = base + left + x + (top + y) * pitch /\
         src + k * step + i = base + left + (x - scroll_x) + (top + y - scroll_y) * pitch) /\
    reads_clean (width - Z.abs scroll_x) step (Z.to_nat (height - Z.abs scroll_y)) src dst.
Proof.
  intros Hw Hw32 Hh Hsx Hsy. unfold scroll_window.
  remember (if scroll_x >=? 0 then - scroll_x else scroll_x) as adj eqn:Eadj.
  assert (Hadj : adj = - Z.abs scroll_x) by (subst adj; destruct (Z.geb_spec scroll_x 0); lia).
  assert (Htw : uint (width + adj) = width - Z.abs scroll_x) by (rewrite uint_small; lia).
  rewrite Htw.
  destruct (Z.gtb_spec scroll_y 0) as [Hpos|Hneg].
  - rewrite (uint_small (height - scroll_y)) by lia.
    replace (height - scroll_y) with (height - Z.abs scroll_y) by lia.
    remember (base + left + (top + height - 1) * pitch) as dst0 eqn:Edst0.
    remember (if scroll_x >=? 0 then dst0 + scroll_x else dst0) as dst eqn:Edst.
    remember (if scroll_x >=? 0 then dst0 - scroll_y * pitch
              else dst0 - scroll_y * pitch - scroll_x) as src eqn:Esrc.
    assert (Hd : src - dst = - scroll_y * pitch - scroll_x)
      by (subst src dst; destruct (Z.geb_spec scroll_x 0); lia).
    assert (Hdst : dst = dst0 + Z.max scroll_x 0)
      by (subst dst; destruct (Z.geb_spec scroll_x 0); lia).
    exists src, dst, (- pitch). split; [reflexivity|]. split.
    + intros k i Hk Hi. exists (i + Z.max scroll_x 0), (height - 1 - k).
      split; [lia|]. split; [lia|]. split; [subst dst0; lia|]. subst dst0. lia.
    + intros j k q Hj Hk Hq. rewrite Z2Nat.id in Hk by lia. rewrite Hd. nia.
  - rewrite (uint_small (height + scroll_y)) by lia.
    replace (height + scroll_y) with (height - Z.abs scroll_y) by lia.
    remember (base + left + top * pitch) as dst0 eqn:Edst0.
    remember (if scroll_x >=? 0 then dst0 + scroll_x else dst0) as dst eqn:Edst.
    remember (if scroll_x >=? 0 then dst0 - scroll_y * pitch
              else dst0 - scroll_y * pitch - scroll_x) as src eqn:Esrc.
    assert (Hd : src - dst = - scroll_y * pitch - scroll_x)
      by (subst src dst; destruct (Z.geb_spec scroll_x 0); lia).
    assert (Hdst : dst = dst0 + Z.max scroll_x 0)
      by (subst dst; destruct (Z.geb_spec scroll_x 0); lia).
    exists src, dst, pitch. split; [reflexivity|]. split.
    + intros k i Hk Hi. exists (i + Z.max scroll_x 0), k.
      split; [lia|]. split; [lia|]. split; [subst dst0; lia|]. subst dst0. lia.
    + intros j k q Hj Hk Hq. rewrite Z2Nat.id in Hk by lia. rewrite Hd. nia.
Qed.

Lemma scroll_window_geometry_witness :
  exists src dst step,
    scroll_window 0 4 0 0 4 3 (-1) 1 = (src, dst, 4 - Z.abs (-1), 3 - Z.abs 1, step) /\
    (forall k i, 0 <= k < 3 - Z.abs 1 -> 0 <= i < 4 - Z.abs (-1) ->
       exists x y,
         (0 <= x < 4 /\ 0 <= y < 3) /\
         (0 <= x - -1 < 4 /\ 0 <= y - 1 < 3) /\
         dst + k * step + i = 0 + 0 + x + (0 + y) * 4 /\
         src + k * step + i = 0 + 0 + (x - -1) + (0 + y - 1) * 4) /\
    reads_clean (4 - Z.abs (-1)) step (Z.to_nat (3 - Z.abs 1)) src dst.
Proof.
  apply (scroll_window_geometry 0 4 0 0 4 3 (-1) 1); lia.
Defined.
